(** * gitlab-repo-cloner: the group traversal and the clone-or-pull step

    A shallow embedding of [main.go].  The program is a thin orchestration
    of two external collaborators, the GitLab API client and the go-git
    library.  Both are kept behind an interface ([Services]); the program
    threads a world through their calls and records every call, its
    arguments and its answer, together with every log line, in a trace. *)

From Stdlib Require Import ZArith List Lia Wf_nat Wellfounded.
From stdpp Require Import gmap strings list fin_maps pretty.
Import ListNotations.

Local Open Scope string_scope.
Local Open Scope list_scope.

(** ** Errors

    Go errors are values.  The two sentinels of go-git that [gitClone]
    tests for are constructors, and so is [pflag.ErrHelp], which [main]
    tests for; every other failure carries its message, and [ErrWrap] is
    an error that wraps another one. *)

Inductive error : Type :=
| ErrRepositoryAlreadyExists
| NoErrAlreadyUpToDate
| ErrOther (msg : string)
| ErrWrap (msg : string) (cause : error)
| ErrHelp.

Inductive result (A : Type) : Type :=
| Ok (a : A)
| Err (e : error).
Arguments Ok {A} a.
Arguments Err {A} e.

Fixpoint error_eqb (a b : error) : bool :=
  match a, b with
  | ErrRepositoryAlreadyExists, ErrRepositoryAlreadyExists => true
  | NoErrAlreadyUpToDate, NoErrAlreadyUpToDate => true
  | ErrOther m, ErrOther n => String.eqb m n
  | ErrWrap m c, ErrWrap n d => String.eqb m n && error_eqb c d
  | ErrHelp, ErrHelp => true
  | _, _ => false
  end.

(** [errors.Is(err, target)]: [target] is [err] or is in its chain. *)
Fixpoint errors_Is (err target : error) : bool :=
  error_eqb err target ||
  match err with
  | ErrWrap _ cause => errors_Is cause target
  | _ => false
  end.

(** [err.Error()]. *)
Fixpoint Error (e : error) : string :=
  match e with
  | ErrRepositoryAlreadyExists => "repository already exists"
  | NoErrAlreadyUpToDate => "already up-to-date"
  | ErrOther msg => msg
  | ErrWrap msg cause => msg +:+ ": " +:+ Error cause
  | ErrHelp => "pflag: help requested"
  end.

(** ** Data of the GitLab client and of go-git that the program reads *)

Record gitlab_Group : Type := {
  Group_ID : Z;
  Group_FullPath : string
}.

Record gitlab_Project : Type := {
  Project_ID : Z;
  Project_Path : string;
  Project_SSHURLToRepo : string
}.

(** [gitlab.ListOptions]; a field the program does not set has Go's zero
    value, so [Page] is [0]: no page is asked for. *)
Record ListOptions : Type := {
  Page : Z;
  PerPage : Z;
  OrderBy : string;
  Sort : string
}.

Definition listOptions : ListOptions :=
  {| Page := 0; PerPage := 1000; OrderBy := "name"; Sort := "asc" |}.

Inductive AuthMethod : Type :=
| SSHAgentAuth (user : string).

(** [io.Writer] values the program passes as progress sink. *)
Inductive Writer : Type :=
| Discard
| Stdout.

Record CloneOptions : Type := {
  URL : string;
  Auth : AuthMethod;
  Progress : Writer
}.

Record PullOptions : Type := {
  RemoteName : string;
  Force : bool;
  PullProgress : Writer
}.

(** ** [path.Join] and [path.Clean] of Go's standard library

    [Clean] works on the components between slashes: an empty component
    and [.] are dropped, [..] removes the component before it, or is kept
    when nothing is left to remove and the path is not rooted. *)

Definition slash : Ascii.ascii := Eval cbv in Ascii.ascii_of_nat 47.

Fixpoint components (s : string) : list string :=
  match s with
  | EmptyString => [""]
  | String c s' =>
      let r := components s' in
      if Ascii.eqb c slash then "" :: r
      else match r with
           | x :: xs => String c x :: xs
           | [] => [String c ""]
           end
  end.

Fixpoint cleanComponents (rooted : bool) (cs out : list string) : list string :=
  match cs with
  | [] => rev out
  | c :: cs' =>
      if String.eqb c "" then cleanComponents rooted cs' out
      else if String.eqb c "." then cleanComponents rooted cs' out
      else if String.eqb c ".." then
        match out with
        | top :: out' =>
            if String.eqb top ".."
            then cleanComponents rooted cs' (if rooted then out else ".." :: out)
            else cleanComponents rooted cs' out'
        | [] => cleanComponents rooted cs' (if rooted then out else [".."])
        end
      else cleanComponents rooted cs' (c :: out)
  end.

Definition isRooted (p : string) : bool :=
  match p with
  | String c _ => Ascii.eqb c slash
  | EmptyString => false
  end.

Definition Clean (p : string) : string :=
  if String.eqb p "" then "."
  else
    let rooted := isRooted p in
    let out := String.concat "/" (cleanComponents rooted (components p) []) in
    let s := if rooted then String slash out else out in
    if String.eqb s "" then "." else s.

Fixpoint dropEmpty (elem : list string) : list string :=
  match elem with
  | e :: rest => if String.eqb e "" then dropEmpty rest else elem
  | [] => []
  end.

Definition Join (elem : list string) : string :=
  match dropEmpty elem with
  | [] => ""
  | es => Clean (String.concat "/" es)
  end.

(** ** The command line

    The values of the flags that [main] declares, main.go 187-196. *)

Record Flags : Type := {
  flag_dest_dir : string;
  flag_ignore_project_ids : list Z;
  flag_ignore_group_ids : list Z;
  flag_gitlab_host : string;
  flag_gitlab_token : string;
  flag_group_ids : list Z;
  flag_project_ids : list Z;
  flag_progress : bool
}.

(** ** The trace *)

Inductive Level : Type := Info | Warn | Error_.

Inductive AttrValue : Type :=
| IntValue (n : Z)
| StringValue (s : string).

Definition Attrs : Type := list (string * AttrValue).

Inductive Event : Type :=
| EvLog (lvl : Level) (attrs : Attrs) (msg : string)
| EvGetGroup (gid : Z) (opt : ListOptions) (res : result gitlab_Group)
| EvListGroupProjects (gid : Z) (opt : ListOptions)
    (res : result (list gitlab_Project))
| EvListSubGroups (gid : Z) (opt : ListOptions)
    (res : result (list gitlab_Group))
| EvGetProject (pid : Z) (res : result gitlab_Project)
| EvPlainClone (path : string) (isBare : bool) (o : CloneOptions)
    (err : option error)
| EvPlainOpen (path : string) (err : option error)
| EvWorktree (path : string) (err : option error)
| EvPull (path : string) (o : PullOptions) (err : option error)
| EvNewClient (token baseURL : string) (err : option error)
| EvCurrentUser (err : option error)
| EvNewSSHAgentAuth (user : string) (err : option error)
| EvExit (code : Z)
| EvAbs (res : result string)
| EvFlagParse (res : result Flags).

Definition Trace : Type := list Event.

Definition errOf {A : Type} (r : result A) : option error :=
  match r with
  | Ok _ => None
  | Err e => Some e
  end.

(** ** The external services

    [W] is the state of the world outside the program (the remote and the
    local disk); [R] and [T] are go-git's repository and worktree handles. *)

Record Services (W R T : Type) : Type := {
  GetGroup : Z -> ListOptions -> W -> result gitlab_Group * W;
  ListGroupProjects : Z -> ListOptions -> W -> result (list gitlab_Project) * W;
  ListSubGroups : Z -> ListOptions -> W -> result (list gitlab_Group) * W;
  GetProject : Z -> W -> result gitlab_Project * W;
  PlainClone : string -> bool -> CloneOptions -> W -> option error * W;
  PlainOpen : string -> W -> result R * W;
  Worktree : R -> W -> result T * W;
  Pull : T -> PullOptions -> W -> option error * W;
  NewClient : string -> string -> W -> option error * W;
  CurrentUser : W -> option error * W;
  NewSSHAgentAuth : string -> W -> result AuthMethod * W;
  Abs : W -> result string * W;
  FlagParse : Flags -> W -> result Flags * W
}.
Arguments GetGroup {W R T} _ _ _ _.
Arguments ListGroupProjects {W R T} _ _ _ _.
Arguments ListSubGroups {W R T} _ _ _ _.
Arguments GetProject {W R T} _ _ _.
Arguments PlainClone {W R T} _ _ _ _ _.
Arguments PlainOpen {W R T} _ _ _.
Arguments Worktree {W R T} _ _ _.
Arguments Pull {W R T} _ _ _ _.
Arguments NewClient {W R T} _ _ _ _.
Arguments CurrentUser {W R T} _ _.
Arguments NewSSHAgentAuth {W R T} _ _ _.
Arguments Abs {W R T} _ _.
Arguments FlagParse {W R T} _ _ _.

Record RepoCloner : Type := {
  destDir : string;
  auth : AuthMethod;
  ignoreProjectIDs : list Z;
  ignoreGroupIDs : list Z;
  progress : Writer
}.

(** [slices.Contains]. *)
Definition slices_Contains (s : list Z) (v : Z) : bool :=
  existsb (Z.eqb v) s.

(** ** The program

    [Eff] is a computation that always returns: it takes the world, and
    gives its value, the events it caused in the order they happened, and
    the world it leaves.  [Div] is one that may not return; [None] is the
    recursion of [Group] running out of fuel. *)

Definition Eff (W A : Type) : Type := W -> A * Trace * W.
Definition Div (W A : Type) : Type := W -> option (A * Trace * W).

Definition ret {W A : Type} (a : A) : Eff W A := fun w => (a, [], w).

Definition bind {W A B : Type} (m : Eff W A) (k : A -> Eff W B) : Eff W B :=
  fun w =>
    let '(a, t1, w1) := m w in
    let '(b, t2, w2) := k a w1 in
    (b, t1 ++ t2, w2).

Definition lift {W A : Type} (m : Eff W A) : Div W A := fun w => Some (m w).

Definition bindD {W A B : Type} (m : Div W A) (k : A -> Div W B) : Div W B :=
  fun w =>
    match m w with
    | None => None
    | Some (a, t1, w1) =>
        match k a w1 with
        | None => None
        | Some (b, t2, w2) => Some (b, t1 ++ t2, w2)
        end
    end.

Declare Scope eff_scope.
Delimit Scope eff_scope with eff.
Notation "x <- m ;; k" := (bind m (fun x => k))
  (at level 100, m at next level, right associativity) : eff_scope.
Notation "m ;; k" := (bind m (fun _ => k))
  (at level 100, right associativity) : eff_scope.

Declare Scope div_scope.
Delimit Scope div_scope with div.
Notation "x <- m ;; k" := (bindD m (fun x => k))
  (at level 100, m at next level, right associativity) : div_scope.
Notation "m ;; k" := (bindD m (fun _ => k))
  (at level 100, right associativity) : div_scope.

(** A [for ... range] loop whose body always returns. *)
Fixpoint forEach {W A : Type} (f : A -> Eff W unit) (l : list A) : Eff W unit :=
  match l with
  | [] => ret tt
  | x :: rest => (f x ;; forEach f rest)%eff
  end.

(** The same loop over a body that may not return. *)
Fixpoint forEachD {W A : Type} (f : A -> Div W unit) (l : list A) : Div W unit :=
  match l with
  | [] => lift (ret tt)
  | x :: rest => (f x ;; forEachD f rest)%div
  end.

(** [slog]: a logger is the attributes given to [With]; a log call adds
    its own. *)
Definition slog {W : Type} (lvl : Level) (log : Attrs) (msg : string)
    (args : Attrs) : Eff W unit :=
  fun w => (tt, [EvLog lvl (log ++ args) msg], w).

Definition os_Exit {W : Type} (code : Z) : Eff W unit :=
  fun w => (tt, [EvExit code], w).

Section Program.
Context {W R T : Type}.
Variable svc : Services W R T.
Variable rc : RepoCloner.

(** Calls of the services, each recorded with its answer. *)

Definition client_Groups_GetGroup (gid : Z) (opt : ListOptions)
    : Eff W (result gitlab_Group) :=
  fun w => let '(r, w') := GetGroup svc gid opt w in
           (r, [EvGetGroup gid opt r], w').

Definition client_Groups_ListGroupProjects (gid : Z) (opt : ListOptions)
    : Eff W (result (list gitlab_Project)) :=
  fun w => let '(r, w') := ListGroupProjects svc gid opt w in
           (r, [EvListGroupProjects gid opt r], w').

Definition client_Groups_ListSubGroups (gid : Z) (opt : ListOptions)
    : Eff W (result (list gitlab_Group)) :=
  fun w => let '(r, w') := ListSubGroups svc gid opt w in
           (r, [EvListSubGroups gid opt r], w').

Definition client_Projects_GetProject (pid : Z)
    : Eff W (result gitlab_Project) :=
  fun w => let '(r, w') := GetProject svc pid w in
           (r, [EvGetProject pid r], w').

Definition git_PlainClone (path : string) (isBare : bool) (o : CloneOptions)
    : Eff W (option error) :=
  fun w => let '(e, w') := PlainClone svc path isBare o w in
           (e, [EvPlainClone path isBare o e], w').

Definition git_PlainOpen (path : string) : Eff W (result R) :=
  fun w => let '(r, w') := PlainOpen svc path w in
           (r, [EvPlainOpen path (errOf r)], w').

Definition repo_Worktree (path : string) (repo : R) : Eff W (result T) :=
  fun w => let '(r, w') := Worktree svc repo w in
           (r, [EvWorktree path (errOf r)], w').

Definition work_Pull (path : string) (work : T) (o : PullOptions)
    : Eff W (option error) :=
  fun w => let '(e, w') := Pull svc work o w in
           (e, [EvPull path o e], w').

(** [err != nil && !errors.Is(err, benign)]: the error to report. *)
Definition failure (err : option error) (benign : error) : option error :=
  match err with
  | Some e => if errors_Is e benign then None else Some e
  | None => None
  end.

(** [RepoCloner.gitClone], main.go 114-164. *)
Definition gitClone (project : gitlab_Project) (dest : string) : Eff W unit :=
  (let subPath := Join [dest; Project_Path project] in
   let log := [("project_id", IntValue (Project_ID project));
               ("path", StringValue subPath)] in
   slog Info log "get repo" [] ;;
   let subPath := Join [destDir rc; subPath] in
   err <- git_PlainClone subPath false
            {| URL := Project_SSHURLToRepo project;
               Auth := auth rc;
               Progress := progress rc |} ;;
   match failure err ErrRepositoryAlreadyExists with
   | Some e => slog Error_ log "clone repo error" [("error", StringValue (Error e))]
   | None =>
       repo <- git_PlainOpen subPath ;;
       match repo with
       | Err e => slog Error_ log "open repo error" [("error", StringValue (Error e))]
       | Ok repo =>
           work <- repo_Worktree subPath repo ;;
           match work with
           | Err e =>
               slog Error_ log "worktree repo error" [("error", StringValue (Error e))]
           | Ok work =>
               err <- work_Pull subPath work
                        {| RemoteName := "origin";
                           Force := true;
                           PullProgress := progress rc |} ;;
               match failure err NoErrAlreadyUpToDate with
               | Some e =>
                   slog Error_ log "pull repo error" [("error", StringValue (Error e))]
               | None => ret tt
               end
           end
       end
   end)%eff.

(** [RepoCloner.Project], main.go 92-112. *)
Definition Project (projectID : Z) : Eff W unit :=
  (let log := [("project_id", IntValue projectID)] in
   if slices_Contains (ignoreProjectIDs rc) projectID
   then slog Warn log "ignore project" []
   else
     project <- client_Projects_GetProject projectID ;;
     match project with
     | Err e => slog Error_ log "get project error" [("error", StringValue (Error e))]
     | Ok project => gitClone project ""
     end)%eff.

(** [RepoCloner.Group], main.go 34-90.  [fuel] bounds the depth of the
    recursion. *)
Fixpoint Group (fuel : nat) (groupID : Z) : Div W unit :=
  match fuel with
  | O => fun _ => None
  | S fuel =>
      let log := [("group_id", IntValue groupID)] in
      if slices_Contains (ignoreGroupIDs rc) groupID
      then lift (slog Warn log "ignore group" [])
      else
        (group <- lift (client_Groups_GetGroup groupID listOptions) ;;
         match group with
         | Err e =>
             lift (slog Error_ log "get group error" [("error", StringValue (Error e))])
         | Ok group =>
             let log := log ++ [("group", StringValue (Group_FullPath group))] in
             lift (slog Info log "get group repos" []) ;;
             projects <- lift (client_Groups_ListGroupProjects (Group_ID group) listOptions) ;;
             match projects with
             | Err e =>
                 lift (slog Error_ log "list projects error"
                         [("error", StringValue (Error e))])
             | Ok projects =>
                 lift (forEach (fun project => gitClone project (Group_FullPath group))
                         projects) ;;
                 groups <- lift (client_Groups_ListSubGroups (Group_ID group) listOptions) ;;
                 match groups with
                 | Err e =>
                     lift (slog Error_ log "list subgroups error"
                             [("error", StringValue (Error e))])
                 | Ok groups =>
                     forEachD (fun group => Group fuel (Group_ID group)) groups
                 end
             end
         end)%div
  end.

(** The two loops that end [main], main.go 237-243. *)
Definition traverse (fuel : nat) (groupIDs projectIDs : list Z) : Div W unit :=
  (forEachD (Group fuel) groupIDs ;;
   lift (forEach Project projectIDs))%div.

End Program.

(** ** [main] *)

Section Main.
Context {W R T : Type}.
Variable svc : Services W R T.

Definition gitlab_NewClient (token baseURL : string) : Eff W (option error) :=
  fun w => let '(e, w') := NewClient svc token baseURL w in
           (e, [EvNewClient token baseURL e], w').

Definition client_Users_CurrentUser : Eff W (option error) :=
  fun w => let '(e, w') := CurrentUser svc w in
           (e, [EvCurrentUser e], w').

Definition ssh_NewSSHAgentAuth (user : string) : Eff W (result AuthMethod) :=
  fun w => let '(r, w') := NewSSHAgentAuth svc user w in
           (r, [EvNewSSHAgentAuth user (errOf r)], w').

(** [filepath.Abs(filepath.Dir(os.Args[0]))], main.go 167. *)
Definition filepath_Abs : Eff W (result string) :=
  fun w => let '(r, w') := Abs svc w in
           (r, [EvAbs r], w').

(** [flag.Parse(os.Args[1:])] on the flag set that main.go 187-196
    declares with the values [defaults]. *)
Definition flag_Parse (defaults : Flags) : Eff W (result Flags) :=
  fun w => let '(r, w') := FlagParse svc defaults w in
           (r, [EvFlagParse r], w').

(** The part of [main] that follows the parsing of the flags, main.go
    206-243.  Every startup failure logs and leaves through
    [os.Exit(1)]; the two loops run only when all three steps
    succeeded. *)
Definition mainWith (fuel : nat) (flags : Flags) : Div W unit :=
  (err <- lift (gitlab_NewClient (flag_gitlab_token flags)
                  (flag_gitlab_host flags +:+ "/api/v4")) ;;
   match err with
   | Some e =>
       lift (slog Error_ [] "client error" [("error", StringValue (Error e))] ;;
             os_Exit 1)%eff
   | None =>
       err <- lift client_Users_CurrentUser ;;
       match err with
       | Some e =>
           lift (slog Error_ [] "current user error" [("error", StringValue (Error e))] ;;
                 os_Exit 1)%eff
       | None =>
           a <- lift (ssh_NewSSHAgentAuth "git") ;;
           match a with
           | Err e =>
               lift (slog Error_ [] "auth error" [("error", StringValue (Error e))] ;;
                     os_Exit 1)%eff
           | Ok a =>
               let rc := {| destDir := flag_dest_dir flags;
                            auth := a;
                            ignoreProjectIDs := flag_ignore_project_ids flags;
                            ignoreGroupIDs := flag_ignore_group_ids flags;
                            progress := if flag_progress flags then Stdout else Discard |} in
               traverse svc rc fuel (flag_group_ids flags) (flag_project_ids flags)
           end
       end
   end)%div.

(** The values of the flags before the command line is read, main.go
    174-196.  [flag.StringVar] stores its default, [./repos], in
    [rc.destDir], over the [path.Join(currentDir, "repos")] that line 175
    put there: the directory of the program is asked for and not used. *)
Definition defaultFlags : Flags :=
  {| flag_dest_dir := "./repos";
     flag_ignore_project_ids := [];
     flag_ignore_group_ids := [];
     flag_gitlab_host := "https://gitlab.com";
     flag_gitlab_token := "";
     flag_group_ids := [];
     flag_project_ids := [];
     flag_progress := false |}.

(** [main], main.go 166-244.  A failure of [filepath.Abs] logs and
    leaves through [os.Exit(1)]; so does a failure of [flag.Parse],
    which logs unless [errors.Is(pflag.ErrHelp, err)]. *)
Definition main (fuel : nat) : Div W unit :=
  (currentDir <- lift filepath_Abs ;;
   match currentDir with
   | Err e =>
       lift (slog Error_ [] "directory error" [("error", StringValue (Error e))] ;;
             os_Exit 1)%eff
   | Ok _ =>
       parsed <- lift (flag_Parse defaultFlags) ;;
       match parsed with
       | Err e =>
           lift ((if errors_Is ErrHelp e then ret tt
                  else slog Error_ [] "flag error" [("error", StringValue (Error e))]) ;;
                 os_Exit 1)%eff
       | Ok flags => mainWith fuel flags
       end
   end)%div.

End Main.

(** ** What [gitClone] passes to the backend and to the logger *)

(** The destination path of a project under the prefix [dest]. *)
Definition destination (rc : RepoCloner) (dest : string) (project : gitlab_Project)
    : string :=
  Join [destDir rc; Join [dest; Project_Path project]].

Definition cloneOptions (rc : RepoCloner) (project : gitlab_Project) : CloneOptions :=
  {| URL := Project_SSHURLToRepo project; Auth := auth rc; Progress := progress rc |}.

Definition pullOptions (rc : RepoCloner) : PullOptions :=
  {| RemoteName := "origin"; Force := true; PullProgress := progress rc |}.

Definition projectLog (dest : string) (project : gitlab_Project) : Attrs :=
  [("project_id", IntValue (Project_ID project));
   ("path", StringValue (Join [dest; Project_Path project]))].

Definition groupLog (groupID : Z) : Attrs := [("group_id", IntValue groupID)].

Definition errorAttr (e : error) : Attrs := [("error", StringValue (Error e))].

(** The error line that ends an abandoned step, if the step failed. *)
Definition errorLine (log : Attrs) (msg : string) (failed : option error) : Trace :=
  match failed with
  | Some e => [EvLog Error_ (log ++ errorAttr e) msg]
  | None => []
  end.

(** ** Reading a trace *)

Definition isErrorLog (e : Event) : bool :=
  match e with
  | EvLog Error_ _ _ => true
  | _ => false
  end.

(** A sync is abandoned when it logged an error. *)
Definition abandoned (tr : Trace) : bool := existsb isErrorLog tr.

(** The event is a call of the directory service. *)
Definition isDirectoryCall (e : Event) : bool :=
  match e with
  | EvGetGroup _ _ _ | EvListGroupProjects _ _ _ | EvListSubGroups _ _ _
  | EvGetProject _ _ => true
  | _ => false
  end.

(** The event is a call of the version-control backend. *)
Definition isGitCall (e : Event) : bool :=
  match e with
  | EvPlainClone _ _ _ _ | EvPlainOpen _ _ | EvWorktree _ _ | EvPull _ _ _ => true
  | _ => false
  end.

(** The page a list request asks for, when it is one. *)
Definition requestOptions (e : Event) : option ListOptions :=
  match e with
  | EvGetGroup _ opt _ | EvListGroupProjects _ opt _ | EvListSubGroups _ opt _ =>
      Some opt
  | _ => None
  end.

(** The destination paths the backend was asked to clone into. *)
Definition clonedPaths (tr : Trace) : list string :=
  flat_map (fun e => match e with
                     | EvPlainClone path _ _ _ => [path]
                     | _ => []
                     end) tr.

(** What the traversal may record: log lines; fetches of groups and
    projects that are not excluded; listings; clones into the destination
    of some project, with its options; opens, worktrees and pulls. *)
Definition traversalEvent (rc : RepoCloner) (e : Event) : Prop :=
  match e with
  | EvLog _ _ _ => True
  | EvGetGroup gid opt _ =>
      opt = listOptions /\ slices_Contains (ignoreGroupIDs rc) gid = false
  | EvListGroupProjects _ opt _ => opt = listOptions
  | EvListSubGroups _ opt _ => opt = listOptions
  | EvGetProject pid _ => slices_Contains (ignoreProjectIDs rc) pid = false
  | EvPlainClone path isBare o _ =>
      isBare = false /\
      exists dest project, path = destination rc dest project /\ o = cloneOptions rc project
  | EvPlainOpen _ _ => True
  | EvWorktree _ _ => True
  | EvPull _ o _ => o = pullOptions rc
  | EvNewClient _ _ _ => False
  | EvCurrentUser _ => False
  | EvNewSSHAgentAuth _ _ => False
  | EvExit _ => False
  | EvAbs _ => False
  | EvFlagParse _ => False
  end.

(** [Group] was called for [gid]: it either logged that the group is
    ignored or fetched it. *)
Definition visited (gid : Z) (tr : Trace) : Prop :=
  In (EvLog Warn (groupLog gid) "ignore group") tr \/
  exists r, In (EvGetGroup gid listOptions r) tr.

(** [Project] was called for [pid]. *)
Definition visitedProject (pid : Z) (tr : Trace) : Prop :=
  In (EvLog Warn [("project_id", IntValue pid)] "ignore project") tr \/
  exists r, In (EvGetProject pid r) tr.

(** [gitClone] was called for [project]: the clone was asked for. *)
Definition synced (rc : RepoCloner) (project : gitlab_Project) (tr : Trace) : Prop :=
  exists dest err,
    In (EvPlainClone (destination rc dest project) false (cloneOptions rc project) err) tr.

(** What a successful listing commits the traversal to, in the trace
    [tr]: every listed project is synced, every listed subgroup visited. *)
Definition followedUp (rc : RepoCloner) (e : Event) (tr : Trace) : Prop :=
  match e with
  | EvListGroupProjects _ _ (Ok projects) =>
      forall p, In p projects -> synced rc p tr
  | EvListSubGroups _ _ (Ok groups) =>
      forall g, In g groups -> visited (Group_ID g) tr
  | _ => True
  end.

(** Where a clone recorded during a group traversal comes from: a group
    fetched in [tr], a listing of that group's direct projects in [tr],
    and a project of the listing; the path is the destination of the
    project under the group's full path. *)
Definition placedUnderGroup (rc : RepoCloner) (e : Event) (tr : Trace) : Prop :=
  match e with
  | EvPlainClone path _ o _ =>
      exists id group projects project,
        In (EvGetGroup id listOptions (Ok group)) tr /\
        In (EvListGroupProjects (Group_ID group) listOptions (Ok projects)) tr /\
        In project projects /\
        path = Join [destDir rc; Join [Group_FullPath group; Project_Path project]] /\
        o = cloneOptions rc project
  | _ => True
  end.

(** Every event of [tr] has what [Q] asks of it somewhere in [tr]. *)
Definition closed (Q : Event -> Trace -> Prop) (tr : Trace) : Prop :=
  forall e, In e tr -> Q e tr.

(** [Q] stays true when the trace grows. *)
Definition monotone (Q : Event -> Trace -> Prop) : Prop :=
  forall e t t', incl t t' -> Q e t -> Q e t'.

(** Kinds of directory requests, to count them. *)
Definition isGetGroupOk (e : Event) : bool :=
  match e with
  | EvGetGroup _ _ (Ok _) => true
  | _ => false
  end.

Definition isListGroupProjects (e : Event) : bool :=
  match e with
  | EvListGroupProjects _ _ _ => true
  | _ => false
  end.

Definition isListSubGroups (e : Event) : bool :=
  match e with
  | EvListSubGroups _ _ _ => true
  | _ => false
  end.

Definition countEvents (f : Event -> bool) (tr : Trace) : nat :=
  length (List.filter f tr).

(** The answer an event records is an answer the service gives to that
    request in some state of the world. *)
Definition answeredBy {W R T : Type} (svc : Services W R T) (e : Event) : Prop :=
  match e with
  | EvGetGroup gid opt r => exists w, fst (GetGroup svc gid opt w) = r
  | EvListGroupProjects gid opt r => exists w, fst (ListGroupProjects svc gid opt w) = r
  | EvListSubGroups gid opt r => exists w, fst (ListSubGroups svc gid opt w) = r
  | EvGetProject pid r => exists w, fst (GetProject svc pid w) = r
  | _ => True
  end.

(** Why a group is fetched during the visit of [root]: it is [root], or
    a listing of subgroups recorded in [tr] has it. *)
Definition fetchedBecauseListed (root : Z) (e : Event) (tr : Trace) : Prop :=
  match e with
  | EvGetGroup id _ _ =>
      id = root \/
      exists parent groups g,
        In (EvListSubGroups parent listOptions (Ok groups)) tr /\
        In g groups /\ Group_ID g = id
  | _ => True
  end.

(** The same cloner with another set of excluded projects. *)
Definition withIgnoredProjects (ids : list Z) (rc : RepoCloner) : RepoCloner :=
  {| destDir := destDir rc;
     auth := auth rc;
     ignoreProjectIDs := ids;
     ignoreGroupIDs := ignoreGroupIDs rc;
     progress := progress rc |}.

(** Every line the program can log, with its level. *)
Definition logLines : list (Level * string) :=
  [ (Warn, "ignore group"); (Error_, "get group error"); (Info, "get group repos");
    (Error_, "list projects error"); (Error_, "list subgroups error");
    (Warn, "ignore project"); (Error_, "get project error");
    (Info, "get repo"); (Error_, "clone repo error"); (Error_, "open repo error");
    (Error_, "worktree repo error"); (Error_, "pull repo error") ].

(** A log line is one of [logLines]. *)
Definition knownLog (e : Event) : Prop :=
  match e with
  | EvLog lvl _ msg => In (lvl, msg) logLines
  | _ => True
  end.

(** What a second sync of an up-to-date working copy does. *)
Definition upToDateTrace (rc : RepoCloner) (project : gitlab_Project)
    (dest : string) : Trace :=
  let path := destination rc dest project in
  [ EvLog Info (projectLog dest project) "get repo";
    EvPlainClone path false (cloneOptions rc project) (Some ErrRepositoryAlreadyExists);
    EvPlainOpen path None;
    EvWorktree path None;
    EvPull path (pullOptions rc) (Some NoErrAlreadyUpToDate) ].

(** ** The remote hierarchy as the directory service shows it

    [c] is a subgroup of [p] when some answer to a fetch of [p] names a
    group whose subgroup listing, in some state of the world, has [c]. *)

Definition subgroup_of {W R T : Type} (svc : Services W R T) (c p : Z) : Prop :=
  exists w1 w2 o1 o2 g gs g',
    fst (GetGroup svc p o1 w1) = Ok g /\
    fst (ListSubGroups svc (Group_ID g) o2 w2) = Ok gs /\
    In g' gs /\ Group_ID g' = c.

(** Finite and acyclic: no infinite chain of subgroups below any group. *)
Definition acyclic {W R T : Type} (svc : Services W R T) : Prop :=
  well_founded (subgroup_of svc).

(** ** A reference behaviour of the two collaborators

    The GitLab API and go-git are libraries outside this repository.  The
    [Mirror] services give them the behaviour that the design document
    asks of a directory service and of a version-control backend. *)

Module Mirror.

(** Modelled from the spec: the local repository state that go-git
    keeps on disk.  A working copy is the remote it was cloned from, the
    remote state it was last brought to, and the bytes of its working
    tree now.  Local divergence is [tree] differing from [base]. *)
Record LocalRepo : Type := {
  origin : string;
  base : string;
  tree : string
}.

(** Modelled from the spec: the world outside the program, that is the
    working copies by path and the current state of every remote
    repository by clone URL. *)
Record World : Type := {
  disk : gmap string LocalRepo;
  upstream : gmap string string
}.

(** Modelled from the spec: the remote hierarchy that the GitLab server
    holds, that is groups by identifier, the direct projects and the
    direct subgroups of a group in name order, projects by identifier.
    A missing entry is a lookup that fails. *)
Record Directory : Type := {
  dir_groups : gmap Z gitlab_Group;
  dir_group_projects : gmap Z (list gitlab_Project);
  dir_subgroups : gmap Z (list gitlab_Group);
  dir_projects : gmap Z gitlab_Project
}.

(** Modelled from the spec: the pagination of the directory service's
    listings (the GitLab server is not part of the repository).  A
    request gets the page it names, the first one when it names none,
    cut at the page size it asks for. *)
Definition page {A : Type} (opt : ListOptions) (l : list A) : list A :=
  let per := Z.to_nat (PerPage opt) in
  let skipped := (Z.to_nat (Z.max (Page opt) 1) - 1) * per in
  firstn per (skipn skipped l).

Definition notFound {A : Type} (what : string) : result A :=
  Err (ErrOther ("404 " +:+ what +:+ " Not Found")).

(** Modelled from the spec: fetch-group-by-id of the directory service. *)
Definition getGroup (d : Directory) (gid : Z) (opt : ListOptions) (w : World)
    : result gitlab_Group * World :=
  match dir_groups d !! gid with
  | Some g => (Ok g, w)
  | None => (notFound "Group", w)
  end.

(** Modelled from the spec: list-direct-projects-of-group of the
    directory service. *)
Definition listGroupProjects (d : Directory) (gid : Z) (opt : ListOptions)
    (w : World) : result (list gitlab_Project) * World :=
  match dir_group_projects d !! gid with
  | Some l => (Ok (page opt l), w)
  | None => (notFound "Group", w)
  end.

(** Modelled from the spec: list-direct-subgroups-of-group of the
    directory service. *)
Definition listSubGroups (d : Directory) (gid : Z) (opt : ListOptions)
    (w : World) : result (list gitlab_Group) * World :=
  match dir_subgroups d !! gid with
  | Some l => (Ok (page opt l), w)
  | None => (notFound "Group", w)
  end.

(** Modelled from the spec: fetch-project-by-id of the directory service. *)
Definition getProject (d : Directory) (pid : Z) (w : World)
    : result gitlab_Project * World :=
  match dir_projects d !! pid with
  | Some p => (Ok p, w)
  | None => (notFound "Project", w)
  end.

(** Modelled from the spec: clone of the version-control backend
    (go-git's PlainClone).  A destination that holds a repository is
    reported as already existing; otherwise the clone is a copy of the
    remote's current state, and fails when the remote has no such
    repository. *)
Definition plainClone (path : string) (isBare : bool) (o : CloneOptions)
    (w : World) : option error * World :=
  match disk w !! path with
  | Some _ => (Some ErrRepositoryAlreadyExists, w)
  | None =>
      match upstream w !! URL o with
      | None => (Some (ErrOther "repository not found"), w)
      | Some t =>
          (None,
           {| disk := <[path := {| origin := URL o; base := t; tree := t |}]> (disk w);
              upstream := upstream w |})
      end
  end.

(** Modelled from the spec: opening an existing repository (go-git's
    PlainOpen); the handle is the path. *)
Definition plainOpen (path : string) (w : World) : result string * World :=
  match disk w !! path with
  | Some _ => (Ok path, w)
  | None => (Err (ErrOther "repository does not exist"), w)
  end.

(** Modelled from the spec: the working tree of an opened repository. *)
Definition worktree (repo : string) (w : World) : result string * World :=
  (Ok repo, w).

(** Modelled from the spec: update of the version-control backend
    (go-git's Pull).  Nothing new is reported as already up to date and
    changes nothing.  Otherwise the working copy is brought to the
    remote state; without the force flag that is refused when the
    working copy has diverged from the state it was last brought to. *)
Definition pull (work : string) (o : PullOptions) (w : World)
    : option error * World :=
  match disk w !! work with
  | None => (Some (ErrOther "repository does not exist"), w)
  | Some r =>
      if negb (String.eqb (RemoteName o) "origin")
      then (Some (ErrOther "remote not found"), w)
      else
        match upstream w !! origin r with
        | None => (Some (ErrOther "repository not found"), w)
        | Some t =>
            if String.eqb (tree r) t then (Some NoErrAlreadyUpToDate, w)
            else if Force o || String.eqb (tree r) (base r)
            then (None,
                  {| disk := <[work := {| origin := origin r; base := t; tree := t |}]>
                               (disk w);
                     upstream := upstream w |})
            else (Some (ErrOther "non-fast-forward update"), w)
        end
  end.

Definition services (d : Directory) : Services World string string :=
  {| GetGroup := getGroup d;
     ListGroupProjects := listGroupProjects d;
     ListSubGroups := listSubGroups d;
     GetProject := getProject d;
     PlainClone := plainClone;
     PlainOpen := plainOpen;
     Worktree := worktree;
     Pull := pull;
     NewClient := fun _ _ w => (None, w);
     CurrentUser := fun w => (None, w);
     NewSSHAgentAuth := fun user w => (Ok (SSHAgentAuth user), w);
     Abs := fun w => (Ok "/usr/local/bin", w);
     FlagParse := fun defaults w => (Ok defaults, w) |}.

(** The bytes of the working tree at [path], if a working copy is there. *)
Definition treeAt (w : World) (path : string) : option string :=
  tree <$> disk w !! path.

(** The state of the remote that the working copy at [path] mirrors. *)
Definition remoteOf (w : World) (path : string) : option string :=
  r ← disk w !! path; upstream w !! origin r.

(** [c] is among the direct subgroups of the group registered under [p]. *)
Definition edge (d : Directory) (c p : Z) : Prop :=
  exists g gs g',
    dir_groups d !! p = Some g /\
    dir_subgroups d !! Group_ID g = Some gs /\
    In g' gs /\ Group_ID g' = c.

(** The directory, finite as it is, has no cycle: no group is below
    itself. *)
Definition noCycle (d : Directory) : Prop :=
  forall x, ~ tc (edge d) x x.

(** [rank] goes down from every group of the directory to each of its
    direct subgroups: a certificate that the directory has no cycle. *)
Definition ranked (d : Directory) (rank : Z -> nat) : bool :=
  forallb
    (fun '((p, g) : Z * gitlab_Group) =>
       match dir_subgroups d !! Group_ID g with
       | Some gs => forallb (fun g' => Nat.ltb (rank (Group_ID g')) (rank p)) gs
       | None => true
       end)
    (map_to_list (dir_groups d)).

End Mirror.

(** ** Scenarios *)

Module Scenario.
Import Mirror.

Definition sshURL (fullPath : string) : string :=
  "git@gitlab.com:" +:+ fullPath +:+ ".git".

Definition mkProject (id : Z) (namespace name : string) : gitlab_Project :=
  {| Project_ID := id;
     Project_Path := name;
     Project_SSHURLToRepo := sshURL (namespace +:+ "/" +:+ name) |}.

Definition alpha : gitlab_Project := mkProject 1 "grp" "alpha".
Definition beta : gitlab_Project := mkProject 2 "grp/sub" "beta".
Definition secret : gitlab_Project := mkProject 5 "grp" "secret".
Definition gamma : gitlab_Project := mkProject 3 "grp/other" "gamma".
Definition gone : gitlab_Project := mkProject 4 "grp" "gone".

Definition grp : gitlab_Group := {| Group_ID := 10; Group_FullPath := "grp" |}.
Definition sub : gitlab_Group := {| Group_ID := 11; Group_FullPath := "grp/sub" |}.
Definition other : gitlab_Group := {| Group_ID := 12; Group_FullPath := "grp/other" |}.

Definition cloner (ignoredProjects ignoredGroups : list Z) : RepoCloner :=
  {| destDir := "./repos";
     auth := SSHAgentAuth "git";
     ignoreProjectIDs := ignoredProjects;
     ignoreGroupIDs := ignoredGroups;
     progress := Discard |}.

(** Every project of the scenarios but [gone] exists upstream. *)
Definition remotes : gmap string string :=
  list_to_map [ (Project_SSHURLToRepo alpha, "alpha v1");
                (Project_SSHURLToRepo beta, "beta v1");
                (Project_SSHURLToRepo secret, "secret v1");
                (Project_SSHURLToRepo gamma, "gamma v1") ].

Definition emptyDisk : World := {| disk := ∅; upstream := remotes |}.

(** Group 10 owns [alpha] and the subgroup 11, which owns [beta]. *)
Definition nested : Directory :=
  {| dir_groups := list_to_map [(10%Z, grp); (11%Z, sub)];
     dir_group_projects := list_to_map [(10%Z, [alpha]); (11%Z, [beta])];
     dir_subgroups := list_to_map [(10%Z, [sub]); (11%Z, [])];
     dir_projects := list_to_map [(1%Z, alpha); (2%Z, beta)] |}.

(** Group 10 lists project 5 among its direct projects. *)
Definition withSecret : Directory :=
  {| dir_groups := list_to_map [(10%Z, grp)];
     dir_group_projects := list_to_map [(10%Z, [alpha; secret])];
     dir_subgroups := list_to_map [(10%Z, [])];
     dir_projects := list_to_map [(1%Z, alpha); (5%Z, secret)] |}.

(** Group 10 has the subgroups 11 and 12; the metadata of 11 cannot be
    fetched; [gone], listed before [alpha], cannot be cloned. *)
Definition brokenSibling : Directory :=
  {| dir_groups := list_to_map [(10%Z, grp); (12%Z, other)];
     dir_group_projects := list_to_map [(10%Z, [gone; alpha]); (12%Z, [gamma])];
     dir_subgroups := list_to_map [(10%Z, [sub; other]); (12%Z, [])];
     dir_projects := list_to_map [(1%Z, alpha); (3%Z, gamma); (4%Z, gone)] |}.

(** The project listing of group 10 fails; its subgroup listing would not. *)
Definition brokenListing : Directory :=
  {| dir_groups := list_to_map [(10%Z, grp); (11%Z, sub)];
     dir_group_projects := list_to_map [(11%Z, [beta])];
     dir_subgroups := list_to_map [(10%Z, [sub]); (11%Z, [])];
     dir_projects := list_to_map [(2%Z, beta)] |}.

(** Group 10 is listed among its own subgroups. *)
Definition cyclic : Directory :=
  {| dir_groups := list_to_map [(10%Z, grp)];
     dir_group_projects := list_to_map [(10%Z, [])];
     dir_subgroups := list_to_map [(10%Z, [grp])];
     dir_projects := ∅ |}.

(** A working copy of [alpha] with local edits, while upstream moved on. *)
Definition diverged : World :=
  {| disk := {[ "repos/grp/alpha" :=
                  {| origin := Project_SSHURLToRepo alpha;
                     base := "alpha v0";
                     tree := "alpha v0 with local edits" |} ]};
     upstream := remotes |}.

(** A working copy of [alpha] in the state of its remote. *)
Definition upToDate : World :=
  {| disk := {[ "repos/grp/alpha" :=
                  {| origin := Project_SSHURLToRepo alpha;
                     base := "alpha v1";
                     tree := "alpha v1" |} ]};
     upstream := remotes |}.

(** The depth of the subtree below a group of [nested]. *)
Definition depth (gid : Z) : nat := if Z.eqb gid 10 then 1 else 0.

(** A group with 1001 direct projects. *)
Definition numbered (i : nat) : gitlab_Project :=
  mkProject (Z.of_nat i) "big" ("p" +:+ pretty i).

Definition crowd : list gitlab_Project := map numbered (seq 0 1001).

Definition big : gitlab_Group := {| Group_ID := 20; Group_FullPath := "big" |}.

(** Nothing is on the disk and every project of [crowd] is upstream. *)
Definition crowdUpstream : World :=
  {| disk := ∅;
     upstream := list_to_map (map (fun p => (Project_SSHURLToRepo p, "v1")) crowd) |}.

Definition crowded : Directory :=
  {| dir_groups := list_to_map [(20%Z, big)];
     dir_group_projects := list_to_map [(20%Z, crowd)];
     dir_subgroups := list_to_map [(20%Z, [])];
     dir_projects := ∅ |}.

End Scenario.

(** ** The protocol of a run

    An automaton over the events of a traversal.  Between two syncs it is
    [Idle]; a sync goes through [Announced], [Cloned], [Opened] and
    [Worked]; a call that failed leaves it in [Failed] until the error
    is logged. *)

Inductive Phase : Type :=
| Idle
| Announced (subPath : string)
| Cloned (path : string)
| Opened (path : string)
| Worked (path : string)
| Failed (e : error).

Definition attrValue_eqb (a b : AttrValue) : bool :=
  match a, b with
  | IntValue m, IntValue n => Z.eqb m n
  | StringValue s, StringValue t => String.eqb s t
  | _, _ => false
  end.

(** The last attribute of a log line is the message of [e]. *)
Definition endsWithError (attrs : Attrs) (e : error) : bool :=
  match List.last (map Some attrs) None with
  | Some (key, value) =>
      String.eqb key "error" && attrValue_eqb value (StringValue (Error e))
  | None => false
  end.

Definition afterCall (err : option error) (next : Phase) : Phase :=
  match err with
  | Some e => Failed e
  | None => next
  end.

Definition step (rc : RepoCloner) (ph : Phase) (e : Event) : option Phase :=
  match ph, e with
  | Idle, EvLog Info attrs msg =>
      if String.eqb msg "get repo"
      then match attrs with
           | [_; (_, StringValue subPath)] => Some (Announced subPath)
           | _ => None
           end
      else Some Idle
  | Idle, EvLog Warn _ _ => Some Idle
  | Idle, EvGetGroup _ _ r => Some (afterCall (errOf r) Idle)
  | Idle, EvListGroupProjects _ _ r => Some (afterCall (errOf r) Idle)
  | Idle, EvListSubGroups _ _ r => Some (afterCall (errOf r) Idle)
  | Idle, EvGetProject _ r => Some (afterCall (errOf r) Idle)
  | Announced subPath, EvPlainClone path isBare _ err =>
      if String.eqb path (Join [destDir rc; subPath]) && negb isBare
      then Some (afterCall (failure err ErrRepositoryAlreadyExists) (Cloned path))
      else None
  | Cloned p, EvPlainOpen path err =>
      if String.eqb path p then Some (afterCall err (Opened p)) else None
  | Opened p, EvWorktree path err =>
      if String.eqb path p then Some (afterCall err (Worked p)) else None
  | Worked p, EvPull path o err =>
      if String.eqb path p && Force o && String.eqb (RemoteName o) "origin"
      then Some (afterCall (failure err NoErrAlreadyUpToDate) Idle)
      else None
  | Failed e, EvLog Error_ attrs _ =>
      if endsWithError attrs e then Some Idle else None
  | _, _ => None
  end.

Fixpoint runFrom (rc : RepoCloner) (ph : Phase) (tr : Trace) : option Phase :=
  match tr with
  | [] => Some ph
  | e :: rest =>
      match step rc ph e with
      | Some ph' => runFrom rc ph' rest
      | None => None
      end
  end.

Definition isSome {A : Type} (o : option A) : bool :=
  match o with
  | Some _ => true
  | None => false
  end.

(** The error of a call of a service, as the program judges failure:
    the two benign answers of the backend are none. *)
Definition callError (e : Event) : option error :=
  match e with
  | EvGetGroup _ _ r => errOf r
  | EvListGroupProjects _ _ r => errOf r
  | EvListSubGroups _ _ r => errOf r
  | EvGetProject _ r => errOf r
  | EvPlainClone _ _ _ err => failure err ErrRepositoryAlreadyExists
  | EvPlainOpen _ err => err
  | EvWorktree _ err => err
  | EvPull _ _ err => failure err NoErrAlreadyUpToDate
  | _ => None
  end.

Definition failedCall (e : Event) : bool := isSome (callError e).

Definition pending (ph : Phase) : nat :=
  match ph with
  | Failed _ => 1
  | _ => 0
  end.

(** ** Counting over a trace *)








(** ** Startup *)

(** The answer of a startup call, when the event is one. *)
Definition startupError (e : Event) : option (option error) :=
  match e with
  | EvAbs res => Some (errOf res)
  | EvFlagParse res => Some (errOf res)
  | EvNewClient _ _ err => Some err
  | EvCurrentUser err => Some err
  | EvNewSSHAgentAuth _ err => Some err
  | _ => None
  end.

(** The place of a startup call in the order in which [main] makes
    them. *)
Definition startupStep (e : Event) : nat :=
  match e with
  | EvAbs _ => 1
  | EvFlagParse _ => 2
  | EvNewClient _ _ _ => 3
  | EvCurrentUser _ => 4
  | EvNewSSHAgentAuth _ _ => 5
  | _ => 0
  end.

(** The message under which [main] logs the failure of a startup call. *)
Definition startupMessage (call : Event) : string :=
  match call with
  | EvAbs _ => "directory error"
  | EvFlagParse _ => "flag error"
  | EvNewClient _ _ _ => "client error"
  | EvCurrentUser _ => "current user error"
  | EvNewSSHAgentAuth _ _ => "auth error"
  | _ => ""
  end.

(** The flags were not parsed because help was asked for. *)
Definition helpAsked (call : Event) (e : error) : bool :=
  match call with
  | EvFlagParse _ => errors_Is ErrHelp e
  | _ => false
  end.

(** What [main] records after the startup call [call] failed with [e]:
    the error line, but none when help was asked for, and the exit. *)
Definition leave (call : Event) (e : error) : Trace :=
  (if helpAsked call e then []
   else [EvLog Error_ (errorAttr e) (startupMessage call)])
  ++ [EvExit 1].

(** Where the project of a sync comes from: it is a root project that
    was fetched, synced with the empty prefix, or a project that the
    listing of a fetched group answered, synced with the group's full
    path as prefix. *)
Definition sourceOf (tr : Trace) (dest : string) (project : gitlab_Project) : Prop :=
  (dest = "" /\ exists pid, In (EvGetProject pid (Ok project)) tr) \/
  (exists id group projects,
      In (EvGetGroup id listOptions (Ok group)) tr /\
      In (EvListGroupProjects (Group_ID group) listOptions (Ok projects)) tr /\
      In project projects /\ dest = Group_FullPath group).

(** A clone is the clone of a project with a source in the trace, into
    its destination and with its options. *)
Definition placed (rc : RepoCloner) (e : Event) (tr : Trace) : Prop :=
  match e with
  | EvPlainClone path _ o _ =>
      exists dest project,
        sourceOf tr dest project /\
        path = destination rc dest project /\ o = cloneOptions rc project
  | _ => True
  end.

(** The cloner that [main] builds from the flags and the agent's
    authentication. *)
Definition clonerOf (flags : Flags) (a : AuthMethod) : RepoCloner :=
  {| destDir := flag_dest_dir flags;
     auth := a;
     ignoreProjectIDs := flag_ignore_project_ids flags;
     ignoreGroupIDs := flag_ignore_group_ids flags;
     progress := if flag_progress flags then Stdout else Discard |}.

(** ** Path components *)

Fixpoint noSlash (s : string) : bool :=
  match s with
  | EmptyString => true
  | String c s' => negb (Ascii.eqb c slash) && noSlash s'
  end.

(** A name: a component that [Clean] keeps as it is. *)
Definition plain (c : string) : bool :=
  noSlash c && negb (String.eqb c "") && negb (String.eqb c ".")
  && negb (String.eqb c "..").

(** ** The shape of a cleaned path *)

(** The names of a path: its components but the empty ones, [.] and
    [..]. *)
Definition names (p : string) : list string := List.filter plain (components p).

(** No component of the path is [..]. *)
Definition noParent (p : string) : bool :=
  forallb (fun c => negb (String.eqb c "..")) (components p).

(** Names joined by single slashes, below the root when [rooted]; [.]
    when there is nothing to join. *)
Definition layout (rooted : bool) (ns : list string) : string :=
  if rooted then String slash (String.concat "/" ns)
  else match ns with
       | [] => "."
       | _ => String.concat "/" ns
       end.


(** ** Who a call is about

    What the program holds when it makes a call: the group it is
    visiting and the project it is syncing.  Both are read off the
    events before the call. *)

Record Context : Type := {
  (** the identifier asked for and the group answered by the last
      successful fetch of a group *)
  lastGroup : option (Z * gitlab_Group);
  (** the projects, each with its prefix, that were listed or fetched
      and whose sync is not announced yet *)
  queue : list (string * gitlab_Project);
  (** the prefix and the project of the last [get repo] line *)
  syncOf : option (string * gitlab_Project)
}.

Definition noContext : Context :=
  {| lastGroup := None; queue := []; syncOf := None |}.

Definition advance (ctx : Context) (e : Event) : Context :=
  match e with
  | EvGetGroup gid _ (Ok group) =>
      {| lastGroup := Some (gid, group); queue := queue ctx; syncOf := syncOf ctx |}
  | EvListGroupProjects _ _ (Ok projects) =>
      match lastGroup ctx with
      | Some (_, group) =>
          {| lastGroup := lastGroup ctx;
             queue := map (pair (Group_FullPath group)) projects;
             syncOf := syncOf ctx |}
      | None => ctx
      end
  | EvGetProject _ (Ok project) =>
      {| lastGroup := lastGroup ctx; queue := [("", project)]; syncOf := syncOf ctx |}
  | EvLog Info _ msg =>
      if String.eqb msg "get repo"
      then {| lastGroup := lastGroup ctx;
              queue := tl (queue ctx);
              syncOf := hd_error (queue ctx) |}
      else ctx
  | _ => ctx
  end.

Definition contextAfter (pre : Trace) : Context := fold_left advance pre noContext.

(** The attributes of the logger of the step that makes [call]: the
    group asked for; the group asked for and the full path it was
    fetched with, for a listing of that group; the root project asked
    for; the project being synced and its path below the destination
    root, for a call of the backend on its destination.  [None] when
    the call is not about the group or the project at hand. *)
Definition subjectOf (rc : RepoCloner) (ctx : Context) (call : Event) : option Attrs :=
  match call with
  | EvGetGroup gid _ _ => Some (groupLog gid)
  | EvGetProject pid _ => Some [("project_id", IntValue pid)]
  | EvListGroupProjects id _ _ | EvListSubGroups id _ _ =>
      match lastGroup ctx with
      | Some (gid, group) =>
          if Z.eqb id (Group_ID group)
          then Some (groupLog gid ++ [("group", StringValue (Group_FullPath group))])
          else None
      | None => None
      end
  | EvPlainClone path _ _ _ | EvPlainOpen path _ | EvWorktree path _ | EvPull path _ _ =>
      match syncOf ctx with
      | Some (dest, project) =>
          if String.eqb path (destination rc dest project)
          then Some (projectLog dest project)
          else None
      | None => None
      end
  | _ => None
  end.

(** The message under which the failure of a call is logged. *)
Definition stepMessage (call : Event) : string :=
  match call with
  | EvGetGroup _ _ _ => "get group error"
  | EvListGroupProjects _ _ _ => "list projects error"
  | EvListSubGroups _ _ _ => "list subgroups error"
  | EvGetProject _ _ => "get project error"
  | EvPlainClone _ _ _ _ => "clone repo error"
  | EvPlainOpen _ _ => "open repo error"
  | EvWorktree _ _ => "worktree repo error"
  | EvPull _ _ _ => "pull repo error"
  | _ => ""
  end.

(** What holds at a call made in the context [ctx] and followed by
    [post]: the call is about the group or project at hand, and when it
    failed the next event is the error line of its step, with the
    attributes of its subject and then the error. *)
Definition accounted (rc : RepoCloner) (ctx : Context) (call : Event) (post : Trace)
    : Prop :=
  (isDirectoryCall call || isGitCall call)%bool = true ->
  exists log,
    subjectOf rc ctx call = Some log /\
    forall err, callError call = Some err ->
      exists post',
        post = EvLog Error_ (log ++ errorAttr err) (stepMessage call) :: post'.

(** Every call of the trace, made after [ctx], is accounted for. *)
Fixpoint audited (rc : RepoCloner) (ctx : Context) (tr : Trace) : Prop :=
  match tr with
  | [] => True
  | e :: rest => accounted rc ctx e rest /\ audited rc (advance ctx e) rest
  end.

(** ** Hierarchies that trap the traversal *)

(** A set of groups, none of them excluded, each of which the directory
    service always fetches and lists, with a subgroup in the set: below
    any of them there is a cycle or an endless chain. *)
Definition trap {W R T : Type} (svc : Services W R T) (rc : RepoCloner)
    (inside : Z -> Prop) : Prop :=
  forall gid, inside gid ->
    slices_Contains (ignoreGroupIDs rc) gid = false /\
    forall w, exists g,
      fst (GetGroup svc gid listOptions w) = Ok g /\
      forall w1, exists projects,
        fst (ListGroupProjects svc (Group_ID g) listOptions w1) = Ok projects /\
        forall w3, exists groups g',
          fst (ListSubGroups svc (Group_ID g) listOptions w3) = Ok groups /\
          In g' groups /\ inside (Group_ID g').

(** ** Runs of [main] *)

Module Setup.
Import Mirror Scenario.

(** A command line: the group 10 and the projects 4 and 1 as roots,
    project 5 excluded, progress on. *)
Definition flags : Flags :=
  {| flag_dest_dir := "./repos";
     flag_ignore_project_ids := [5%Z];
     flag_ignore_group_ids := [];
     flag_gitlab_host := "https://gitlab.com";
     flag_gitlab_token := "token";
     flag_group_ids := [10%Z];
     flag_project_ids := [4%Z; 1%Z];
     flag_progress := true |}.

(** The services [svc] when the parsing of the command line answers
    [given]. *)
Definition withCommandLine (given : result Flags)
    (svc : Services World string string) : Services World string string :=
  {| GetGroup := GetGroup svc;
     ListGroupProjects := ListGroupProjects svc;
     ListSubGroups := ListSubGroups svc;
     GetProject := GetProject svc;
     PlainClone := PlainClone svc;
     PlainOpen := PlainOpen svc;
     Worktree := Worktree svc;
     Pull := Pull svc;
     NewClient := NewClient svc;
     CurrentUser := CurrentUser svc;
     NewSSHAgentAuth := NewSSHAgentAuth svc;
     Abs := Abs svc;
     FlagParse := fun _ w => (given, w) |}.

(** The services [svc] on a machine where no SSH agent runs. *)
Definition noAgent (svc : Services World string string)
    : Services World string string :=
  {| GetGroup := GetGroup svc;
     ListGroupProjects := ListGroupProjects svc;
     ListSubGroups := ListSubGroups svc;
     GetProject := GetProject svc;
     PlainClone := PlainClone svc;
     PlainOpen := PlainOpen svc;
     Worktree := Worktree svc;
     Pull := Pull svc;
     NewClient := NewClient svc;
     CurrentUser := CurrentUser svc;
     NewSSHAgentAuth := fun _ w => (Err (ErrOther "SSH agent not found"), w);
     Abs := Abs svc;
     FlagParse := FlagParse svc |}.

(** A project whose path segment leads out of the directory it is put
    in. *)
Definition stray : gitlab_Project :=
  {| Project_ID := 8;
     Project_Path := "../elsewhere/x";
     Project_SSHURLToRepo := sshURL "grp/x" |}.



(** No event of the trace is an exit. *)
Definition noExit (tr : Trace) : bool :=
  forallb (fun e => match e with EvExit _ => false | _ => true end) tr.

End Setup.

(** ** Tactics *)

(** Settles a [Forall] over an explicit trace whose events are calls of
    the backend or log lines. *)
Ltac each_event :=
  repeat (constructor; [first [left; reflexivity | right; eauto] |]);
  constructor.

(** Settles the inclusion of a piece of a trace in the whole. *)
Ltac solve_incl :=
  repeat first [ apply incl_refl
               | apply incl_tl
               | apply incl_appl; apply incl_refl
               | apply incl_appr ].

(** Settles the membership of an event in an explicit trace. *)
Ltac in_trace := repeat first [left; reflexivity | right].

(** Runs the protocol automaton over the explicit head of a trace. *)
Ltac protocol_steps :=
  repeat (progress (cbn [afterCall runFrom step andb negb errOf];
                    rewrite ?String.eqb_refl)).

Ltac protocol_done :=
  protocol_steps; unfold endsWithError, errorAttr; cbn;
  rewrite ?String.eqb_refl; reflexivity.

(** Case analysis on a step of the protocol automaton. *)
Ltac step_cases H :=
  repeat match type of H with
         | context [match ?x with _ => _ end] =>
             destruct x eqn:?; try discriminate H
         | context [if ?x then _ else _] =>
             destruct x eqn:?; try discriminate H
         end.

Ltac eqb_facts :=
  repeat match goal with
         | E : (_ && _)%bool = true |- _ =>
             apply andb_true_iff in E; destruct E
         | E : negb _ = true |- _ => apply negb_true_iff in E
         | E : String.eqb _ _ = true |- _ => apply String.eqb_eq in E
         end.

Ltac step_inv H :=
  cbn [step] in H; try discriminate H; step_cases H;
  unfold afterCall in H; step_cases H; try discriminate H;
  injection H as H; try discriminate H; eqb_facts; subst.

(** Settles [knownLog] over an explicit trace. *)
Ltac known_logs :=
  repeat (constructor; [cbn; first [exact I | in_trace] |]);
  constructor.

(** * Properties *)

(** ** The monad *)

Lemma bindD_Some {W A B : Type} (m : Div W A) (k : A -> Div W B) w b tr w' :
  bindD m k w = Some (b, tr, w') ->
  exists a t1 w1 t2,
    m w = Some (a, t1, w1) /\ k a w1 = Some (b, t2, w') /\ tr = t1 ++ t2.
Proof.
  unfold bindD. destruct (m w) as [[[a t1] w1]|]; [|discriminate].
  destruct (k a w1) as [[[b' t2] w2]|] eqn:Hk; [|discriminate].
  intros [= <- <- <-]. exists a, t1, w1, t2. rewrite Hk. auto.
Qed.

Lemma forEachD_cons {W A : Type} (f : A -> Div W unit) x l w :
  forEachD f (x :: l) w =
  match f x w with
  | None => None
  | Some (_, t1, w1) =>
      match forEachD f l w1 with
      | None => None
      | Some (_, t2, w2) => Some (tt, t1 ++ t2, w2)
      end
  end.
Proof.
  cbn [forEachD]. unfold bindD.
  destruct (f x w) as [[[[] t1] w1]|]; [|reflexivity].
  destruct (forEachD f l w1) as [[[[] t2] w2]|]; reflexivity.
Qed.

Lemma forEach_cons {W A : Type} (f : A -> Eff W unit) x l w :
  forEach f (x :: l) w =
  let '(_, t1, w1) := f x w in
  let '(_, t2, w2) := forEach f l w1 in
  (tt, t1 ++ t2, w2).
Proof.
  cbn [forEach]. unfold bind.
  destruct (f x w) as [[[] t1] w1].
  destruct (forEach f l w1) as [[[] t2] w2]. reflexivity.
Qed.

(** ** [gitClone] and [Group], step by step *)

Section Steps.
Context {W R T : Type}.
Variable svc : Services W R T.
Variable rc : RepoCloner.

(** [gitClone] written out: the calls it makes, in order, and where it
    stops. *)
Lemma gitClone_eq project dest w :
  gitClone svc rc project dest w =
  let path := destination rc dest project in
  let log := projectLog dest project in
  let start := EvLog Info log "get repo" in
  let '(ce, w1) := PlainClone svc path false (cloneOptions rc project) w in
  let cloned := EvPlainClone path false (cloneOptions rc project) ce in
  match failure ce ErrRepositoryAlreadyExists with
  | Some e => (tt, [start; cloned] ++ errorLine log "clone repo error" (Some e), w1)
  | None =>
      let '(ro, w2) := PlainOpen svc path w1 in
      match ro with
      | Err e =>
          (tt, [start; cloned; EvPlainOpen path (Some e)]
                 ++ errorLine log "open repo error" (Some e), w2)
      | Ok repo =>
          let '(rw, w3) := Worktree svc repo w2 in
          match rw with
          | Err e =>
              (tt, [start; cloned; EvPlainOpen path None; EvWorktree path (Some e)]
                     ++ errorLine log "worktree repo error" (Some e), w3)
          | Ok work =>
              let '(pe, w4) := Pull svc work (pullOptions rc) w3 in
              (tt, [start; cloned; EvPlainOpen path None; EvWorktree path None;
                    EvPull path (pullOptions rc) pe]
                     ++ errorLine log "pull repo error" (failure pe NoErrAlreadyUpToDate),
               w4)
          end
      end
  end.
Proof.
  unfold gitClone, bind, slog, git_PlainClone, git_PlainOpen, repo_Worktree,
    work_Pull, ret, destination, projectLog, cloneOptions, pullOptions, errorLine,
    errorAttr.
  cbn zeta.
  destruct (PlainClone svc _ false _ w) as [ce w1].
  destruct (failure ce ErrRepositoryAlreadyExists) as [e|]; [reflexivity|].
  destruct (PlainOpen svc _ w1) as [[repo|e] w2]; [|reflexivity].
  destruct (Worktree svc repo w2) as [[work|e] w3]; [|reflexivity].
  destruct (Pull svc work _ w3) as [pe w4].
  destruct (failure pe NoErrAlreadyUpToDate); reflexivity.
Qed.

(** One visit of [Group] written out. *)
Lemma Group_eq fuel groupID w :
  Group svc rc (S fuel) groupID w =
  let log := groupLog groupID in
  if slices_Contains (ignoreGroupIDs rc) groupID
  then Some (tt, [EvLog Warn log "ignore group"], w)
  else
    let '(rg, w1) := GetGroup svc groupID listOptions w in
    let fetched := EvGetGroup groupID listOptions rg in
    match rg with
    | Err e => Some (tt, fetched :: errorLine log "get group error" (Some e), w1)
    | Ok group =>
        let log := log ++ [("group", StringValue (Group_FullPath group))] in
        let '(rp, w2) := ListGroupProjects svc (Group_ID group) listOptions w1 in
        let pre := [fetched; EvLog Info log "get group repos";
                    EvListGroupProjects (Group_ID group) listOptions rp] in
        match rp with
        | Err e => Some (tt, pre ++ errorLine log "list projects error" (Some e), w2)
        | Ok projects =>
            let '(_, tp, w3) :=
              forEach (fun project => gitClone svc rc project (Group_FullPath group))
                projects w2 in
            let '(rs, w4) := ListSubGroups svc (Group_ID group) listOptions w3 in
            let listed := EvListSubGroups (Group_ID group) listOptions rs in
            match rs with
            | Err e =>
                Some (tt, pre ++ tp ++ listed
                            :: errorLine log "list subgroups error" (Some e), w4)
            | Ok groups =>
                match forEachD (fun g => Group svc rc fuel (Group_ID g)) groups w4 with
                | None => None
                | Some (_, ts, w5) => Some (tt, pre ++ tp ++ listed :: ts, w5)
                end
            end
        end
    end.
Proof.
  cbn [Group]. unfold groupLog, errorLine, errorAttr. cbn zeta.
  destruct (slices_Contains (ignoreGroupIDs rc) groupID); [reflexivity|].
  unfold bindD, lift, bind, slog, client_Groups_GetGroup,
    client_Groups_ListGroupProjects, client_Groups_ListSubGroups.
  destruct (GetGroup svc groupID listOptions w) as [[group|e] w1]; [|reflexivity].
  destruct (ListGroupProjects svc (Group_ID group) listOptions w1)
    as [[projects|e] w2]; [|reflexivity].
  destruct (forEach _ projects w2) as [[[] tp] w3].
  destruct (ListSubGroups svc (Group_ID group) listOptions w3)
    as [[groups|e] w4].
  - destruct (forEachD _ groups w4) as [[[[] ts] w5]|]; [|reflexivity].
    cbn. rewrite <- ?app_assoc. reflexivity.
  - cbn. rewrite <- ?app_assoc. reflexivity.
Qed.

End Steps.

(** ** The sync of one repository *)

Section Sync.
Context {W R T : Type}.
Variable svc : Services W R T.
Variable rc : RepoCloner.

(** [gitClone] records nothing but its own log lines and calls of the
    version-control backend. *)
Lemma gitClone_events project dest w :
  Forall (fun e => isGitCall e = true \/ exists lvl a m, e = EvLog lvl a m)
    (snd (fst (gitClone svc rc project dest w))).
Proof.
  rewrite gitClone_eq. cbn zeta.
  destruct (PlainClone svc _ false _ w) as [ce w1].
  destruct (failure ce ErrRepositoryAlreadyExists) as [e|].
  { cbn. each_event. }
  destruct (PlainOpen svc _ w1) as [[repo|e] w2].
  2:{ cbn. each_event. }
  destruct (Worktree svc repo w2) as [[work|e] w3].
  2:{ cbn. each_event. }
  destruct (Pull svc work _ w3) as [pe w4].
  destruct (failure pe NoErrAlreadyUpToDate); cbn; each_event.
Qed.

(** C3: when the clone fails with an error that is
    [ErrRepositoryAlreadyExists], [gitClone] logs no error and its next
    call opens the repository at the same path; if the repository and
    its worktree open, it goes on to pull.  When the clone fails with
    any other error, [gitClone] logs it and returns: the trace ends
    there, without an open, a worktree or a pull call, in the world the
    clone left. *)
Theorem clone_AlreadyExists_is_not_an_error project dest w e w1 :
  PlainClone svc (destination rc dest project) false (cloneOptions rc project) w
    = (Some e, w1) ->
  (errors_Is e ErrRepositoryAlreadyExists = true ->
   exists ro w2 rest w',
     PlainOpen svc (destination rc dest project) w1 = (ro, w2) /\
     gitClone svc rc project dest w =
       (tt,
        [EvLog Info (projectLog dest project) "get repo";
         EvPlainClone (destination rc dest project) false
           (cloneOptions rc project) (Some e);
         EvPlainOpen (destination rc dest project) (errOf ro)] ++ rest,
        w') /\
     forall repo work w3,
       ro = Ok repo -> Worktree svc repo w2 = (Ok work, w3) ->
       exists pe w4,
         Pull svc work (pullOptions rc) w3 = (pe, w4) /\
         rest = [EvWorktree (destination rc dest project) None;
                 EvPull (destination rc dest project) (pullOptions rc) pe]
                  ++ errorLine (projectLog dest project) "pull repo error"
                       (failure pe NoErrAlreadyUpToDate) /\
         w' = w4)
  /\
  (errors_Is e ErrRepositoryAlreadyExists = false ->
   gitClone svc rc project dest w =
     (tt,
      [EvLog Info (projectLog dest project) "get repo";
       EvPlainClone (destination rc dest project) false
         (cloneOptions rc project) (Some e);
       EvLog Error_ (projectLog dest project ++ errorAttr e) "clone repo error"],
      w1)).
Proof.
  intros Hclone. split; intros His.
  - destruct (PlainOpen svc (destination rc dest project) w1) as [ro w2] eqn:Hopen.
    rewrite gitClone_eq. cbn zeta. rewrite Hclone. cbn [failure]. rewrite His.
    rewrite Hopen. destruct ro as [repo|eo].
    + destruct (Worktree svc repo w2) as [[work|ew] w3] eqn:Hwt.
      * destruct (Pull svc work (pullOptions rc) w3) as [pe w4] eqn:Hpull.
        eexists (Ok repo), w2, _, w4. split; [reflexivity|]. split; [reflexivity|].
        intros repo' work' w3' [= <-] Hwt'. rewrite Hwt in Hwt'.
        injection Hwt' as <- <-. exists pe, w4. rewrite Hpull. auto.
      * eexists (Ok repo), w2, _, w3. split; [reflexivity|]. split; [reflexivity|].
        intros repo' work' w3' [= <-] Hwt'. rewrite Hwt in Hwt'. discriminate.
    + eexists (Err eo), w2, _, w2. split; [reflexivity|]. split; [reflexivity|].
      intros repo work w3 [=].
  - rewrite gitClone_eq. cbn zeta. rewrite Hclone. cbn [failure]. rewrite His.
    reflexivity.
Qed.

(** C4: when [gitClone] reaches the pull and the pull fails with an
    error that is [NoErrAlreadyUpToDate], [gitClone] returns right
    after the pull: nothing is logged as an error and nothing else is
    called.  When the pull fails with any other error, the error is
    logged with the project and its path, and [gitClone] returns. *)
Theorem pull_AlreadyUpToDate_is_not_an_error
    project dest w ce w1 repo w2 work w3 e w4 :
  PlainClone svc (destination rc dest project) false (cloneOptions rc project) w
    = (ce, w1) ->
  failure ce ErrRepositoryAlreadyExists = None ->
  PlainOpen svc (destination rc dest project) w1 = (Ok repo, w2) ->
  Worktree svc repo w2 = (Ok work, w3) ->
  Pull svc work (pullOptions rc) w3 = (Some e, w4) ->
  let reached :=
    [EvLog Info (projectLog dest project) "get repo";
     EvPlainClone (destination rc dest project) false (cloneOptions rc project) ce;
     EvPlainOpen (destination rc dest project) None;
     EvWorktree (destination rc dest project) None;
     EvPull (destination rc dest project) (pullOptions rc) (Some e)] in
  (errors_Is e NoErrAlreadyUpToDate = true ->
   gitClone svc rc project dest w = (tt, reached, w4) /\
   abandoned reached = false)
  /\
  (errors_Is e NoErrAlreadyUpToDate = false ->
   gitClone svc rc project dest w =
     (tt,
      reached ++
      [EvLog Error_ (projectLog dest project ++ errorAttr e) "pull repo error"],
      w4)).
Proof.
  intros Hclone Hbenign Hopen Hwt Hpull reached.
  assert (Heq := gitClone_eq svc rc project dest w). cbn zeta in Heq.
  rewrite Hclone, Hbenign, Hopen, Hwt, Hpull in Heq.
  split; intros His; cbn [failure] in Heq; rewrite His in Heq.
  - split; [exact Heq | reflexivity].
  - exact Heq.
Qed.

End Sync.

(** ** One visit of a group *)

Section Visit.
Context {W R T : Type}.
Variable svc : Services W R T.
Variable rc : RepoCloner.

(** C5: when a group is visited and the listing of its direct projects
    fails, [Group] logs the failure and returns.  The trace of the
    visit is the fetch of the group, the log line, the failed listing
    and the error line: the subgroups are not listed and no subgroup is
    fetched, whatever the recursion depth allowed. *)
Theorem list_projects_failure_skips_subgroups fuel groupID w group w1 e w2 :
  slices_Contains (ignoreGroupIDs rc) groupID = false ->
  GetGroup svc groupID listOptions w = (Ok group, w1) ->
  ListGroupProjects svc (Group_ID group) listOptions w1 = (Err e, w2) ->
  exists tr,
    Group svc rc (S fuel) groupID w = Some (tt, tr, w2) /\
    tr = [EvGetGroup groupID listOptions (Ok group);
          EvLog Info
            (groupLog groupID ++ [("group", StringValue (Group_FullPath group))])
            "get group repos";
          EvListGroupProjects (Group_ID group) listOptions (Err e);
          EvLog Error_
            (groupLog groupID ++ [("group", StringValue (Group_FullPath group))]
               ++ errorAttr e)
            "list projects error"] /\
    (forall id opt r, ~ In (EvListSubGroups id opt r) tr) /\
    (forall id opt r, In (EvGetGroup id opt r) tr -> id = groupID).
Proof.
  intros Hign Hget Hlist. eexists. split; [|split; [reflexivity|]].
  - rewrite Group_eq. cbn zeta. rewrite Hign, Hget, Hlist.
    cbn [errorLine app]. rewrite <- app_assoc. reflexivity.
  - split.
    + intros id opt r Hin. cbn in Hin.
      repeat (destruct Hin as [Hin|Hin]; [discriminate Hin|]). exact Hin.
    + intros id opt r Hin. cbn in Hin.
      destruct Hin as [Hin|Hin]; [injection Hin; auto|].
      repeat (destruct Hin as [Hin|Hin]; [discriminate Hin|]). destruct Hin.
Qed.

End Visit.

(** ** Loops and traces *)

Section Loops.
Context {W A : Type}.

Lemma forEach_Forall (P : Event -> Prop) (f : A -> Eff W unit) l :
  (forall x w, In x l -> Forall P (snd (fst (f x w)))) ->
  forall w, Forall P (snd (fst (forEach f l w))).
Proof.
  induction l as [|x l IH]; intros Hf w.
  - constructor.
  - rewrite forEach_cons.
    assert (Hx := Hf x w (or_introl eq_refl)).
    destruct (f x w) as [[[] t1] w1].
    assert (Hl := IH (fun y w' Hy => Hf y w' (or_intror Hy)) w1).
    destruct (forEach f l w1) as [[[] t2] w2].
    cbn in *. apply Forall_app. auto.
Qed.

Lemma forEachD_Forall (P : Event -> Prop) (f : A -> Div W unit) l :
  (forall x w tr w', In x l -> f x w = Some (tt, tr, w') -> Forall P tr) ->
  forall w tr w', forEachD f l w = Some (tt, tr, w') -> Forall P tr.
Proof.
  induction l as [|x l IH]; intros Hf w tr w'.
  - intros [= <- <-]. constructor.
  - rewrite forEachD_cons.
    destruct (f x w) as [[[[] t1] w1]|] eqn:Hx; [|discriminate].
    destruct (forEachD f l w1) as [[[[] t2] w2]|] eqn:Hl; [|discriminate].
    intros [= <- <-]. apply Forall_app. split.
    + eapply Hf; [left; reflexivity | exact Hx].
    + eapply IH; [|exact Hl]. intros y w0 tr0 w0' Hy. apply Hf. right. exact Hy.
Qed.

Lemma closed_app Q t1 t2 :
  monotone Q -> closed Q t1 -> closed Q t2 -> closed Q (t1 ++ t2).
Proof.
  intros Hmono H1 H2 e Hin. apply in_app_or in Hin as [Hin|Hin].
  - eapply Hmono; [|apply H1, Hin]. apply incl_appl, incl_refl.
  - eapply Hmono; [|apply H2, Hin]. apply incl_appr, incl_refl.
Qed.

Lemma forEach_closed Q (f : A -> Eff W unit) l :
  monotone Q ->
  (forall x w, In x l -> closed Q (snd (fst (f x w)))) ->
  forall w, closed Q (snd (fst (forEach f l w))).
Proof.
  intros Hmono. induction l as [|x l IH]; intros Hf w.
  - intros e [].
  - rewrite forEach_cons.
    assert (Hx := Hf x w (or_introl eq_refl)).
    destruct (f x w) as [[[] t1] w1].
    assert (Hl := IH (fun y w' Hy => Hf y w' (or_intror Hy)) w1).
    destruct (forEach f l w1) as [[[] t2] w2].
    cbn in *. apply closed_app; assumption.
Qed.

Lemma forEachD_closed Q (f : A -> Div W unit) l :
  monotone Q ->
  (forall x w tr w', In x l -> f x w = Some (tt, tr, w') -> closed Q tr) ->
  forall w tr w', forEachD f l w = Some (tt, tr, w') -> closed Q tr.
Proof.
  intros Hmono. induction l as [|x l IH]; intros Hf w tr w'.
  - intros [= <- <-] e [].
  - rewrite forEachD_cons.
    destruct (f x w) as [[[[] t1] w1]|] eqn:Hx; [|discriminate].
    destruct (forEachD f l w1) as [[[[] t2] w2]|] eqn:Hl; [|discriminate].
    intros [= <- <-]. apply closed_app; [assumption| |].
    + eapply Hf; [left; reflexivity | exact Hx].
    + eapply IH; [|exact Hl]. intros y w0 tr0 w0' Hy. apply Hf. right. exact Hy.
Qed.

(** A loop reaches every element: what the body records for an element
    is part of what the loop records. *)
Lemma forEach_reaches (f : A -> Eff W unit) (P : A -> Trace -> Prop) l :
  (forall x t t', incl t t' -> P x t -> P x t') ->
  (forall x w, In x l -> P x (snd (fst (f x w)))) ->
  forall w x, In x l -> P x (snd (fst (forEach f l w))).
Proof.
  intros Hmono. induction l as [|y l IH]; intros Hf w x Hin; [destruct Hin|].
  rewrite forEach_cons.
  assert (Hy := Hf y w (or_introl eq_refl)).
  destruct (f y w) as [[[] t1] w1].
  assert (Hl := IH (fun z w' Hz => Hf z w' (or_intror Hz)) w1).
  destruct (forEach f l w1) as [[[] t2] w2]. cbn in *.
  destruct Hin as [<-|Hin].
  - eapply Hmono; [|exact Hy]. apply incl_appl, incl_refl.
  - eapply Hmono; [|apply Hl, Hin]. apply incl_appr, incl_refl.
Qed.

Lemma forEachD_reaches (f : A -> Div W unit) (P : A -> Trace -> Prop) l :
  (forall x t t', incl t t' -> P x t -> P x t') ->
  (forall x w tr w', In x l -> f x w = Some (tt, tr, w') -> P x tr) ->
  forall w tr w', forEachD f l w = Some (tt, tr, w') ->
  forall x, In x l -> P x tr.
Proof.
  intros Hmono. induction l as [|y l IH]; intros Hf w tr w' Hrun x Hin;
    [destruct Hin|].
  rewrite forEachD_cons in Hrun.
  destruct (f y w) as [[[[] t1] w1]|] eqn:Hy; [|discriminate].
  destruct (forEachD f l w1) as [[[[] t2] w2]|] eqn:Hl; [|discriminate].
  injection Hrun as <- <-.
  destruct Hin as [<-|Hin].
  - eapply Hmono; [|eapply Hf; [left; reflexivity|exact Hy]].
    apply incl_appl, incl_refl.
  - eapply Hmono; [|eapply IH; [|exact Hl|exact Hin]].
    + apply incl_appr, incl_refl.
    + intros z w0 tr0 w0' Hz. apply Hf. right. exact Hz.
Qed.

End Loops.

(** ** The traversal *)

Section Traversal.
Context {W R T : Type}.
Variable svc : Services W R T.
Variable rc : RepoCloner.

Lemma gitClone_traversalEvent project dest w :
  Forall (traversalEvent rc) (snd (fst (gitClone svc rc project dest w))).
Proof.
  assert (Hc : traversalEvent rc
                 (EvPlainClone (destination rc dest project) false
                    (cloneOptions rc project) None) ).
  { cbn. eauto. }
  rewrite gitClone_eq. cbn zeta.
  destruct (PlainClone svc _ false _ w) as [ce w1].
  destruct (failure ce ErrRepositoryAlreadyExists) as [e|];
    [cbn; repeat constructor; eauto|].
  destruct (PlainOpen svc _ w1) as [[repo|e] w2];
    [|cbn; repeat constructor; eauto].
  destruct (Worktree svc repo w2) as [[work|e] w3];
    [|cbn; repeat constructor; eauto].
  destruct (Pull svc work _ w3) as [pe w4].
  destruct (failure pe NoErrAlreadyUpToDate); cbn; repeat constructor; eauto.
Qed.

Lemma Project_traversalEvent projectID w :
  Forall (traversalEvent rc) (snd (fst (Project svc rc projectID w))).
Proof.
  unfold Project. cbn zeta.
  destruct (slices_Contains (ignoreProjectIDs rc) projectID) eqn:Hign.
  - repeat constructor.
  - unfold bind, client_Projects_GetProject.
    destruct (GetProject svc projectID w) as [[project|e] w1].
    + assert (H := gitClone_traversalEvent project "" w1).
      destruct (gitClone svc rc project "" w1) as [[[] t] w2]. cbn in *.
      constructor; [exact Hign | exact H].
    + cbn. repeat constructor. exact Hign.
Qed.

Lemma Group_traversalEvent fuel :
  forall groupID w tr w',
    Group svc rc fuel groupID w = Some (tt, tr, w') ->
    Forall (traversalEvent rc) tr.
Proof.
  induction fuel as [|fuel IH]; intros groupID w tr w'; [discriminate|].
  rewrite Group_eq. cbn zeta.
  destruct (slices_Contains (ignoreGroupIDs rc) groupID) eqn:Hign.
  { intros [= <- <-]. repeat constructor. }
  destruct (GetGroup svc groupID listOptions w) as [[group|e] w1].
  2:{ intros [= <- <-]. repeat constructor. exact Hign. }
  destruct (ListGroupProjects svc (Group_ID group) listOptions w1)
    as [[projects|e] w2].
  2:{ intros [= <- <-]. repeat constructor. exact Hign. }
  assert (Hp := forEach_Forall (traversalEvent rc)
                  (fun project => gitClone svc rc project (Group_FullPath group))
                  projects
                  (fun p w0 _ => gitClone_traversalEvent p _ w0) w2).
  destruct (forEach _ projects w2) as [[[] tp] w3]. cbn in Hp.
  destruct (ListSubGroups svc (Group_ID group) listOptions w3)
    as [[groups|e] w4].
  - destruct (forEachD _ groups w4) as [[[[] ts] w5]|] eqn:Hsub; [|discriminate].
    intros [= <- <-]. cbn [app].
    do 3 (constructor; [cbn; auto|]).
    apply Forall_app. split; [exact Hp|].
    constructor; [reflexivity|].
    eapply forEachD_Forall; [|exact Hsub].
    intros g w0 tr0 w0' _. apply IH.
  - intros [= <- <-]. cbn [app].
    do 3 (constructor; [cbn; auto|]).
    apply Forall_app. split; [exact Hp|]. repeat constructor.
Qed.

Lemma traverse_traversalEvent fuel groupIDs projectIDs w tr w' :
  traverse svc rc fuel groupIDs projectIDs w = Some (tt, tr, w') ->
  Forall (traversalEvent rc) tr.
Proof.
  unfold traverse. intros H.
  apply bindD_Some in H as ([] & t1 & w1 & t2 & Hg & Hp & ->).
  apply Forall_app. split.
  - eapply forEachD_Forall; [|exact Hg].
    intros gid w0 tr0 w0' _. apply Group_traversalEvent.
  - unfold lift in Hp. injection Hp as Hp.
    assert (H := forEach_Forall (traversalEvent rc) (Project svc rc) projectIDs
                   (fun p w0 _ => Project_traversalEvent p w0) w1).
    rewrite Hp in H. exact H.
Qed.

(** What [gitClone] asks the backend to clone, and where. *)
Lemma gitClone_clone project dest w :
  exists err rest w',
    gitClone svc rc project dest w =
      (tt,
       EvLog Info (projectLog dest project) "get repo"
         :: EvPlainClone (destination rc dest project) false
              (cloneOptions rc project) err
         :: rest, w') /\
    clonedPaths rest = [].
Proof.
  rewrite gitClone_eq. cbn zeta.
  destruct (PlainClone svc _ false _ w) as [ce w1].
  destruct (failure ce ErrRepositoryAlreadyExists) as [e|];
    [eexists _, _, _; split; reflexivity|].
  destruct (PlainOpen svc _ w1) as [[repo|e] w2];
    [|eexists _, _, _; split; reflexivity].
  destruct (Worktree svc repo w2) as [[work|e] w3];
    [|eexists _, _, _; split; reflexivity].
  destruct (Pull svc work _ w3) as [pe w4].
  destruct (failure pe NoErrAlreadyUpToDate);
    eexists _, _, _; split; reflexivity.
Qed.

Lemma gitClone_synced project dest w :
  synced rc project (snd (fst (gitClone svc rc project dest w))).
Proof.
  destruct (gitClone_clone project dest w) as (err & rest & w' & -> & _).
  exists dest, err. cbn. auto.
Qed.

Lemma clonedPaths_app t1 t2 :
  clonedPaths (t1 ++ t2) = clonedPaths t1 ++ clonedPaths t2.
Proof. unfold clonedPaths. apply flat_map_app. Qed.

Lemma clonedPaths_gitClone project dest w :
  clonedPaths (snd (fst (gitClone svc rc project dest w)))
  = [destination rc dest project].
Proof.
  destruct (gitClone_clone project dest w) as (err & rest & w' & -> & Hrest).
  unfold clonedPaths in *. cbn. rewrite Hrest. reflexivity.
Qed.

(** The loop over the listed projects clones each of them once, in the
    order of the listing, into its destination under [dest]. *)
Lemma clonedPaths_forEach dest projects w :
  clonedPaths
    (snd (fst (forEach (fun project => gitClone svc rc project dest) projects w)))
  = map (destination rc dest) projects.
Proof.
  revert w. induction projects as [|p l IH]; intros w; [reflexivity|].
  rewrite forEach_cons.
  assert (Hp := clonedPaths_gitClone p dest w).
  destruct (gitClone svc rc p dest w) as [[[] t1] w1].
  specialize (IH w1).
  destruct (forEach _ l w1) as [[[] t2] w2]. cbn [fst snd] in *.
  rewrite clonedPaths_app, Hp, IH. reflexivity.
Qed.

Lemma synced_mono project t t' :
  incl t t' -> synced rc project t -> synced rc project t'.
Proof. intros Hincl (dest & err & Hin). exists dest, err. auto. Qed.

Lemma visited_mono gid t t' : incl t t' -> visited gid t -> visited gid t'.
Proof. intros Hincl [H|[r H]]; [left|right; exists r]; auto. Qed.

Lemma visitedProject_mono pid t t' :
  incl t t' -> visitedProject pid t -> visitedProject pid t'.
Proof. intros Hincl [H|[r H]]; [left|right; exists r]; auto. Qed.

Lemma followedUp_monotone : monotone (followedUp rc).
Proof.
  intros e t t' Hincl. destruct e as [| | ? ? [ps|] | ? ? [gs|] | | | | | | | | | | |];
    cbn; auto.
  - intros H p Hp. eapply synced_mono; eauto.
  - intros H g Hg. eapply visited_mono; eauto.
Qed.

Lemma placedUnderGroup_monotone : monotone (placedUnderGroup rc).
Proof.
  intros e t t' Hincl. destruct e; cbn; auto.
  intros (id & g & ps & p & H1 & H2 & H3); exists id, g, ps, p.
  split; [auto|]. split; [auto|]. exact H3.
Qed.

(** A call of [Group] that returns has logged the skip or fetched the
    group. *)
Lemma Group_visited fuel groupID w tr w' :
  Group svc rc fuel groupID w = Some (tt, tr, w') -> visited groupID tr.
Proof.
  destruct fuel as [|fuel]; [discriminate|].
  rewrite Group_eq. cbn zeta.
  destruct (slices_Contains (ignoreGroupIDs rc) groupID).
  { intros [= <- <-]. left. left. reflexivity. }
  destruct (GetGroup svc groupID listOptions w) as [[group|e] w1].
  2:{ intros [= <- <-]. right. eexists. left. reflexivity. }
  destruct (ListGroupProjects svc (Group_ID group) listOptions w1)
    as [[projects|e] w2].
  2:{ intros [= <- <-]. right. eexists. left. reflexivity. }
  destruct (forEach _ projects w2) as [[[] tp] w3].
  destruct (ListSubGroups svc (Group_ID group) listOptions w3)
    as [[groups|e] w4].
  - destruct (forEachD _ groups w4) as [[[[] ts] w5]|]; [|discriminate].
    intros [= <- <-]. right. eexists. left. reflexivity.
  - intros [= <- <-]. right. eexists. left. reflexivity.
Qed.

Lemma Project_visited projectID w :
  visitedProject projectID (snd (fst (Project svc rc projectID w))).
Proof.
  unfold Project. cbn zeta.
  destruct (slices_Contains (ignoreProjectIDs rc) projectID).
  - left. left. reflexivity.
  - unfold bind, client_Projects_GetProject.
    destruct (GetProject svc projectID w) as [[project|e] w1].
    + destruct (gitClone svc rc project "" w1) as [[[] t] w2].
      right. eexists. left. reflexivity.
    + right. eexists. left. reflexivity.
Qed.

End Traversal.

Section Followed.
Context {W R T : Type}.
Variable svc : Services W R T.
Variable rc : RepoCloner.

Lemma clonedPaths_In path b o err tr :
  In (EvPlainClone path b o err) tr -> In path (clonedPaths tr).
Proof.
  intros Hin. unfold clonedPaths. apply in_flat_map.
  eexists. split; [exact Hin|]. left. reflexivity.
Qed.

Lemma gitClone_clones project dest w path b o err :
  In (EvPlainClone path b o err) (snd (fst (gitClone svc rc project dest w))) ->
  path = destination rc dest project /\ o = cloneOptions rc project.
Proof.
  destruct (gitClone_clone svc rc project dest w) as (e0 & rest & w' & -> & Hrest).
  cbn [fst snd]. intros [Hin|[Hin|Hin]].
  - discriminate.
  - injection Hin as <- _ <- _. auto.
  - apply clonedPaths_In in Hin. rewrite Hrest in Hin. destruct Hin.
Qed.

Lemma forEach_gitClone_clones dest projects w path b o err :
  In (EvPlainClone path b o err)
     (snd (fst (forEach (fun project => gitClone svc rc project dest) projects w))) ->
  exists project,
    In project projects /\
    path = destination rc dest project /\ o = cloneOptions rc project.
Proof.
  revert w. induction projects as [|p l IH]; intros w; [intros []|].
  rewrite forEach_cons.
  assert (Hp := gitClone_clones p dest w path b o err).
  destruct (gitClone svc rc p dest w) as [[[] t1] w1].
  specialize (IH w1).
  destruct (forEach _ l w1) as [[[] t2] w2]. cbn [fst snd] in *.
  intros Hin. apply in_app_or in Hin as [Hin|Hin].
  - exists p. split; [left; reflexivity | auto].
  - destruct (IH Hin) as (q & Hq & Hpath). exists q. split; [right; exact Hq | exact Hpath].
Qed.

Lemma gitClone_followedUp project dest w :
  closed (followedUp rc) (snd (fst (gitClone svc rc project dest w))).
Proof.
  intros e Hin.
  assert (H := gitClone_events svc rc project dest w).
  rewrite List.Forall_forall in H. destruct (H e Hin) as [Hgit|(lvl & a & m & ->)].
  - destruct e; try discriminate Hgit; exact I.
  - exact I.
Qed.

Lemma Project_followedUp projectID w :
  closed (followedUp rc) (snd (fst (Project svc rc projectID w))).
Proof.
  unfold Project. cbn zeta.
  destruct (slices_Contains (ignoreProjectIDs rc) projectID).
  - intros e [<-|[]]. exact I.
  - unfold bind, client_Projects_GetProject.
    destruct (GetProject svc projectID w) as [[project|e0] w1].
    + assert (H := gitClone_followedUp project "" w1).
      destruct (gitClone svc rc project "" w1) as [[[] t] w2]. cbn [fst snd app] in *.
      intros e [<-|Hin]; [exact I|].
      eapply followedUp_monotone; [|apply H, Hin]. apply incl_tl, incl_refl.
    + cbn. intros e [<-|[<-|[]]]; exact I.
Qed.

(** In a visit that returns, every project that a listing answered is
    synced and every subgroup that a listing answered is visited. *)
Lemma Group_followedUp fuel :
  forall groupID w tr w',
    Group svc rc fuel groupID w = Some (tt, tr, w') ->
    closed (followedUp rc) tr.
Proof.
  induction fuel as [|fuel IH]; intros groupID w tr w'; [discriminate|].
  rewrite Group_eq. cbn zeta.
  destruct (slices_Contains (ignoreGroupIDs rc) groupID) eqn:Hign.
  { intros [= <- <-] e [<-|[]]. exact I. }
  destruct (GetGroup svc groupID listOptions w) as [[group|e0] w1].
  2:{ intros [= <- <-] e [<-|[<-|[]]]; exact I. }
  destruct (ListGroupProjects svc (Group_ID group) listOptions w1)
    as [[projects|e0] w2].
  2:{ intros [= <- <-] e Hin. cbn in Hin.
      repeat (destruct Hin as [<-|Hin]; [exact I|]). destruct Hin. }
  assert (Hreach := forEach_reaches
            (fun project => gitClone svc rc project (Group_FullPath group))
            (synced rc) projects (synced_mono rc)
            (fun p w0 _ => gitClone_synced svc rc p _ w0) w2).
  assert (Hcl := forEach_closed (followedUp rc)
            (fun project => gitClone svc rc project (Group_FullPath group))
            projects (followedUp_monotone rc)
            (fun p w0 _ => gitClone_followedUp p _ w0) w2).
  destruct (forEach _ projects w2) as [[[] tp] w3]. cbn [fst snd] in Hreach, Hcl.
  destruct (ListSubGroups svc (Group_ID group) listOptions w3)
    as [[groups|e0] w4].
  - destruct (forEachD _ groups w4) as [[[[] ts] w5]|] eqn:Hsub; [|discriminate].
    intros [= <- <-] e Hin. cbn [app] in Hin |- *.
    destruct Hin as [<-|[<-|[<-|Hin]]]; try exact I.
    { intros p Hp. eapply synced_mono; [|apply Hreach, Hp]. solve_incl. }
    apply in_app_or in Hin as [Hin|Hin].
    { eapply followedUp_monotone; [|apply Hcl, Hin]. solve_incl. }
    destruct Hin as [<-|Hin].
    + intros g Hg. eapply visited_mono.
      2:{ eapply (forEachD_reaches
                    (fun g => Group svc rc fuel (Group_ID g))
                    (fun g t => visited (Group_ID g) t)); [| |exact Hsub|exact Hg].
          - intros x t t'. apply visited_mono.
          - intros x w0 tr0 w0' _. apply Group_visited. }
      solve_incl.
    + eapply followedUp_monotone.
      2:{ eapply (forEachD_closed (followedUp rc)); [| |exact Hsub|exact Hin].
          - apply followedUp_monotone.
          - intros x w0 tr0 w0' _. apply IH. }
      solve_incl.
  - intros [= <- <-] e Hin. cbn [app] in Hin |- *.
    destruct Hin as [<-|[<-|[<-|Hin]]]; try exact I.
    { intros p Hp. eapply synced_mono; [|apply Hreach, Hp]. solve_incl. }
    apply in_app_or in Hin as [Hin|Hin].
    { eapply followedUp_monotone; [|apply Hcl, Hin]. solve_incl. }
    cbn in Hin. destruct Hin as [<-|[<-|[]]]; exact I.
Qed.

(** Every clone of a group traversal is the clone of a project listed
    for a fetched group, into that group's directory. *)
Lemma Group_placedUnderGroup fuel :
  forall groupID w tr w',
    Group svc rc fuel groupID w = Some (tt, tr, w') ->
    closed (placedUnderGroup rc) tr.
Proof.
  induction fuel as [|fuel IH]; intros groupID w tr w'; [discriminate|].
  rewrite Group_eq. cbn zeta.
  destruct (slices_Contains (ignoreGroupIDs rc) groupID) eqn:Hign.
  { intros [= <- <-] e [<-|[]]. exact I. }
  destruct (GetGroup svc groupID listOptions w) as [[group|e0] w1].
  2:{ intros [= <- <-] e [<-|[<-|[]]]; exact I. }
  destruct (ListGroupProjects svc (Group_ID group) listOptions w1)
    as [[projects|e0] w2].
  2:{ intros [= <- <-] e Hin. cbn in Hin.
      repeat (destruct Hin as [<-|Hin]; [exact I|]). destruct Hin. }
  assert (Hcl := forEach_gitClone_clones (Group_FullPath group) projects w2).
  destruct (forEach _ projects w2) as [[[] tp] w3]. cbn [fst snd] in Hcl.
  assert (Htp : forall rest e, In e tp ->
            placedUnderGroup rc e
              (EvGetGroup groupID listOptions (Ok group)
               :: EvLog Info
                    (groupLog groupID ++ [("group", StringValue (Group_FullPath group))])
                    "get group repos"
               :: EvListGroupProjects (Group_ID group) listOptions (Ok projects)
               :: tp ++ rest)).
  { intros rest e Hin. destruct e; try exact I.
    destruct (Hcl _ _ _ _ Hin) as (p & Hp & -> & ->).
    exists groupID, group, projects, p.
    split; [left; reflexivity|]. split; [right; right; left; reflexivity|].
    split; [exact Hp|]. split; reflexivity. }
  destruct (ListSubGroups svc (Group_ID group) listOptions w3)
    as [[groups|e0] w4].
  - destruct (forEachD _ groups w4) as [[[[] ts] w5]|] eqn:Hsub; [|discriminate].
    intros [= <- <-] e Hin. cbn [app] in Hin |- *.
    destruct Hin as [<-|[<-|[<-|Hin]]]; try exact I.
    apply in_app_or in Hin as [Hin|Hin]; [apply Htp, Hin|].
    destruct Hin as [<-|Hin]; [exact I|].
    eapply placedUnderGroup_monotone.
    2:{ eapply (forEachD_closed (placedUnderGroup rc)); [| |exact Hsub|exact Hin].
        - apply placedUnderGroup_monotone.
        - intros x w0 tr0 w0' _. apply IH. }
    solve_incl.
  - intros [= <- <-] e Hin. cbn [app] in Hin |- *.
    destruct Hin as [<-|[<-|[<-|Hin]]]; try exact I.
    apply in_app_or in Hin as [Hin|Hin]; [apply Htp, Hin|].
    cbn in Hin. destruct Hin as [<-|[<-|[]]]; exact I.
Qed.

End Followed.

Lemma Join_empty_prefix (elem : list string) : Join ("" :: elem) = Join elem.
Proof. reflexivity. Qed.

Section Run.
Context {W R T : Type}.
Variable svc : Services W R T.
Variable rc : RepoCloner.

(** What [Project] does, written out. *)
Lemma Project_eq projectID w :
  Project svc rc projectID w =
  if slices_Contains (ignoreProjectIDs rc) projectID
  then (tt, [EvLog Warn [("project_id", IntValue projectID)] "ignore project"], w)
  else
    let '(rp, w1) := GetProject svc projectID w in
    match rp with
    | Err e =>
        (tt, EvGetProject projectID rp
               :: errorLine [("project_id", IntValue projectID)]
                    "get project error" (Some e), w1)
    | Ok project =>
        let '(_, t, w2) := gitClone svc rc project "" w1 in
        (tt, EvGetProject projectID rp :: t, w2)
    end.
Proof.
  unfold Project. cbn zeta.
  destruct (slices_Contains (ignoreProjectIDs rc) projectID); [reflexivity|].
  unfold bind, client_Projects_GetProject.
  destruct (GetProject svc projectID w) as [[project|e] w1]; [|reflexivity].
  destruct (gitClone svc rc project "" w1) as [[[] t] w2]. reflexivity.
Qed.

(** C6: in group mode, every clone that a traversal records is the
    clone of a project that the listing of a fetched group answered,
    and its path is the destination root joined with that group's full
    path joined with the project's path segment; the loop over a
    listing clones exactly these paths, one per listed project, in the
    order of the listing.  In project mode the prefix is empty: the
    clone of a project given by its identifier goes to the destination
    root joined with the project's path segment alone, and no group is
    fetched for it. *)
Theorem destination_paths :
  (forall fuel groupID w tr w' path isBare o err,
     Group svc rc fuel groupID w = Some (tt, tr, w') ->
     In (EvPlainClone path isBare o err) tr ->
     exists id group projects project,
       In (EvGetGroup id listOptions (Ok group)) tr /\
       In (EvListGroupProjects (Group_ID group) listOptions (Ok projects)) tr /\
       In project projects /\
       path = Join [destDir rc; Join [Group_FullPath group; Project_Path project]] /\
       o = cloneOptions rc project)
  /\
  (forall group projects w,
     clonedPaths
       (snd (fst (forEach (fun project => gitClone svc rc project (Group_FullPath group))
                    projects w)))
     = map (fun project =>
              Join [destDir rc; Join [Group_FullPath group; Project_Path project]])
         projects)
  /\
  (forall projectID w path isBare o err,
     In (EvPlainClone path isBare o err) (snd (fst (Project svc rc projectID w))) ->
     exists project,
       In (EvGetProject projectID (Ok project)) (snd (fst (Project svc rc projectID w))) /\
       path = Join [destDir rc; Join [""; Project_Path project]] /\
       path = Join [destDir rc; Join [Project_Path project]] /\
       o = cloneOptions rc project /\
       forall id opt r,
         ~ In (EvGetGroup id opt r) (snd (fst (Project svc rc projectID w)))).
Proof.
  split; [|split].
  - intros fuel groupID w tr w' path isBare o err Hrun Hin.
    exact (Group_placedUnderGroup svc rc fuel groupID w tr w' Hrun _ Hin).
  - intros group projects w. apply clonedPaths_forEach.
  - intros projectID w path isBare o err. rewrite Project_eq.
    destruct (slices_Contains (ignoreProjectIDs rc) projectID).
    { intros [Hin|[]]. discriminate. }
    destruct (GetProject svc projectID w) as [[project|e] w1].
    2:{ intros [Hin|[Hin|[]]]; discriminate. }
    assert (Hc := gitClone_clones svc rc project "" w1 path isBare o err).
    assert (Hgit := gitClone_events svc rc project "" w1).
    destruct (gitClone svc rc project "" w1) as [[[] t] w2]. cbn [fst snd] in *.
    intros [Hin|Hin]; [discriminate|].
    destruct (Hc Hin) as [-> ->]. exists project.
    split; [left; reflexivity|]. split; [reflexivity|]. split; [reflexivity|].
    split; [reflexivity|].
    intros id opt r [Hg|Hg]; [discriminate|].
    rewrite List.Forall_forall in Hgit.
    destruct (Hgit _ Hg) as [Hcall|(lvl & a & m & Hlog)]; discriminate.
Qed.

(** In a run of the two loops of [main] that returned, whatever failed
    on the way, the process never exits; [Group] is called for every
    root group and [Project] for every root project; every project that
    some listing answered is synced; and [Group] is called for every
    subgroup that some listing answered, so the siblings of a subgroup
    whose fetch failed are visited all the same. *)
Lemma returned_run_went_on fuel groupIDs projectIDs w tr w' :
  traverse svc rc fuel groupIDs projectIDs w = Some (tt, tr, w') ->
  (forall code, ~ In (EvExit code) tr) /\
  (forall gid, In gid groupIDs -> visited gid tr) /\
  (forall pid, In pid projectIDs -> visitedProject pid tr) /\
  (forall id opt projects,
     In (EvListGroupProjects id opt (Ok projects)) tr ->
     forall p, In p projects -> synced rc p tr) /\
  (forall id opt groups,
     In (EvListSubGroups id opt (Ok groups)) tr ->
     forall g, In g groups -> visited (Group_ID g) tr).
Proof.
  intros Hrun.
  assert (Hev := traverse_traversalEvent svc rc fuel groupIDs projectIDs w tr w' Hrun).
  unfold traverse in Hrun.
  apply bindD_Some in Hrun as ([] & t1 & w1 & t2 & Hg & Hp & ->).
  unfold lift in Hp. injection Hp as Hp.
  assert (Hclosed : closed (followedUp rc) (t1 ++ t2)).
  { apply closed_app; [apply followedUp_monotone| |].
    - eapply (forEachD_closed (followedUp rc)); [apply followedUp_monotone| |exact Hg].
      intros gid w0 tr0 w0' _. apply Group_followedUp.
    - assert (H := forEach_closed (followedUp rc) (Project svc rc) projectIDs
                     (followedUp_monotone rc)
                     (fun p w0 _ => Project_followedUp svc rc p w0) w1).
      rewrite Hp in H. exact H. }
  split; [|split; [|split; [|split]]].
  - intros code Hin. rewrite List.Forall_forall in Hev. exact (Hev _ Hin).
  - intros gid Hgid. eapply visited_mono; [apply incl_appl, incl_refl|].
    eapply (forEachD_reaches (Group svc rc fuel) (fun gid t => visited gid t));
      [| |exact Hg|exact Hgid].
    + intros x t t'. apply visited_mono.
    + intros x w0 tr0 w0' _. apply Group_visited.
  - intros pid Hpid. eapply visitedProject_mono; [apply incl_appr, incl_refl|].
    assert (H := forEach_reaches (Project svc rc) (fun pid t => visitedProject pid t)
                   projectIDs (fun x t t' => visitedProject_mono x t t')
                   (fun p w0 _ => Project_visited svc rc p w0) w1 pid Hpid).
    rewrite Hp in H. exact H.
  - intros id opt projects Hin. exact (Hclosed _ Hin).
  - intros id opt groups Hin. exact (Hclosed _ Hin).
Qed.

End Run.

(** ** Termination and order of the traversal *)

Section Termination.
Context {W R T : Type}.
Variable svc : Services W R T.
Variable rc : RepoCloner.

Lemma forEachD_ext {A : Type} (f g : A -> Div W unit) l :
  (forall x w r, In x l -> f x w = Some r -> g x w = Some r) ->
  forall w r, forEachD f l w = Some r -> forEachD g l w = Some r.
Proof.
  induction l as [|x l IH]; intros Hfg w r; [auto|].
  rewrite !forEachD_cons.
  destruct (f x w) as [[[[] t1] w1]|] eqn:Hx; [|discriminate].
  rewrite (Hfg x w _ (or_introl eq_refl) Hx).
  destruct (forEachD f l w1) as [[[[] t2] w2]|] eqn:Hl; [|discriminate].
  rewrite (IH (fun y w0 r0 Hy => Hfg y w0 r0 (or_intror Hy)) w1 _ Hl). auto.
Qed.

(** More fuel never changes the result of a call that returned. *)
Lemma Group_fuel_S fuel :
  forall groupID w r,
    Group svc rc fuel groupID w = Some r -> Group svc rc (S fuel) groupID w = Some r.
Proof.
  induction fuel as [|fuel IH]; intros groupID w r; [discriminate|].
  rewrite (Group_eq svc rc (S fuel)), (Group_eq svc rc fuel). cbn zeta.
  destruct (slices_Contains (ignoreGroupIDs rc) groupID); [auto|].
  destruct (GetGroup svc groupID listOptions w) as [[group|e] w1]; [|auto].
  destruct (ListGroupProjects svc (Group_ID group) listOptions w1)
    as [[projects|e] w2]; [|auto].
  destruct (forEach _ projects w2) as [[[] tp] w3].
  destruct (ListSubGroups svc (Group_ID group) listOptions w3)
    as [[groups|e] w4]; [|auto].
  destruct (forEachD (fun g => Group svc rc fuel (Group_ID g)) groups w4)
    as [[[[] ts] w5]|] eqn:Hsub; [|discriminate].
  rewrite (forEachD_ext (fun g => Group svc rc fuel (Group_ID g))
             (fun g => Group svc rc (S fuel) (Group_ID g)) groups
             (fun g w0 r0 _ => IH (Group_ID g) w0 r0) w4 _ Hsub).
  auto.
Qed.

Lemma Group_fuel_le fuel fuel' groupID w r :
  fuel <= fuel' ->
  Group svc rc fuel groupID w = Some r -> Group svc rc fuel' groupID w = Some r.
Proof.
  induction 1 as [|fuel' Hle IH]; [auto|].
  intros H. apply Group_fuel_S, IH, H.
Qed.

(** A loop over groups that each return with some fuel returns with
    one fuel for all. *)
Lemma forEachD_Group_returns groups :
  (forall g, In g groups ->
     forall w, exists fuel tr w', Group svc rc fuel (Group_ID g) w = Some (tt, tr, w')) ->
  forall w, exists fuel tr w',
    forEachD (fun g => Group svc rc fuel (Group_ID g)) groups w = Some (tt, tr, w').
Proof.
  induction groups as [|g l IH]; intros Hall w.
  - exists 0, [], w. reflexivity.
  - destruct (Hall g (or_introl eq_refl) w) as (n1 & t1 & w1 & H1).
    destruct (IH (fun x Hx => Hall x (or_intror Hx)) w1) as (n2 & t2 & w2 & H2).
    exists (Nat.max n1 n2), (t1 ++ t2), w2.
    rewrite forEachD_cons.
    rewrite (Group_fuel_le n1 (Nat.max n1 n2) _ _ _ (Nat.le_max_l _ _) H1).
    rewrite (forEachD_ext (fun x => Group svc rc n2 (Group_ID x))
               (fun x => Group svc rc (Nat.max n1 n2) (Group_ID x)) l
               (fun x w0 r0 _ =>
                  Group_fuel_le n2 (Nat.max n1 n2) (Group_ID x) w0 r0
                    (Nat.le_max_r _ _)) w1 _ H2).
    reflexivity.
Qed.

Lemma Group_returns :
  acyclic svc ->
  forall groupID w, exists fuel tr w', Group svc rc fuel groupID w = Some (tt, tr, w').
Proof.
  intros Hwf groupID.
  induction (Hwf groupID) as [groupID _ IH]. intros w.
  destruct (slices_Contains (ignoreGroupIDs rc) groupID) eqn:Hign.
  { exists 1. rewrite Group_eq. cbn zeta. rewrite Hign. eauto. }
  destruct (GetGroup svc groupID listOptions w) as [[group|e] w1] eqn:Hget.
  2:{ exists 1. rewrite Group_eq. cbn zeta. rewrite Hign, Hget. eauto. }
  destruct (ListGroupProjects svc (Group_ID group) listOptions w1)
    as [[projects|e] w2] eqn:Hlist.
  2:{ exists 1. rewrite Group_eq. cbn zeta. rewrite Hign, Hget, Hlist. eauto. }
  destruct (forEach (fun project => gitClone svc rc project (Group_FullPath group))
              projects w2) as [[[] tp] w3] eqn:Hloop.
  destruct (ListSubGroups svc (Group_ID group) listOptions w3)
    as [[groups|e] w4] eqn:Hsub.
  2:{ exists 1. rewrite Group_eq. cbn zeta.
      rewrite Hign, Hget, Hlist, Hloop, Hsub. eauto. }
  destruct (forEachD_Group_returns groups) with (w := w4) as (n & ts & w5 & Hrec).
  { intros g Hg. apply IH.
    exists w, w3, listOptions, listOptions, group, groups, g.
    rewrite Hget, Hsub. auto. }
  exists (S n). rewrite Group_eq. cbn zeta.
  rewrite Hign, Hget, Hlist, Hloop, Hsub, Hrec. eauto.
Qed.

(** The trace of a loop over groups is the traces of complete visits,
    one per group, in the order of the list. *)
Lemma forEachD_visits {A : Type} (f : A -> Div W unit) l :
  forall w tr w',
    forEachD f l w = Some (tt, tr, w') ->
    exists visits,
      tr = concat visits /\
      Forall2 (fun x t => exists wa wb, f x wa = Some (tt, t, wb)) l visits.
Proof.
  induction l as [|x l IH]; intros w tr w'.
  - intros [= <- <-]. exists []. split; [reflexivity|constructor].
  - rewrite forEachD_cons.
    destruct (f x w) as [[[[] t1] w1]|] eqn:Hx; [|discriminate].
    destruct (forEachD f l w1) as [[[[] t2] w2]|] eqn:Hl; [|discriminate].
    intros [= <- <-]. destruct (IH _ _ _ Hl) as (visits & -> & Hall).
    exists (t1 :: visits). split; [reflexivity|].
    constructor; [eauto | exact Hall].
Qed.

Lemma gitClone_no_directory_call project dest w :
  Forall (fun e => isDirectoryCall e = false)
    (snd (fst (gitClone svc rc project dest w))).
Proof.
  eapply List.Forall_impl; [|apply (gitClone_events svc rc)].
  intros e [Hgit|(lvl & a & m & ->)]; [|reflexivity].
  destruct e; try discriminate Hgit; reflexivity.
Qed.

(** C8: when the hierarchy that the directory service shows is acyclic
    (no infinite chain of subgroups below any group), [Group] returns
    for every group identifier, from every state of the world, given
    enough fuel for the depth of the recursion.  A visit that gets the
    group, its projects and its subgroups records, in this order: the
    fetch and the listing of the projects; the sync of every listed
    project, with no call of the directory service in between; the
    listing of the subgroups; then one complete visit per listed
    subgroup, each finished before the next begins. *)
Theorem Group_terminates_on_acyclic_hierarchy :
  acyclic svc ->
  (forall groupID w,
     exists fuel tr w', Group svc rc fuel groupID w = Some (tt, tr, w')) /\
  (forall fuel groupID w tr w' group w1 projects w2 tp w3 groups w4,
     Group svc rc (S fuel) groupID w = Some (tt, tr, w') ->
     slices_Contains (ignoreGroupIDs rc) groupID = false ->
     GetGroup svc groupID listOptions w = (Ok group, w1) ->
     ListGroupProjects svc (Group_ID group) listOptions w1 = (Ok projects, w2) ->
     forEach (fun project => gitClone svc rc project (Group_FullPath group))
       projects w2 = (tt, tp, w3) ->
     ListSubGroups svc (Group_ID group) listOptions w3 = (Ok groups, w4) ->
     exists visits,
       tr = [EvGetGroup groupID listOptions (Ok group);
             EvLog Info
               (groupLog groupID ++ [("group", StringValue (Group_FullPath group))])
               "get group repos";
             EvListGroupProjects (Group_ID group) listOptions (Ok projects)]
              ++ tp
              ++ [EvListSubGroups (Group_ID group) listOptions (Ok groups)]
              ++ concat visits /\
       Forall (fun e => isDirectoryCall e = false) tp /\
       clonedPaths tp = map (destination rc (Group_FullPath group)) projects /\
       Forall2
         (fun g t => exists wa wb, Group svc rc fuel (Group_ID g) wa = Some (tt, t, wb))
         groups visits).
Proof.
  intros Hwf. split; [apply Group_returns, Hwf|].
  intros fuel groupID w tr w' group w1 projects w2 tp w3 groups w4
    Hrun Hign Hget Hlist Hloop Hsub.
  rewrite Group_eq in Hrun. cbn zeta in Hrun.
  rewrite Hign, Hget, Hlist, Hloop, Hsub in Hrun.
  destruct (forEachD (fun g => Group svc rc fuel (Group_ID g)) groups w4)
    as [[[[] ts] w5]|] eqn:Hrec; [|discriminate].
  injection Hrun as <- <-.
  destruct (forEachD_visits _ _ _ _ _ Hrec) as (visits & -> & Hall).
  exists visits. split; [reflexivity|]. split; [|split; [|exact Hall]].
  - assert (H := forEach_Forall (fun e => isDirectoryCall e = false)
                   (fun project => gitClone svc rc project (Group_FullPath group))
                   projects
                   (fun p w0 _ => gitClone_no_directory_call p _ w0) w2).
    rewrite Hloop in H. exact H.
  - assert (H := clonedPaths_forEach svc rc (Group_FullPath group) projects w2).
    rewrite Hloop in H. exact H.
Qed.

End Termination.

(** ** Requests of the traversal *)

Section Requests.
Context {W R T : Type}.
Variable svc : Services W R T.
Variable rc : RepoCloner.

Lemma countEvents_app f t1 t2 :
  countEvents f (t1 ++ t2) = countEvents f t1 + countEvents f t2.
Proof. unfold countEvents. rewrite List.filter_app, length_app. reflexivity. Qed.

Lemma countEvents_none f tr :
  Forall (fun e => f e = false) tr -> countEvents f tr = 0.
Proof.
  unfold countEvents. induction 1 as [|e l He _ IH]; [reflexivity|].
  cbn. rewrite He. exact IH.
Qed.

Lemma gitClone_answeredBy project dest w :
  Forall (answeredBy svc) (snd (fst (gitClone svc rc project dest w))).
Proof.
  eapply List.Forall_impl; [|apply (gitClone_events svc rc)].
  intros e [Hgit|(lvl & a & m & ->)]; [|exact I].
  destruct e; try discriminate Hgit; exact I.
Qed.

(** Every answer in the trace of a visit is an answer of the service. *)
Lemma Group_answeredBy fuel :
  forall groupID w tr w',
    Group svc rc fuel groupID w = Some (tt, tr, w') ->
    Forall (answeredBy svc) tr.
Proof.
  induction fuel as [|fuel IH]; intros groupID w tr w'; [discriminate|].
  rewrite Group_eq. cbn zeta.
  destruct (slices_Contains (ignoreGroupIDs rc) groupID) eqn:Hign.
  { intros [= <- <-]. repeat constructor. }
  destruct (GetGroup svc groupID listOptions w) as [[group|e] w1] eqn:Hget.
  2:{ intros [= <- <-]. repeat constructor. exists w. rewrite Hget. reflexivity. }
  assert (Hg : answeredBy svc (EvGetGroup groupID listOptions (Ok group))).
  { exists w. rewrite Hget. reflexivity. }
  destruct (ListGroupProjects svc (Group_ID group) listOptions w1)
    as [[projects|e] w2] eqn:Hlist.
  2:{ intros [= <- <-]. cbn [app errorLine].
      constructor; [exact Hg|]. constructor; [exact I|].
      constructor; [exists w1; rewrite Hlist; reflexivity|]. repeat constructor. }
  assert (Hp := forEach_Forall (answeredBy svc)
                  (fun project => gitClone svc rc project (Group_FullPath group))
                  projects
                  (fun p w0 _ => gitClone_answeredBy p _ w0) w2).
  destruct (forEach _ projects w2) as [[[] tp] w3]. cbn [fst snd] in Hp.
  destruct (ListSubGroups svc (Group_ID group) listOptions w3)
    as [[groups|e] w4] eqn:Hsub.
  - destruct (forEachD _ groups w4) as [[[[] ts] w5]|] eqn:Hrec; [|discriminate].
    intros [= <- <-]. cbn [app].
    constructor; [exact Hg|]. constructor; [exact I|].
    constructor; [exists w1; rewrite Hlist; reflexivity|].
    apply Forall_app. split; [exact Hp|].
    constructor; [exists w3; rewrite Hsub; reflexivity|].
    eapply forEachD_Forall; [|exact Hrec].
    intros g w0 tr0 w0' _. apply IH.
  - intros [= <- <-]. cbn [app].
    constructor; [exact Hg|]. constructor; [exact I|].
    constructor; [exists w1; rewrite Hlist; reflexivity|].
    apply Forall_app. split; [exact Hp|].
    constructor; [exists w3; rewrite Hsub; reflexivity|]. repeat constructor.
Qed.

Lemma forEach_gitClone_no_request (f : Event -> bool) dest projects w :
  (forall e, f e = true -> isDirectoryCall e = true) ->
  countEvents f
    (snd (fst (forEach (fun project => gitClone svc rc project dest) projects w))) = 0.
Proof.
  intros Hf. apply countEvents_none.
  apply forEach_Forall. intros p w0 _.
  eapply List.Forall_impl; [|apply (gitClone_no_directory_call svc rc)].
  intros e He. destruct (f e) eqn:Hfe; [|reflexivity].
  apply Hf in Hfe. congruence.
Qed.

Lemma forEachD_counts {A : Type} (f : A -> Div W unit) (c1 c2 : Event -> bool) l :
  (forall x w tr w', In x l -> f x w = Some (tt, tr, w') ->
     countEvents c1 tr <= countEvents c2 tr) ->
  forall w tr w', forEachD f l w = Some (tt, tr, w') ->
  countEvents c1 tr <= countEvents c2 tr.
Proof.
  induction l as [|x l IH]; intros Hf w tr w'.
  - intros [= <- <-]. reflexivity.
  - rewrite forEachD_cons.
    destruct (f x w) as [[[[] t1] w1]|] eqn:Hx; [|discriminate].
    destruct (forEachD f l w1) as [[[[] t2] w2]|] eqn:Hl; [|discriminate].
    intros [= <- <-]. rewrite !countEvents_app.
    apply Nat.add_le_mono.
    + eapply Hf; [left; reflexivity | exact Hx].
    + eapply IH; [|exact Hl]. intros y w0 tr0 w0' Hy. apply Hf. right. exact Hy.
Qed.

(** A visit lists the projects of a group at most once per fetched
    group, and its subgroups at most once per listing of projects:
    no listing is asked for again. *)
Lemma Group_one_request_per_visit fuel :
  forall groupID w tr w',
    Group svc rc fuel groupID w = Some (tt, tr, w') ->
    countEvents isListGroupProjects tr <= countEvents isGetGroupOk tr /\
    countEvents isListSubGroups tr <= countEvents isListGroupProjects tr.
Proof.
  induction fuel as [|fuel IH]; intros groupID w tr w'; [discriminate|].
  rewrite Group_eq. cbn zeta.
  destruct (slices_Contains (ignoreGroupIDs rc) groupID) eqn:Hign.
  { intros [= <- <-]. split; reflexivity. }
  destruct (GetGroup svc groupID listOptions w) as [[group|e] w1].
  2:{ intros [= <- <-]. split; reflexivity. }
  destruct (ListGroupProjects svc (Group_ID group) listOptions w1)
    as [[projects|e] w2].
  2:{ intros [= <- <-]. split; cbn; lia. }
  assert (H1 := forEach_gitClone_no_request isGetGroupOk
                  (Group_FullPath group) projects w2).
  assert (H2 := forEach_gitClone_no_request isListGroupProjects
                  (Group_FullPath group) projects w2).
  assert (H3 := forEach_gitClone_no_request isListSubGroups
                  (Group_FullPath group) projects w2).
  destruct (forEach _ projects w2) as [[[] tp] w3]. cbn [fst snd] in H1, H2, H3.
  assert (Hd1 : forall e, isGetGroupOk e = true -> isDirectoryCall e = true)
    by (intros []; cbn; congruence).
  assert (Hd2 : forall e, isListGroupProjects e = true -> isDirectoryCall e = true)
    by (intros []; cbn; congruence).
  assert (Hd3 : forall e, isListSubGroups e = true -> isDirectoryCall e = true)
    by (intros []; cbn; congruence).
  specialize (H1 Hd1). specialize (H2 Hd2). specialize (H3 Hd3).
  destruct (ListSubGroups svc (Group_ID group) listOptions w3)
    as [[groups|e] w4].
  - destruct (forEachD _ groups w4) as [[[[] ts] w5]|] eqn:Hrec; [|discriminate].
    intros [= <- <-].
    assert (Ha := forEachD_counts (fun g => Group svc rc fuel (Group_ID g))
                    isListGroupProjects isGetGroupOk groups
                    (fun g w0 tr0 w0' _ H => proj1 (IH _ _ _ _ H)) _ _ _ Hrec).
    assert (Hb := forEachD_counts (fun g => Group svc rc fuel (Group_ID g))
                    isListSubGroups isListGroupProjects groups
                    (fun g w0 tr0 w0' _ H => proj2 (IH _ _ _ _ H)) _ _ _ Hrec).
    change (?a :: ?b :: ?c :: tp ++ ?d :: ts) with ([a; b; c] ++ tp ++ [d] ++ ts).
    rewrite !countEvents_app, H1, H2, H3. cbn. lia.
  - intros [= <- <-].
    change (?a :: ?b :: ?c :: tp ++ ?d) with ([a; b; c] ++ tp ++ d).
    rewrite !countEvents_app, H1, H2, H3. cbn. lia.
Qed.

End Requests.

(** ** The sync on the reference backend *)

Section OnMirror.
Import Mirror.
Variable d : Directory.
Variable rc : RepoCloner.

(** The four ways a sync goes on the reference backend: the working
    copy exists and its remote is gone, it exists and is up to date, it
    exists and is brought to the remote state, or it does not exist and
    is cloned if the remote has the repository. *)
Lemma gitClone_on_mirror project dest w :
  gitClone (services d) rc project dest w =
  let path := destination rc dest project in
  let log := projectLog dest project in
  let start := EvLog Info log "get repo" in
  let cloned := EvPlainClone path false (cloneOptions rc project) in
  match disk w !! path with
  | Some r =>
      match upstream w !! origin r with
      | None =>
          (tt, [start; cloned (Some ErrRepositoryAlreadyExists);
                EvPlainOpen path None; EvWorktree path None;
                EvPull path (pullOptions rc) (Some (ErrOther "repository not found"));
                EvLog Error_ (log ++ errorAttr (ErrOther "repository not found"))
                  "pull repo error"], w)
      | Some t =>
          if String.eqb (tree r) t
          then (tt, upToDateTrace rc project dest, w)
          else (tt, [start; cloned (Some ErrRepositoryAlreadyExists);
                     EvPlainOpen path None; EvWorktree path None;
                     EvPull path (pullOptions rc) None],
                {| disk := <[path := {| origin := origin r; base := t; tree := t |}]>
                             (disk w);
                   upstream := upstream w |})
      end
  | None =>
      match upstream w !! Project_SSHURLToRepo project with
      | None =>
          (tt, [start; cloned (Some (ErrOther "repository not found"));
                EvLog Error_ (log ++ errorAttr (ErrOther "repository not found"))
                  "clone repo error"], w)
      | Some t =>
          (tt, [start; cloned None; EvPlainOpen path None; EvWorktree path None;
                EvPull path (pullOptions rc) (Some NoErrAlreadyUpToDate)],
           {| disk := <[path := {| origin := Project_SSHURLToRepo project;
                                   base := t; tree := t |}]> (disk w);
              upstream := upstream w |})
      end
  end.
Proof.
  rewrite gitClone_eq. cbn zeta.
  cbn [services PlainClone PlainOpen Worktree Pull].
  unfold plainClone, plainOpen, worktree, pull. cbn [URL cloneOptions].
  destruct (disk w !! destination rc dest project) as [r|] eqn:Hdisk.
  - cbn [failure errors_Is error_eqb orb]. rewrite Hdisk.
    cbn [pullOptions RemoteName Force String.eqb Ascii.eqb Bool.eqb negb andb orb].
    rewrite Hdisk.
    destruct (upstream w !! origin r) as [t|]; [|reflexivity].
    destruct (String.eqb (tree r) t); reflexivity.
  - destruct (upstream w !! Project_SSHURLToRepo project) as [t|] eqn:Hup;
      [|reflexivity].
    cbn [failure disk upstream]. rewrite lookup_insert_eq.
    cbn [pullOptions RemoteName Force String.eqb Ascii.eqb Bool.eqb negb andb orb
         disk upstream].
    rewrite lookup_insert_eq. cbn [origin tree base].
    rewrite Hup, String.eqb_refl. reflexivity.
Qed.

End OnMirror.

(** A sync never writes to the remote. *)
Lemma gitClone_keeps_upstream (d : Mirror.Directory) rc project dest w :
  Mirror.upstream (snd (gitClone (Mirror.services d) rc project dest w))
  = Mirror.upstream w.
Proof.
  rewrite gitClone_on_mirror. cbn zeta.
  destruct (Mirror.disk w !! destination rc dest project) as [r|].
  - destruct (Mirror.upstream w !! Mirror.origin r) as [t|]; [|reflexivity].
    destruct (String.eqb (Mirror.tree r) t); reflexivity.
  - destruct (Mirror.upstream w !! Project_SSHURLToRepo project); reflexivity.
Qed.

(** A sync runs to its end when the remote it needs exists: the remote
    of the working copy if there is one, the project's otherwise. *)
Lemma sync_runs_to_its_end (d : Mirror.Directory) rc project dest w :
  match Mirror.disk w !! destination rc dest project with
  | Some r => is_Some (Mirror.upstream w !! Mirror.origin r)
  | None => is_Some (Mirror.upstream w !! Project_SSHURLToRepo project)
  end ->
  abandoned (snd (fst (gitClone (Mirror.services d) rc project dest w))) = false.
Proof.
  rewrite gitClone_on_mirror. cbn zeta.
  destruct (Mirror.disk w !! destination rc dest project) as [r|].
  - intros [t ->]. destruct (String.eqb (Mirror.tree r) t); reflexivity.
  - intros [t ->]. reflexivity.
Qed.

(** A sync that the backend made fail fails again the same way when
    nothing changed. *)
Lemma abandoned_sync_repeats (d : Mirror.Directory) rc project dest w tr1 w1 :
  gitClone (Mirror.services d) rc project dest w = (tt, tr1, w1) ->
  abandoned tr1 = true ->
  w1 = w /\ gitClone (Mirror.services d) rc project dest w1 = (tt, tr1, w1).
Proof.
  intros Hrun. assert (Hrun' := Hrun). revert Hrun'.
  rewrite gitClone_on_mirror. cbn zeta.
  destruct (Mirror.disk w !! destination rc dest project) as [r|] eqn:Hdisk.
  - destruct (Mirror.upstream w !! Mirror.origin r) as [t|] eqn:Hup.
    + destruct (String.eqb (Mirror.tree r) t); intros [= <- <-]; discriminate.
    + intros [= <- <-] _. split; [reflexivity | exact Hrun].
  - destruct (Mirror.upstream w !! Project_SSHURLToRepo project) as [t|] eqn:Hup.
    + intros [= <- <-]. discriminate.
    + intros [= <- <-] _. split; [reflexivity | exact Hrun].
Qed.

(** C2: on the reference backend, a second sync of the same repository,
    started in the world the first one left (so nothing changed upstream
    in between), finds the clone target already existing, opens it, and
    its pull reports [NoErrAlreadyUpToDate], which ends the sync without
    an error; it leaves the world, and with it the working tree, exactly
    as the first sync left it.  The first sync is one that ran to its
    end, not one abandoned on a failure of the backend. *)
Theorem gitClone_idempotent (d : Mirror.Directory) rc project dest w tr1 w1 :
  gitClone (Mirror.services d) rc project dest w = (tt, tr1, w1) ->
  abandoned tr1 = false ->
  gitClone (Mirror.services d) rc project dest w1
  = (tt, upToDateTrace rc project dest, w1) /\
  abandoned (upToDateTrace rc project dest) = false /\
  Mirror.treeAt w1 (destination rc dest project)
  = Mirror.remoteOf w1 (destination rc dest project) /\
  is_Some (Mirror.treeAt w1 (destination rc dest project)).
Proof.
  rewrite gitClone_on_mirror. cbn zeta. unfold Mirror.treeAt, Mirror.remoteOf.
  destruct (Mirror.disk w !! destination rc dest project) as [r|] eqn:Hdisk.
  - destruct (Mirror.upstream w !! Mirror.origin r) as [t|] eqn:Hup.
    + destruct (String.eqb (Mirror.tree r) t) eqn:Htree.
      * intros [= <- <-] _.
        rewrite gitClone_on_mirror. cbn zeta. rewrite Hdisk, Hup, Htree.
        apply String.eqb_eq in Htree. cbn. rewrite Hup, Htree. eauto.
      * intros [= <- <-] _.
        rewrite gitClone_on_mirror. cbn zeta. cbn [Mirror.disk Mirror.upstream].
        rewrite lookup_insert_eq. cbn [Mirror.origin Mirror.tree].
        rewrite Hup, String.eqb_refl. cbn. rewrite Hup. eauto.
    + intros [= <- <-]. discriminate.
  - destruct (Mirror.upstream w !! Project_SSHURLToRepo project) as [t|] eqn:Hup.
    + intros [= <- <-] _.
      rewrite gitClone_on_mirror. cbn zeta. cbn [Mirror.disk Mirror.upstream].
      rewrite lookup_insert_eq. cbn [Mirror.origin Mirror.tree].
      rewrite Hup, String.eqb_refl. cbn. rewrite Hup. eauto.
    + intros [= <- <-]. discriminate.
Qed.



(** ** Which groups a visit fetches *)

Section Fetched.
Context {W R T : Type}.
Variable svc : Services W R T.
Variable rc : RepoCloner.

(** A group fetched in a loop over [groups] is one of [groups] or was
    listed during the loop. *)
Lemma forEachD_fetched fuel groups :
  (forall groupID w tr w',
     Group svc rc fuel groupID w = Some (tt, tr, w') ->
     closed (fetchedBecauseListed groupID) tr) ->
  forall w ts w',
    forEachD (fun g => Group svc rc fuel (Group_ID g)) groups w = Some (tt, ts, w') ->
    forall id opt r,
      In (EvGetGroup id opt r) ts ->
      (exists g, In g groups /\ Group_ID g = id) \/
      (exists parent gs g,
         In (EvListSubGroups parent listOptions (Ok gs)) ts /\
         In g gs /\ Group_ID g = id).
Proof.
  intros IH. induction groups as [|g l IHl]; intros w ts w'.
  - intros [= <- <-] id opt r [].
  - rewrite forEachD_cons.
    destruct (Group svc rc fuel (Group_ID g) w) as [[[[] t1] w1]|] eqn:Hg;
      [|discriminate].
    destruct (forEachD _ l w1) as [[[[] t2] w2]|] eqn:Hl; [|discriminate].
    intros [= <- <-] id opt r Hin. apply in_app_or in Hin as [Hin|Hin].
    + destruct (IH _ _ _ _ Hg _ Hin) as [->|(parent & gs & g' & H1 & H2)].
      * left. exists g. split; [left; reflexivity | reflexivity].
      * right. exists parent, gs, g'. split; [apply in_or_app; left; exact H1 | exact H2].
    + destruct (IHl _ _ _ Hl _ _ _ Hin)
        as [(g' & Hg' & Hid)|(parent & gs & g' & H1 & H2)].
      * left. exists g'. split; [right; exact Hg' | exact Hid].
      * right. exists parent, gs, g'. split; [apply in_or_app; right; exact H1 | exact H2].
Qed.

Lemma Group_fetchedBecauseListed fuel :
  forall groupID w tr w',
    Group svc rc fuel groupID w = Some (tt, tr, w') ->
    closed (fetchedBecauseListed groupID) tr.
Proof.
  induction fuel as [|fuel IH]; intros groupID w tr w'; [discriminate|].
  rewrite Group_eq. cbn zeta.
  destruct (slices_Contains (ignoreGroupIDs rc) groupID) eqn:Hign.
  { intros [= <- <-] e [<-|[]]. exact I. }
  destruct (GetGroup svc groupID listOptions w) as [[group|e0] w1].
  2:{ intros [= <- <-] e [<-|[<-|[]]]; [left; reflexivity | exact I]. }
  destruct (ListGroupProjects svc (Group_ID group) listOptions w1)
    as [[projects|e0] w2].
  2:{ intros [= <- <-] e Hin. cbn in Hin.
      destruct Hin as [<-|Hin]; [left; reflexivity|].
      repeat (destruct Hin as [<-|Hin]; [exact I|]). destruct Hin. }
  assert (Hp := forEach_Forall (fun e => isDirectoryCall e = false)
                  (fun project => gitClone svc rc project (Group_FullPath group))
                  projects
                  (fun p w0 _ => gitClone_no_directory_call svc rc p _ w0) w2).
  destruct (forEach _ projects w2) as [[[] tp] w3]. cbn [fst snd] in Hp.
  rewrite List.Forall_forall in Hp.
  assert (Htp : forall e t, In e tp -> fetchedBecauseListed groupID e t).
  { intros e t Hin. specialize (Hp _ Hin). destruct e; try exact I. discriminate Hp. }
  destruct (ListSubGroups svc (Group_ID group) listOptions w3)
    as [[groups|e0] w4].
  - destruct (forEachD _ groups w4) as [[[[] ts] w5]|] eqn:Hsub; [|discriminate].
    intros [= <- <-] e Hin. cbn [app] in Hin |- *.
    destruct Hin as [<-|[<-|[<-|Hin]]]; [left; reflexivity | exact I | exact I |].
    apply in_app_or in Hin as [Hin|Hin]; [apply Htp, Hin|].
    destruct Hin as [<-|Hin]; [exact I|].
    destruct e; try exact I. right.
    destruct (forEachD_fetched fuel groups IH _ _ _ Hsub _ _ _ Hin)
      as [(g & Hg & Hid)|(parent & gs & g & H1 & H2)].
    + exists (Group_ID group), groups, g.
      split; [|split; [exact Hg | exact Hid]].
      do 3 right. apply in_or_app. right. left. reflexivity.
    + exists parent, gs, g. split; [|exact H2].
      do 3 right. apply in_or_app. right. right. exact H1.
  - intros [= <- <-] e Hin. cbn [app] in Hin |- *.
    destruct Hin as [<-|[<-|[<-|Hin]]]; [left; reflexivity | exact I | exact I |].
    apply in_app_or in Hin as [Hin|Hin]; [apply Htp, Hin|].
    cbn in Hin. destruct Hin as [<-|[<-|[]]]; exact I.
Qed.

End Fetched.

(** ** Log lines *)

Section Logs.
Context {W R T : Type}.
Variable svc : Services W R T.
Variable rc : RepoCloner.

Lemma gitClone_knownLog project dest w :
  Forall knownLog (snd (fst (gitClone svc rc project dest w))).
Proof.
  rewrite gitClone_eq. cbn zeta.
  destruct (PlainClone svc _ false _ w) as [ce w1].
  destruct (failure ce ErrRepositoryAlreadyExists) as [e|]; [cbn; known_logs|].
  destruct (PlainOpen svc _ w1) as [[repo|e] w2]; [|cbn; known_logs].
  destruct (Worktree svc repo w2) as [[work|e] w3]; [|cbn; known_logs].
  destruct (Pull svc work _ w3) as [pe w4].
  destruct (failure pe NoErrAlreadyUpToDate); cbn; known_logs.
Qed.

Lemma Project_knownLog projectID w :
  Forall knownLog (snd (fst (Project svc rc projectID w))).
Proof.
  rewrite Project_eq.
  destruct (slices_Contains (ignoreProjectIDs rc) projectID); [cbn; known_logs|].
  destruct (GetProject svc projectID w) as [[project|e] w1]; [|cbn; known_logs].
  assert (H := gitClone_knownLog project "" w1).
  destruct (gitClone svc rc project "" w1) as [[[] t] w2]. cbn [fst snd] in *.
  constructor; [exact I | exact H].
Qed.

Lemma Group_knownLog fuel :
  forall groupID w tr w',
    Group svc rc fuel groupID w = Some (tt, tr, w') -> Forall knownLog tr.
Proof.
  induction fuel as [|fuel IH]; intros groupID w tr w'; [discriminate|].
  rewrite Group_eq. cbn zeta.
  destruct (slices_Contains (ignoreGroupIDs rc) groupID).
  { intros [= <- <-]. known_logs. }
  destruct (GetGroup svc groupID listOptions w) as [[group|e] w1].
  2:{ intros [= <- <-]. cbn. known_logs. }
  destruct (ListGroupProjects svc (Group_ID group) listOptions w1)
    as [[projects|e] w2].
  2:{ intros [= <- <-]. cbn. known_logs. }
  assert (Hp := forEach_Forall knownLog
                  (fun project => gitClone svc rc project (Group_FullPath group))
                  projects
                  (fun p w0 _ => gitClone_knownLog p _ w0) w2).
  destruct (forEach _ projects w2) as [[[] tp] w3]. cbn [fst snd] in Hp.
  destruct (ListSubGroups svc (Group_ID group) listOptions w3)
    as [[groups|e] w4].
  - destruct (forEachD _ groups w4) as [[[[] ts] w5]|] eqn:Hsub; [|discriminate].
    intros [= <- <-]. cbn [app].
    do 3 (constructor; [cbn; first [exact I | in_trace]|]).
    apply Forall_app. split; [exact Hp|].
    constructor; [exact I|].
    eapply forEachD_Forall; [|exact Hsub].
    intros g w0 tr0 w0' _. apply IH.
  - intros [= <- <-]. cbn [app].
    do 3 (constructor; [cbn; first [exact I | in_trace]|]).
    apply Forall_app. split; [exact Hp|]. cbn. known_logs.
Qed.

Lemma traverse_knownLog fuel groupIDs projectIDs w tr w' :
  traverse svc rc fuel groupIDs projectIDs w = Some (tt, tr, w') ->
  Forall knownLog tr.
Proof.
  unfold traverse. intros H.
  apply bindD_Some in H as ([] & t1 & w1 & t2 & Hg & Hp & ->).
  apply Forall_app. split.
  - eapply forEachD_Forall; [|exact Hg].
    intros gid w0 tr0 w0' _. apply Group_knownLog.
  - unfold lift in Hp. injection Hp as Hp.
    assert (H := forEach_Forall knownLog (Project svc rc) projectIDs
                   (fun p w0 _ => Project_knownLog p w0) w1).
    rewrite Hp in H. exact H.
Qed.

End Logs.

(** ** Pages *)

Lemma first_page {A : Type} (l : list A) :
  Mirror.page listOptions l = firstn (Z.to_nat (PerPage listOptions)) l.
Proof. reflexivity. Qed.

Lemma traversalEvent_request rc e opt :
  traversalEvent rc e -> requestOptions e = Some opt -> opt = listOptions.
Proof.
  destruct e; cbn; try discriminate.
  - intros [-> _] [= <-]. reflexivity.
  - intros -> [= <-]. reflexivity.
  - intros -> [= <-]. reflexivity.
Qed.

(** C10: every request that a traversal sends to the directory service
    carries [listOptions]: no page number, page size 1000, ordered by
    name, ascending; so no request ever names a page after the first.  A
    visit lists the projects at most once per fetched group and the
    subgroups at most once per listing of projects: no listing is asked
    for again.  On the reference directory, which cuts a listing at the
    page size, every clone is of a project among the first 1000 direct
    projects of some group, and every group fetched is the root or is
    among the first 1000 direct subgroups of some group: what lies beyond
    the first page is neither synced nor traversed.  And nothing says
    so: every line a traversal logs is one of the fixed [logLines], none
    of which is about a page. *)
Theorem only_first_page :
  (forall (W R T : Type) (svc : Services W R T) rc fuel groupIDs projectIDs w tr w' e opt,
     traverse svc rc fuel groupIDs projectIDs w = Some (tt, tr, w') ->
     In e tr -> requestOptions e = Some opt ->
     opt = listOptions /\ Page opt = 0%Z /\ PerPage opt = 1000%Z /\
     OrderBy opt = "name" /\ Sort opt = "asc") /\
  (forall (W R T : Type) (svc : Services W R T) rc fuel groupID w tr w',
     Group svc rc fuel groupID w = Some (tt, tr, w') ->
     countEvents isListGroupProjects tr <= countEvents isGetGroupOk tr /\
     countEvents isListSubGroups tr <= countEvents isListGroupProjects tr) /\
  (forall (d : Mirror.Directory) rc fuel groupID w tr w' path isBare o err,
     Group (Mirror.services d) rc fuel groupID w = Some (tt, tr, w') ->
     In (EvPlainClone path isBare o err) tr ->
     exists group all project,
       Mirror.dir_group_projects d !! Group_ID group = Some all /\
       In project (firstn (Z.to_nat (PerPage listOptions)) all) /\
       path = destination rc (Group_FullPath group) project) /\
  (forall (d : Mirror.Directory) rc fuel groupID w tr w' id opt r,
     Group (Mirror.services d) rc fuel groupID w = Some (tt, tr, w') ->
     In (EvGetGroup id opt r) tr ->
     id = groupID \/
     exists parent all g,
       Mirror.dir_subgroups d !! parent = Some all /\
       In g (firstn (Z.to_nat (PerPage listOptions)) all) /\
       Group_ID g = id) /\
  (forall (W R T : Type) (svc : Services W R T) rc fuel groupIDs projectIDs w tr w'
          lvl attrs msg,
     traverse svc rc fuel groupIDs projectIDs w = Some (tt, tr, w') ->
     In (EvLog lvl attrs msg) tr -> In (lvl, msg) logLines).
Proof.
  split; [|split; [|split; [|split]]].
  - intros W R T svc rc fuel groupIDs projectIDs w tr w' e opt Hrun Hin Hopt.
    assert (H := traverse_traversalEvent svc rc fuel groupIDs projectIDs w tr w' Hrun).
    rewrite List.Forall_forall in H.
    rewrite (traversalEvent_request rc e opt (H _ Hin) Hopt). repeat split.
  - intros W R T svc rc fuel groupID w tr w'. apply Group_one_request_per_visit.
  - intros d rc fuel groupID w tr w' path isBare o err Hrun Hin.
    destruct (Group_placedUnderGroup _ rc fuel groupID w tr w' Hrun _ Hin)
      as (id & group & projects & project & _ & Hlist & Hp & -> & _).
    assert (Hans := Group_answeredBy _ rc fuel groupID w tr w' Hrun).
    rewrite List.Forall_forall in Hans. destruct (Hans _ Hlist) as [w0 Hw0].
    cbn [Mirror.services ListGroupProjects] in Hw0. unfold Mirror.listGroupProjects in Hw0.
    destruct (Mirror.dir_group_projects d !! Group_ID group) as [all|] eqn:Hall;
      [|discriminate].
    injection Hw0 as <-. exists group, all, project.
    split; [exact Hall|]. split; [|reflexivity].
    rewrite <- first_page. exact Hp.
  - intros d rc fuel groupID w tr w' id opt r Hrun Hin.
    destruct (Group_fetchedBecauseListed _ rc fuel groupID w tr w' Hrun _ Hin)
      as [->|(parent & groups & g & Hlist & Hg & Hid)]; [left; reflexivity|right].
    assert (Hans := Group_answeredBy _ rc fuel groupID w tr w' Hrun).
    rewrite List.Forall_forall in Hans. destruct (Hans _ Hlist) as [w0 Hw0].
    cbn [Mirror.services ListSubGroups] in Hw0. unfold Mirror.listSubGroups in Hw0.
    destruct (Mirror.dir_subgroups d !! parent) as [all|] eqn:Hall; [|discriminate].
    injection Hw0 as <-. exists parent, all, g.
    split; [exact Hall|]. split; [|exact Hid].
    rewrite <- first_page. exact Hg.
  - intros W R T svc rc fuel groupIDs projectIDs w tr w' lvl attrs msg Hrun Hin.
    assert (H := traverse_knownLog svc rc fuel groupIDs projectIDs w tr w' Hrun).
    rewrite List.Forall_forall in H. exact (H _ Hin).
Qed.

(** ** Exclusion *)

Section Exclusion.
Context {W R T : Type}.
Variable svc : Services W R T.
Variable rc : RepoCloner.

(** An excluded group is not fetched, an excluded project is not
    fetched by identifier, anywhere in a run. *)
Lemma excluded_ids_are_never_fetched fuel groupIDs projectIDs w tr w' :
  traverse svc rc fuel groupIDs projectIDs w = Some (tt, tr, w') ->
  (forall gid opt r,
     In (EvGetGroup gid opt r) tr ->
     slices_Contains (ignoreGroupIDs rc) gid = false) /\
  (forall pid r,
     In (EvGetProject pid r) tr ->
     slices_Contains (ignoreProjectIDs rc) pid = false).
Proof.
  intros Hrun.
  assert (H := traverse_traversalEvent svc rc fuel groupIDs projectIDs w tr w' Hrun).
  rewrite List.Forall_forall in H. split.
  - intros gid opt r Hin. exact (proj2 (H _ Hin)).
  - intros pid r Hin. exact (H _ Hin).
Qed.

Lemma excluded_group_is_skipped fuel groupID w :
  slices_Contains (ignoreGroupIDs rc) groupID = true ->
  Group svc rc (S fuel) groupID w
  = Some (tt, [EvLog Warn (groupLog groupID) "ignore group"], w).
Proof. intros H. rewrite Group_eq. cbn zeta. rewrite H. reflexivity. Qed.

Lemma excluded_root_project_is_skipped projectID w :
  slices_Contains (ignoreProjectIDs rc) projectID = true ->
  Project svc rc projectID w
  = (tt, [EvLog Warn [("project_id", IntValue projectID)] "ignore project"], w).
Proof. intros H. rewrite Project_eq. rewrite H. reflexivity. Qed.

Lemma forEachD_ext_eq {A : Type} (f g : A -> Div W unit) l :
  (forall x w, f x w = g x w) -> forall w, forEachD f l w = forEachD g l w.
Proof.
  intros Hfg. induction l as [|x l IH]; intros w; [reflexivity|].
  rewrite !forEachD_cons, Hfg.
  destruct (g x w) as [[[[] t1] w1]|]; [|reflexivity]. rewrite IH. reflexivity.
Qed.

(** The visit of a group never reads the set of excluded projects. *)
Lemma Group_ignores_excluded_projects ids fuel :
  forall groupID w,
    Group svc (withIgnoredProjects ids rc) fuel groupID w = Group svc rc fuel groupID w.
Proof.
  induction fuel as [|fuel IH]; intros groupID w; [reflexivity|].
  rewrite !Group_eq. cbn zeta. cbn [withIgnoredProjects ignoreGroupIDs].
  destruct (slices_Contains (ignoreGroupIDs rc) groupID); [reflexivity|].
  destruct (GetGroup svc groupID listOptions w) as [[group|e] w1]; [|reflexivity].
  destruct (ListGroupProjects svc (Group_ID group) listOptions w1)
    as [[projects|e] w2]; [|reflexivity].
  change (forEach (fun project =>
                     gitClone svc (withIgnoredProjects ids rc) project
                       (Group_FullPath group)) projects w2)
    with (forEach (fun project => gitClone svc rc project (Group_FullPath group))
            projects w2).
  destruct (forEach _ projects w2) as [[[] tp] w3].
  destruct (ListSubGroups svc (Group_ID group) listOptions w3)
    as [[groups|e] w4]; [|reflexivity].
  rewrite (forEachD_ext_eq
             (fun g => Group svc (withIgnoredProjects ids rc) fuel (Group_ID g))
             (fun g => Group svc rc fuel (Group_ID g)) groups
             (fun g w0 => IH (Group_ID g) w0)).
  reflexivity.
Qed.

End Exclusion.

(** C1, the part that the program does not do: project 5 is excluded and
    group 10, which is not, lists it among its direct projects.  The
    visit of group 10 clones project 5 all the same, and its working
    tree, absent before, is on the disk afterwards. *)
Theorem excluded_project_listed_under_group_is_synced :
  slices_Contains (ignoreProjectIDs (Scenario.cloner [5%Z] []))
    (Project_ID Scenario.secret) = true /\
  Mirror.treeAt Scenario.emptyDisk "repos/grp/secret" = None /\
  exists tr w',
    Group (Mirror.services Scenario.withSecret) (Scenario.cloner [5%Z] []) 2 10
      Scenario.emptyDisk = Some (tt, tr, w') /\
    In (EvPlainClone "repos/grp/secret" false
          (cloneOptions (Scenario.cloner [5%Z] []) Scenario.secret) None) tr /\
    Mirror.treeAt w' "repos/grp/secret" = Some "secret v1".
Proof.
  split; [reflexivity|]. split; [vm_compute; reflexivity|].
  eexists _, _. split; [vm_compute; reflexivity|].
  split; [in_trace | vm_compute; reflexivity].
Qed.

(** ** A hierarchy with a cycle *)

(** Nothing detects a cycle: on a group listed among its own subgroups
    the recursion uses up any fuel. *)
Lemma Group_diverges_on_cycle fuel :
  forall w,
    Group (Mirror.services Scenario.cyclic) (Scenario.cloner [] []) fuel 10 w = None.
Proof.
  induction fuel as [|fuel IH]; intros w; [reflexivity|].
  rewrite Group_eq. cbn zeta.
  change (slices_Contains (ignoreGroupIDs (Scenario.cloner [] [])) 10) with false.
  cbv iota.
  replace (GetGroup (Mirror.services Scenario.cyclic) 10 listOptions w)
    with (Ok Scenario.grp, w) by (vm_compute; reflexivity).
  replace (ListGroupProjects (Mirror.services Scenario.cyclic)
             (Group_ID Scenario.grp) listOptions w)
    with (@Ok (list gitlab_Project) [], w) by (vm_compute; reflexivity).
  cbn [forEach ret].
  replace (ListSubGroups (Mirror.services Scenario.cyclic)
             (Group_ID Scenario.grp) listOptions w)
    with (Ok [Scenario.grp], w) by (vm_compute; reflexivity).
  rewrite forEachD_cons.
  change (Group_ID Scenario.grp) with 10%Z. rewrite IH. reflexivity.
Qed.

(** ** [main] *)

Section MainRun.
Context {W R T : Type}.
Variable svc : Services W R T.

(** The process exits only at startup: with status 1, and before any
    call of the directory service (but the identity check) or of the
    version-control backend. *)
Lemma main_exits_only_at_startup fuel flags w tr w' code :
  mainWith svc fuel flags w = Some (tt, tr, w') ->
  In (EvExit code) tr ->
  code = 1%Z /\
  Forall (fun e => isGitCall e = false /\ isDirectoryCall e = false) tr.
Proof.
  unfold mainWith, bindD, lift, bind, gitlab_NewClient, client_Users_CurrentUser,
    ssh_NewSSHAgentAuth, slog, os_Exit.
  destruct (NewClient svc _ _ w) as [[e|] w1].
  { intros [= <- <-] Hin. cbn in Hin.
    destruct Hin as [Hin|[Hin|[Hin|[]]]]; try discriminate Hin.
    injection Hin as <-. split; [reflexivity|]. repeat constructor. }
  destruct (CurrentUser svc w1) as [[e|] w2].
  { intros [= <- <-] Hin. cbn in Hin.
    destruct Hin as [Hin|[Hin|[Hin|[Hin|[]]]]]; try discriminate Hin.
    injection Hin as <-. split; [reflexivity|]. repeat constructor. }
  destruct (NewSSHAgentAuth svc "git" w2) as [[a|e] w3].
  2:{ intros [= <- <-] Hin. cbn in Hin.
      destruct Hin as [Hin|[Hin|[Hin|[Hin|[Hin|[]]]]]]; try discriminate Hin.
      injection Hin as <-. split; [reflexivity|]. repeat constructor. }
  destruct (traverse svc _ fuel _ _ w3) as [[[[] t] w4]|] eqn:Hrun; [|discriminate].
  intros [= <- <-] Hin. exfalso.
  apply traverse_traversalEvent in Hrun. rewrite List.Forall_forall in Hrun.
  cbn in Hin. destruct Hin as [Hin|[Hin|[Hin|Hin]]]; try discriminate Hin.
  exact (Hrun _ Hin).
Qed.

End MainRun.

(** ** Acyclic directories *)

Lemma page_incl {A : Type} (opt : ListOptions) (l : list A) x :
  In x (Mirror.page opt l) -> In x l.
Proof.
  unfold Mirror.page. intros H.
  rewrite <- (firstn_skipn ((Z.to_nat (Z.max (Page opt) 1) - 1) * Z.to_nat (PerPage opt)) l).
  apply in_or_app. right.
  rewrite <- (firstn_skipn (Z.to_nat (PerPage opt)) (skipn _ l)).
  apply in_or_app. left. exact H.
Qed.

Lemma subgroup_of_edge (d : Mirror.Directory) c p :
  subgroup_of (Mirror.services d) c p -> Mirror.edge d c p.
Proof.
  intros (w1 & w2 & o1 & o2 & g & gs & g' & Hget & Hlist & Hin & Hid).
  cbn [Mirror.services GetGroup ListSubGroups] in Hget, Hlist.
  unfold Mirror.getGroup in Hget. unfold Mirror.listSubGroups in Hlist.
  destruct (Mirror.dir_groups d !! p) as [g0|] eqn:Hp; [|discriminate].
  injection Hget as ->.
  destruct (Mirror.dir_subgroups d !! Group_ID g) as [all|] eqn:Hall; [|discriminate].
  injection Hlist as <-. apply page_incl in Hin.
  exists g, all, g'. auto.
Qed.

(** In a directory without cycle, a group below all of [V] is
    accessible: each step up the chain of its descendants adds a group
    of the directory to [V], and the directory is finite. *)
Lemma noCycle_Acc (d : Mirror.Directory) :
  Mirror.noCycle d ->
  forall n (V : gset Z) x,
    size (dom (Mirror.dir_groups d) ∖ V) <= n ->
    (forall v, v ∈ V -> tc (Mirror.edge d) x v) ->
    Acc (Mirror.edge d) x.
Proof.
  intros Hno n. induction n as [|n IH]; intros V x Hsize Hanc;
    constructor; intros y Hyx.
  - exfalso. destruct Hyx as (g & gs & g' & Hx & _).
    assert (Hin : x ∈ dom (Mirror.dir_groups d) ∖ V).
    { apply elem_of_difference. split; [apply elem_of_dom; eauto|].
      intros HV. exact (Hno x (Hanc x HV)). }
    assert (Hempty : dom (Mirror.dir_groups d) ∖ V ≡ ∅).
    { apply size_empty_inv. lia. }
    exact (not_elem_of_empty x (proj1 (Hempty x) Hin)).
  - assert (Hx : x ∈ dom (Mirror.dir_groups d) ∖ V).
    { destruct Hyx as (g & gs & g' & Hx & _).
      apply elem_of_difference. split; [apply elem_of_dom; eauto|].
      intros HV. exact (Hno x (Hanc x HV)). }
    apply (IH (V ∪ {[x]})).
    + assert (Hsplit : dom (Mirror.dir_groups d) ∖ V
                       = {[x]} ∪ dom (Mirror.dir_groups d) ∖ (V ∪ {[x]})).
      { apply set_eq. intros z.
        rewrite elem_of_union, !elem_of_difference, elem_of_union, !elem_of_singleton.
        destruct (decide (z = x)) as [->|Hz]; [|tauto].
        apply elem_of_difference in Hx. tauto. }
      assert (Hdisj : {[x]} ## dom (Mirror.dir_groups d) ∖ (V ∪ {[x]})).
      { intros z Hz1 Hz2. apply elem_of_singleton in Hz1 as ->.
        apply elem_of_difference in Hz2 as [_ Hz2]. apply Hz2.
        apply elem_of_union. right. apply elem_of_singleton. reflexivity. }
      rewrite Hsplit, (size_union _ _ Hdisj), size_singleton in Hsize. lia.
    + intros v Hv. apply elem_of_union in Hv as [Hv|Hv].
      * eapply tc_l; [exact Hyx | apply Hanc, Hv].
      * apply elem_of_singleton in Hv as ->. apply tc_once, Hyx.
Qed.

(** A finite directory without cycle is acyclic. *)
Lemma noCycle_acyclic (d : Mirror.Directory) :
  Mirror.noCycle d -> acyclic (Mirror.services d).
Proof.
  intros Hno. unfold acyclic.
  apply (wf_incl _ _ (Mirror.edge d)).
  - intros c p. apply subgroup_of_edge.
  - intros x. apply (noCycle_Acc d Hno (size (dom (Mirror.dir_groups d))) ∅ x).
    + apply subseteq_size. intros z Hz. apply elem_of_difference in Hz as [Hz _].
      exact Hz.
    + intros v Hv. apply not_elem_of_empty in Hv. destruct Hv.
Qed.

Lemma ranked_edge (d : Mirror.Directory) (rank : Z -> nat) :
  Mirror.ranked d rank = true ->
  forall c p, Mirror.edge d c p -> rank c < rank p.
Proof.
  intros Hranked c p (g & gs & g' & Hp & Hall & Hin & <-).
  unfold Mirror.ranked in Hranked. rewrite forallb_forall in Hranked.
  assert (Hpg : In (p, g) (map_to_list (Mirror.dir_groups d))).
  { apply list_elem_of_In, elem_of_map_to_list. exact Hp. }
  specialize (Hranked _ Hpg). cbn in Hranked. rewrite Hall in Hranked.
  rewrite forallb_forall in Hranked. specialize (Hranked _ Hin).
  apply Nat.ltb_lt in Hranked. exact Hranked.
Qed.

(** A ranked directory has no cycle. *)
Lemma ranked_noCycle (d : Mirror.Directory) (rank : Z -> nat) :
  Mirror.ranked d rank = true -> Mirror.noCycle d.
Proof.
  intros Hranked x Hcycle.
  assert (Hdown : forall a b, tc (Mirror.edge d) a b -> rank a < rank b).
  { induction 1 as [a b Hab|a b c Hab _ IH].
    - exact (ranked_edge d rank Hranked a b Hab).
    - apply (Nat.lt_trans _ (rank b)); [exact (ranked_edge d rank Hranked a b Hab)|].
      exact IH. }
  exact (Nat.lt_irrefl _ (Hdown x x Hcycle)).
Qed.

(** A ranked directory is acyclic. *)
Lemma ranked_acyclic (d : Mirror.Directory) (rank : Z -> nat) :
  Mirror.ranked d rank = true -> acyclic (Mirror.services d).
Proof. intros Hranked. exact (noCycle_acyclic d (ranked_noCycle d rank Hranked)). Qed.

(** ** The protocol of a run *)

Lemma runFrom_app rc ph t1 t2 :
  runFrom rc ph (t1 ++ t2) =
  match runFrom rc ph t1 with
  | Some ph' => runFrom rc ph' t2
  | None => None
  end.
Proof.
  revert ph. induction t1 as [|e t1 IH]; intros ph; [reflexivity|].
  cbn [app runFrom]. destruct (step rc ph e); [apply IH | reflexivity].
Qed.

Lemma runFrom_Idle_app rc t1 t2 :
  runFrom rc Idle t1 = Some Idle -> runFrom rc Idle t2 = Some Idle ->
  runFrom rc Idle (t1 ++ t2) = Some Idle.
Proof. intros H1 H2. rewrite runFrom_app, H1. exact H2. Qed.

Lemma endsWithError_errorAttr log e : endsWithError (log ++ errorAttr e) e = true.
Proof.
  unfold endsWithError, errorAttr. rewrite map_app. cbn [map]. rewrite last_last.
  cbn. apply String.eqb_refl.
Qed.

(** The error line of a failed call brings the automaton back to [Idle];
    without a failure there is no line. *)
Lemma runFrom_errorLine rc log msg failed next :
  runFrom rc (afterCall failed next) (errorLine log msg failed)
  = Some (match failed with Some _ => Idle | None => next end).
Proof.
  destruct failed as [e|]; [|reflexivity].
  cbn [errorLine afterCall runFrom step]. rewrite endsWithError_errorAttr. reflexivity.
Qed.

Section Protocol.
Context {W R T : Type}.
Variable svc : Services W R T.
Variable rc : RepoCloner.

Lemma gitClone_protocol project dest w :
  runFrom rc Idle (snd (fst (gitClone svc rc project dest w))) = Some Idle.
Proof.
  rewrite gitClone_eq. cbn zeta.
  destruct (PlainClone svc _ false _ w) as [ce w1].
  assert (Hstart : forall rest,
            runFrom rc Idle
              (EvLog Info (projectLog dest project) "get repo"
               :: EvPlainClone (destination rc dest project) false
                    (cloneOptions rc project) ce :: rest)
            = runFrom rc
                (afterCall (failure ce ErrRepositoryAlreadyExists)
                   (Cloned (destination rc dest project))) rest).
  { intros rest. cbn [runFrom step projectLog String.eqb Ascii.eqb Bool.eqb].
    unfold destination. rewrite String.eqb_refl. reflexivity. }
  destruct (failure ce ErrRepositoryAlreadyExists) as [e|] eqn:Hce.
  { cbn [fst snd app]. rewrite Hstart, ?Hce.
    exact (runFrom_errorLine rc _ _ (Some e) Idle). }
  destruct (PlainOpen svc _ w1) as [[repo|e] w2].
  2:{ cbn [fst snd app]. rewrite Hstart, ?Hce. protocol_steps.
      exact (runFrom_errorLine rc _ _ (Some e) Idle). }
  destruct (Worktree svc repo w2) as [[work|e] w3].
  2:{ cbn [fst snd app]. rewrite Hstart, ?Hce. protocol_steps.
      exact (runFrom_errorLine rc _ _ (Some e) Idle). }
  destruct (Pull svc work _ w3) as [pe w4].
  cbn [fst snd app]. rewrite Hstart, ?Hce. protocol_steps.
  cbn [pullOptions Force RemoteName andb String.eqb Ascii.eqb Bool.eqb].
  rewrite (runFrom_errorLine rc _ _ (failure pe NoErrAlreadyUpToDate) Idle).
  destruct (failure pe NoErrAlreadyUpToDate); reflexivity.
Qed.


(** A property of traces that [[]] has and [++] keeps holds of every
    loop whose body has it. *)
Lemma forEach_gathers {A : Type} (P : Trace -> Prop) (f : A -> Eff W unit) l :
  P [] -> (forall a b, P a -> P b -> P (a ++ b)) ->
  (forall x w, P (snd (fst (f x w)))) ->
  forall w, P (snd (fst (forEach f l w))).
Proof.
  intros Hnil Happ Hf. induction l as [|x l IH]; intros w; [exact Hnil|].
  rewrite forEach_cons.
  assert (Hx := Hf x w). destruct (f x w) as [[[] t1] w1].
  specialize (IH w1). destruct (forEach f l w1) as [[[] t2] w2].
  cbn [fst snd] in *. apply Happ; assumption.
Qed.

Lemma forEachD_gathers {A : Type} (P : Trace -> Prop) (f : A -> Div W unit) l :
  P [] -> (forall a b, P a -> P b -> P (a ++ b)) ->
  (forall x w tr w', f x w = Some (tt, tr, w') -> P tr) ->
  forall w tr w', forEachD f l w = Some (tt, tr, w') -> P tr.
Proof.
  intros Hnil Happ Hf. induction l as [|x l IH]; intros w tr w'.
  - intros [= <- <-]. exact Hnil.
  - rewrite forEachD_cons.
    destruct (f x w) as [[[[] t1] w1]|] eqn:Hx; [|discriminate].
    destruct (forEachD f l w1) as [[[[] t2] w2]|] eqn:Hl; [|discriminate].
    intros [= <- <-]. apply Happ; [eapply Hf, Hx | eapply IH, Hl].
Qed.

Lemma Project_protocol projectID w :
  runFrom rc Idle (snd (fst (Project svc rc projectID w))) = Some Idle.
Proof.
  rewrite Project_eq.
  destruct (slices_Contains (ignoreProjectIDs rc) projectID); [reflexivity|].
  destruct (GetProject svc projectID w) as [[project|e] w1].
  - assert (H := gitClone_protocol project "" w1).
    destruct (gitClone svc rc project "" w1) as [[[] t] w2]. exact H.
  - cbn [fst snd]. protocol_done.
Qed.

Lemma Group_protocol fuel :
  forall groupID w tr w',
    Group svc rc fuel groupID w = Some (tt, tr, w') ->
    runFrom rc Idle tr = Some Idle.
Proof.
  induction fuel as [|fuel IH]; intros groupID w tr w'; [discriminate|].
  rewrite Group_eq. cbn zeta.
  destruct (slices_Contains (ignoreGroupIDs rc) groupID).
  { intros [= <- <-]. reflexivity. }
  destruct (GetGroup svc groupID listOptions w) as [[group|e] w1].
  2:{ intros [= <- <-]. protocol_done. }
  destruct (ListGroupProjects svc (Group_ID group) listOptions w1)
    as [[projects|e] w2].
  2:{ intros [= <- <-]. cbn [app]. protocol_steps.
      cbn [String.eqb Ascii.eqb Bool.eqb]. protocol_done. }
  assert (Hp := forEach_gathers (fun t => runFrom rc Idle t = Some Idle)
                  (fun project => gitClone svc rc project (Group_FullPath group))
                  projects eq_refl (runFrom_Idle_app rc)
                  (fun p w0 => gitClone_protocol p _ w0) w2).
  destruct (forEach _ projects w2) as [[[] tp] w3]. cbn [fst snd] in Hp.
  destruct (ListSubGroups svc (Group_ID group) listOptions w3)
    as [[groups|e] w4].
  - destruct (forEachD _ groups w4) as [[[[] ts] w5]|] eqn:Hsub; [|discriminate].
    intros [= <- <-]. cbn [app]. protocol_steps.
    cbn [String.eqb Ascii.eqb Bool.eqb]. protocol_steps.
    rewrite runFrom_app, Hp. protocol_steps.
    eapply (forEachD_gathers (fun t => runFrom rc Idle t = Some Idle));
      [reflexivity | apply runFrom_Idle_app | | exact Hsub].
    intros g w0 tr0 w0' Hg. exact (IH _ _ _ _ Hg).
  - intros [= <- <-]. cbn [app]. protocol_steps.
    cbn [String.eqb Ascii.eqb Bool.eqb]. protocol_steps.
    rewrite runFrom_app, Hp. protocol_done.
Qed.

Lemma traverse_protocol fuel groupIDs projectIDs w tr w' :
  traverse svc rc fuel groupIDs projectIDs w = Some (tt, tr, w') ->
  runFrom rc Idle tr = Some Idle.
Proof.
  unfold traverse. intros H.
  apply bindD_Some in H as ([] & t1 & w1 & t2 & Hg & Hp & ->).
  apply runFrom_Idle_app.
  - eapply (forEachD_gathers (fun t => runFrom rc Idle t = Some Idle));
      [reflexivity | apply runFrom_Idle_app | | exact Hg].
    intros gid w0 tr0 w0' H. exact (Group_protocol _ _ _ _ _ H).
  - unfold lift in Hp. injection Hp as Hp.
    assert (H := forEach_gathers (fun t => runFrom rc Idle t = Some Idle)
                   (Project svc rc) projectIDs eq_refl (runFrom_Idle_app rc)
                   (fun p w0 => Project_protocol p w0) w1).
    rewrite Hp in H. exact H.
Qed.

End Protocol.

(** Along an accepted trace every error line answers one failed call. *)
Lemma runFrom_counts rc tr :
  forall ph ph',
    runFrom rc ph tr = Some ph' ->
    countEvents isErrorLog tr + pending ph'
    = countEvents failedCall tr + pending ph.
Proof.
  induction tr as [|e tr IH]; intros ph ph'.
  - intros [= <-]. reflexivity.
  - cbn [runFrom]. destruct (step rc ph e) as [ph1|] eqn:Hstep; [|discriminate].
    intros Hrun. specialize (IH _ _ Hrun).
    change (e :: tr) with ([e] ++ tr). rewrite !countEvents_app.
    assert (Hone : countEvents isErrorLog [e] + pending ph1
                   = countEvents failedCall [e] + pending ph).
    { clear IH Hrun. unfold countEvents. cbn [List.filter].
      destruct ph, e; cbn in Hstep; try discriminate Hstep;
        repeat match type of Hstep with
               | context [match ?x with _ => _ end] => destruct x eqn:?; try discriminate Hstep
               | context [if ?x then _ else _] => destruct x eqn:?; try discriminate Hstep
               end;
        injection Hstep as <-; unfold failedCall; cbn; try reflexivity;
        repeat match goal with
               | H : _ = _ |- _ => rewrite H
               end; cbn; try reflexivity;
        match goal with
        | |- context [afterCall ?x _] => destruct x; reflexivity
        end. }
    lia.
Qed.

(** *** What the automaton's states say about the neighbours of an event *)

Lemma runFrom_snoc rc ph tr e :
  runFrom rc ph (tr ++ [e])
  = match runFrom rc ph tr with
    | Some ph1 => step rc ph1 e
    | None => None
    end.
Proof.
  rewrite runFrom_app. destruct (runFrom rc ph tr) as [ph1|]; [|reflexivity].
  cbn [runFrom]. destruct (step rc ph1 e); reflexivity.
Qed.

(** A run that changed the phase made a last step. *)
Lemma runFrom_last rc ph tr ph' :
  runFrom rc ph tr = Some ph' ->
  ph' = ph \/
  exists tr' e ph1,
    tr = tr' ++ [e] /\ runFrom rc ph tr' = Some ph1 /\ step rc ph1 e = Some ph'.
Proof.
  destruct tr as [|e tr'] using rev_ind.
  - intros [= <-]. now left.
  - rewrite runFrom_snoc.
    destruct (runFrom rc ph tr') as [ph1|] eqn:Hrun; [|discriminate].
    intros Hstep. right. now exists tr', e, ph1.
Qed.

(** The step in the middle of an accepted trace. *)
Lemma runFrom_split rc ph pre e post ph' :
  runFrom rc ph (pre ++ e :: post) = Some ph' ->
  exists ph1 ph2,
    runFrom rc ph pre = Some ph1 /\ step rc ph1 e = Some ph2 /\
    runFrom rc ph2 post = Some ph'.
Proof.
  rewrite runFrom_app.
  destruct (runFrom rc ph pre) as [ph1|]; [|discriminate].
  cbn [runFrom]. destruct (step rc ph1 e) as [ph2|] eqn:Hstep; [|discriminate].
  intros Hpost. now exists ph1, ph2.
Qed.

Lemma step_to_Worked rc ph e p :
  step rc ph e = Some (Worked p) -> ph = Opened p /\ e = EvWorktree p None.
Proof.
  intros H. destruct ph, e; step_inv H. auto.
Qed.

Lemma step_to_Opened rc ph e p :
  step rc ph e = Some (Opened p) -> ph = Cloned p /\ e = EvPlainOpen p None.
Proof.
  intros H. destruct ph, e; step_inv H. auto.
Qed.

Lemma step_to_Cloned rc ph e p :
  step rc ph e = Some (Cloned p) ->
  exists subPath o err,
    ph = Announced subPath /\ e = EvPlainClone p false o err /\
    p = Join [destDir rc; subPath] /\
    failure err ErrRepositoryAlreadyExists = None.
Proof.
  intros H. destruct ph, e; step_inv H. eauto 8.
Qed.

Lemma step_to_Announced rc ph e subPath :
  step rc ph e = Some (Announced subPath) ->
  ph = Idle /\
  exists first key, e = EvLog Info [first; (key, StringValue subPath)] "get repo".
Proof.
  intros H. destruct ph, e; step_inv H. eauto.
Qed.

Lemma step_to_Failed rc ph e err :
  step rc ph e = Some (Failed err) -> callError e = Some err.
Proof.
  intros H. destruct ph, e; step_inv H; cbn [callError]; solve [assumption | reflexivity].
Qed.

Lemma step_from_Failed rc err e ph :
  step rc (Failed err) e = Some ph ->
  ph = Idle /\ exists attrs msg, e = EvLog Error_ attrs msg /\ endsWithError attrs err = true.
Proof.
  intros H. destruct e; cbn in H; try discriminate H; step_cases H.
  injection H as <-. eauto.
Qed.

Lemma step_PlainClone rc ph path isBare o err ph' :
  step rc ph (EvPlainClone path isBare o err) = Some ph' -> exists s, ph = Announced s.
Proof. destruct ph; cbn; try discriminate; eauto. Qed.

Lemma step_PlainOpen rc ph path err ph' :
  step rc ph (EvPlainOpen path err) = Some ph' -> ph = Cloned path.
Proof.
  destruct ph; cbn; try discriminate.
  destruct (String.eqb path path0) eqn:E; [|discriminate].
  apply String.eqb_eq in E. now subst.
Qed.

Lemma step_Worktree rc ph path err ph' :
  step rc ph (EvWorktree path err) = Some ph' -> ph = Opened path.
Proof.
  destruct ph; cbn; try discriminate.
  destruct (String.eqb path path0) eqn:E; [|discriminate].
  apply String.eqb_eq in E. now subst.
Qed.

Lemma step_Pull rc ph path o err ph' :
  step rc ph (EvPull path o err) = Some ph' -> ph = Worked path.
Proof.
  destruct ph; cbn; try discriminate.
  destruct (String.eqb path path0) eqn:E; [|discriminate].
  apply String.eqb_eq in E. now subst.
Qed.

Lemma step_ErrorLog rc ph attrs msg ph' :
  step rc ph (EvLog Error_ attrs msg) = Some ph' ->
  exists err, ph = Failed err /\ endsWithError attrs err = true.
Proof.
  destruct ph; cbn; try discriminate.
  destruct (endsWithError attrs e) eqn:E; [|discriminate]. eauto.
Qed.

(** The event just before a place of an accepted trace, read from the
    phase reached there. *)
Lemma runFrom_reaches rc tr ph :
  runFrom rc Idle tr = Some ph -> ph <> Idle ->
  exists tr' e ph1,
    tr = tr' ++ [e] /\ runFrom rc Idle tr' = Some ph1 /\ step rc ph1 e = Some ph.
Proof.
  intros Hrun Hne. destruct (runFrom_last _ _ _ _ Hrun) as [->|H]; [easy|exact H].
Qed.

Section ProtocolOfARun.

Context {W R T : Type}.
Variable svc : Services W R T.
Variable rc : RepoCloner.

(** X1: every run of the traversal talks to the version-control backend in
    the order announce, clone, open, worktree, pull, on one path: each
    clone directly follows the [get repo] line whose prefix gives its
    path under the destination root, each open directly follows a clone
    of the same path that did not fail (already existing counts as
    success), each worktree directly follows a successful open, and each
    pull directly follows a successful worktree of the same path. *)
Theorem backend_calls_follow_the_sync_order
  (fuel : nat) (groupIDs projectIDs : list Z) (w w' : W) (tr : Trace)
  (Hrun : traverse svc rc fuel groupIDs projectIDs w = Some (tt, tr, w')) :
  runFrom rc Idle tr = Some Idle /\
  (forall pre post path isBare o err,
      tr = pre ++ EvPlainClone path isBare o err :: post ->
      isBare = false /\
      exists pre' first key subPath,
        pre = pre' ++ [EvLog Info [first; (key, StringValue subPath)] "get repo"] /\
        path = Join [destDir rc; subPath]) /\
  (forall pre post path err,
      tr = pre ++ EvPlainOpen path err :: post ->
      exists pre' o cloneErr,
        pre = pre' ++ [EvPlainClone path false o cloneErr] /\
        failure cloneErr ErrRepositoryAlreadyExists = None) /\
  (forall pre post path err,
      tr = pre ++ EvWorktree path err :: post ->
      exists pre', pre = pre' ++ [EvPlainOpen path None]) /\
  (forall pre post path o err,
      tr = pre ++ EvPull path o err :: post ->
      exists pre', pre = pre' ++ [EvWorktree path None]).
Proof.
  pose proof (traverse_protocol svc rc _ _ _ _ _ _ Hrun) as Hok.
  split; [exact Hok|].
  repeat split.
  - subst tr. destruct (runFrom_split _ _ _ _ _ _ Hok) as (ph1 & ph2 & _ & Hstep & _).
    destruct ph1; cbn in Hstep; try discriminate Hstep.
    destruct (String.eqb path (Join [destDir rc; subPath]) && negb isBare)%bool eqn:E;
      [|discriminate].
    apply andb_true_iff in E. destruct E as [_ E]. now apply negb_true_iff in E.
  - subst tr. destruct (runFrom_split _ _ _ _ _ _ Hok) as (ph1 & ph2 & Hpre & Hstep & _).
    pose proof Hstep as Hstep'.
    apply step_PlainClone in Hstep as [subPath ->].
    destruct (runFrom_reaches _ _ _ Hpre) as (pre' & e & ph0 & -> & _ & Hlast);
      [discriminate|].
    apply step_to_Announced in Hlast as (_ & first & key & ->).
    exists pre', first, key, subPath. split; [reflexivity|].
    cbn in Hstep'.
    destruct (String.eqb path (Join [destDir rc; subPath]) && negb isBare)%bool eqn:E;
      [|discriminate].
    apply andb_true_iff in E. destruct E as [E _]. now apply String.eqb_eq in E.
  - intros pre post path err ->.
    destruct (runFrom_split _ _ _ _ _ _ Hok) as (ph1 & ph2 & Hpre & Hstep & _).
    apply step_PlainOpen in Hstep as ->.
    destruct (runFrom_reaches _ _ _ Hpre) as (pre' & e & ph0 & -> & _ & Hlast);
      [discriminate|].
    apply step_to_Cloned in Hlast as (subPath & o & cerr & _ & -> & _ & Hf).
    now exists pre', o, cerr.
  - intros pre post path err ->.
    destruct (runFrom_split _ _ _ _ _ _ Hok) as (ph1 & ph2 & Hpre & Hstep & _).
    apply step_Worktree in Hstep as ->.
    destruct (runFrom_reaches _ _ _ Hpre) as (pre' & e & ph0 & -> & _ & Hlast);
      [discriminate|].
    apply step_to_Opened in Hlast as (_ & ->). now exists pre'.
  - intros pre post path o err ->.
    destruct (runFrom_split _ _ _ _ _ _ Hok) as (ph1 & ph2 & Hpre & Hstep & _).
    apply step_Pull in Hstep as ->.
    destruct (runFrom_reaches _ _ _ Hpre) as (pre' & e & ph0 & -> & _ & Hlast);
      [discriminate|].
    apply step_to_Worked in Hlast as (_ & ->). now exists pre'.
Qed.

(** X3: error lines and failed calls correspond one to one in every run of
    the traversal: each call of a service that failed (the two benign
    answers of the backend apart) is directly followed by an error line
    whose last attribute is that call's error, each error line directly
    follows such a call, and so there are as many error lines as failed
    calls. *)
Theorem one_error_line_per_failed_call
  (fuel : nat) (groupIDs projectIDs : list Z) (w w' : W) (tr : Trace)
  (Hrun : traverse svc rc fuel groupIDs projectIDs w = Some (tt, tr, w')) :
  countEvents isErrorLog tr = countEvents failedCall tr /\
  (forall pre post call err,
      tr = pre ++ call :: post -> callError call = Some err ->
      exists attrs msg post',
        post = EvLog Error_ attrs msg :: post' /\ endsWithError attrs err = true) /\
  (forall pre post attrs msg,
      tr = pre ++ EvLog Error_ attrs msg :: post ->
      exists pre' call err,
        pre = pre' ++ [call] /\ callError call = Some err /\
        endsWithError attrs err = true).
Proof.
  pose proof (traverse_protocol svc rc _ _ _ _ _ _ Hrun) as Hok.
  split; [|split].
  - pose proof (runFrom_counts _ _ _ _ Hok) as H. cbn [pending] in H. lia.
  - intros pre post call err -> Hcall.
    destruct (runFrom_split _ _ _ _ _ _ Hok) as (ph1 & ph2 & _ & Hstep & Hpost).
    assert (ph2 = Failed err) as ->.
    { destruct ph1, call; cbn in Hstep, Hcall; try discriminate;
        step_cases Hstep; try discriminate;
        try (rewrite Hcall in Hstep; cbn in Hstep; congruence);
        injection Hstep as <-; congruence. }
    destruct post as [|e post']; [discriminate|].
    cbn [runFrom] in Hpost.
    destruct (step rc (Failed err) e) as [ph3|] eqn:Hnext; [|discriminate].
    apply step_from_Failed in Hnext as (_ & attrs & msg & -> & Hends).
    now exists attrs, msg, post'.
  - intros pre post attrs msg ->.
    destruct (runFrom_split _ _ _ _ _ _ Hok) as (ph1 & ph2 & Hpre & Hstep & _).
    apply step_ErrorLog in Hstep as (err & -> & Hends).
    destruct (runFrom_reaches _ _ _ Hpre) as (pre' & call & ph0 & -> & _ & Hlast);
      [discriminate|].
    apply step_to_Failed in Hlast. now exists pre', call, err.
Qed.

End ProtocolOfARun.

(** ** A sync goes on until a call fails *)

Lemma runFrom_continues rc ph post :
  runFrom rc ph post = Some Idle -> ph <> Idle ->
  exists e post' ph', post = e :: post' /\ step rc ph e = Some ph'.
Proof.
  destruct post as [|e post']; [intros [= ->]; easy|].
  cbn [runFrom]. destruct (step rc ph e) as [ph'|] eqn:Hstep; [|discriminate].
  intros _ _. now exists e, post', ph'.
Qed.

Lemma step_from_Announced rc subPath e ph :
  step rc (Announced subPath) e = Some ph ->
  exists o err, e = EvPlainClone (Join [destDir rc; subPath]) false o err.
Proof.
  intros H. destruct e; cbn [step] in H; try discriminate H. step_cases H.
  eqb_facts. subst. eauto.
Qed.

Lemma step_from_Cloned rc path e ph :
  step rc (Cloned path) e = Some ph -> exists err, e = EvPlainOpen path err.
Proof.
  intros H. destruct e; cbn [step] in H; try discriminate H. step_cases H.
  eqb_facts. subst. eauto.
Qed.

Lemma step_from_Opened rc path e ph :
  step rc (Opened path) e = Some ph -> exists err, e = EvWorktree path err.
Proof.
  intros H. destruct e; cbn [step] in H; try discriminate H. step_cases H.
  eqb_facts. subst. eauto.
Qed.

Lemma step_from_Worked rc path e ph :
  step rc (Worked path) e = Some ph ->
  exists o err, e = EvPull path o err /\ Force o = true /\ RemoteName o = "origin".
Proof.
  intros H. destruct e; cbn [step] in H; try discriminate H. step_cases H.
  eqb_facts. subst. eauto.
Qed.

Section Onward.
Context {W R T : Type}.
Variable svc : Services W R T.
Variable rc : RepoCloner.

(** X2: a sync goes on until a call fails: in every run, the [get repo] line
    of a sync is directly followed by the clone into that path under the
    destination root; a clone that did not fail (already existing counts
    as success) is directly followed by the open of the same path, a
    successful open by the worktree, and a successful worktree by the
    forced pull from [origin].  No step is left out and nothing comes in
    between. *)
Theorem sync_goes_on_until_a_call_fails
  (fuel : nat) (groupIDs projectIDs : list Z) (w w' : W) (tr : Trace)
  (Hrun : traverse svc rc fuel groupIDs projectIDs w = Some (tt, tr, w')) :
  (forall pre post first key subPath,
      tr = pre ++ EvLog Info [first; (key, StringValue subPath)] "get repo" :: post ->
      exists o err post',
        post = EvPlainClone (Join [destDir rc; subPath]) false o err :: post') /\
  (forall pre post path isBare o err,
      tr = pre ++ EvPlainClone path isBare o err :: post ->
      failure err ErrRepositoryAlreadyExists = None ->
      exists openErr post', post = EvPlainOpen path openErr :: post') /\
  (forall pre post path,
      tr = pre ++ EvPlainOpen path None :: post ->
      exists err post', post = EvWorktree path err :: post') /\
  (forall pre post path,
      tr = pre ++ EvWorktree path None :: post ->
      exists o err post',
        post = EvPull path o err :: post' /\
        Force o = true /\ RemoteName o = "origin").
Proof.
  pose proof (traverse_protocol svc rc _ _ _ _ _ _ Hrun) as Hok.
  split; [|split; [|split]].
  - intros pre post first key subPath ->.
    destruct (runFrom_split _ _ _ _ _ _ Hok) as (ph1 & ph2 & _ & Hstep & Hpost).
    assert (ph2 = Announced subPath) as ->.
    { destruct ph1; cbn in Hstep; try discriminate Hstep. now injection Hstep as <-. }
    destruct (runFrom_continues _ _ _ Hpost) as (e & post' & ph' & -> & Hnext);
      [discriminate|].
    apply step_from_Announced in Hnext as (o & err & ->). eauto.
  - intros pre post path isBare o err -> Hfine.
    destruct (runFrom_split _ _ _ _ _ _ Hok) as (ph1 & ph2 & _ & Hstep & Hpost).
    assert (ph2 = Cloned path) as ->.
    { destruct ph1; cbn [step] in Hstep; try discriminate Hstep. step_cases Hstep.
      rewrite Hfine in Hstep. now injection Hstep as <-. }
    destruct (runFrom_continues _ _ _ Hpost) as (e & post' & ph' & -> & Hnext);
      [discriminate|].
    apply step_from_Cloned in Hnext as (oerr & ->). eauto.
  - intros pre post path ->.
    destruct (runFrom_split _ _ _ _ _ _ Hok) as (ph1 & ph2 & _ & Hstep & Hpost).
    assert (ph2 = Opened path) as ->.
    { pose proof Hstep as Hph. apply step_PlainOpen in Hph as ->.
      cbn [step] in Hstep. rewrite String.eqb_refl in Hstep.
      now injection Hstep as <-. }
    destruct (runFrom_continues _ _ _ Hpost) as (e & post' & ph' & -> & Hnext);
      [discriminate|].
    apply step_from_Opened in Hnext as (err & ->). eauto.
  - intros pre post path ->.
    destruct (runFrom_split _ _ _ _ _ _ Hok) as (ph1 & ph2 & _ & Hstep & Hpost).
    assert (ph2 = Worked path) as ->.
    { pose proof Hstep as Hph. apply step_Worktree in Hph as ->.
      cbn [step] in Hstep. rewrite String.eqb_refl in Hstep.
      now injection Hstep as <-. }
    destruct (runFrom_continues _ _ _ Hpost) as (e & post' & ph' & -> & Hnext);
      [discriminate|].
    apply step_from_Worked in Hnext as (o & err & -> & Hforce & Hname). eauto 6.
Qed.

End Onward.

(** ** The context of an error line *)

Lemma audited_app rc t1 :
  forall ctx t2,
    audited rc ctx t1 -> audited rc (fold_left advance t1 ctx) t2 ->
    audited rc ctx (t1 ++ t2).
Proof.
  induction t1 as [|e t1 IH]; intros ctx t2 H1 H2; [exact H2|].
  cbn [app audited fold_left] in *. destruct H1 as [He H1]. split.
  - intros Hcall. destruct (He Hcall) as (log & Hlog & Hline).
    exists log. split; [exact Hlog|].
    intros err Herr. destruct (Hline err Herr) as (post' & ->).
    exists (post' ++ t2). reflexivity.
  - apply IH; assumption.
Qed.

(** What an audit says of each place of the trace. *)
Lemma audited_at rc pre :
  forall ctx call post,
    audited rc ctx (pre ++ call :: post) ->
    accounted rc (fold_left advance pre ctx) call post.
Proof.
  induction pre as [|e pre IH]; intros ctx call post H.
  - exact (proj1 H).
  - exact (IH _ _ _ (proj2 H)).
Qed.

Lemma accounted_log rc ctx lvl attrs msg post :
  accounted rc ctx (EvLog lvl attrs msg) post.
Proof. intros H. discriminate H. Qed.

Lemma audited_errorLine rc ctx log msg failed :
  audited rc ctx (errorLine log msg failed).
Proof.
  destruct failed; cbn; [split; [apply accounted_log | exact I] | exact I].
Qed.

Lemma advance_errorLine ctx log msg failed :
  fold_left advance (errorLine log msg failed) ctx = ctx.
Proof. destruct failed; reflexivity. Qed.

Section Audit.
Context {W R T : Type}.
Variable svc : Services W R T.
Variable rc : RepoCloner.

(** The sync of the project that is next in the queue. *)
Lemma gitClone_audited ctx project dest rest w :
  queue ctx = (dest, project) :: rest ->
  audited rc ctx (snd (fst (gitClone svc rc project dest w))) /\
  queue (fold_left advance (snd (fst (gitClone svc rc project dest w))) ctx) = rest /\
  lastGroup (fold_left advance (snd (fst (gitClone svc rc project dest w))) ctx)
  = lastGroup ctx.
Proof.
  intros Hq. rewrite gitClone_eq. cbn zeta.
  set (ctx1 := advance ctx (EvLog Info (projectLog dest project) "get repo")).
  assert (Hsync : syncOf ctx1 = Some (dest, project))
    by (unfold ctx1; cbn; rewrite Hq; reflexivity).
  assert (Hq1 : queue ctx1 = rest) by (unfold ctx1; cbn; rewrite Hq; reflexivity).
  assert (Hg1 : lastGroup ctx1 = lastGroup ctx) by reflexivity.
  assert (Hsubject : forall call,
            isGitCall call = true ->
            match call with
            | EvPlainClone path _ _ _ | EvPlainOpen path _ | EvWorktree path _
            | EvPull path _ _ => path = destination rc dest project
            | _ => True
            end ->
            subjectOf rc ctx1 call = Some (projectLog dest project)).
  { intros call Hcall Hpath.
    destruct call; try discriminate Hcall; cbn [subjectOf]; rewrite Hsync; subst;
      rewrite String.eqb_refl; reflexivity. }
  assert (Hfine : forall call post,
            isGitCall call = true ->
            match call with
            | EvPlainClone path _ _ _ | EvPlainOpen path _ | EvWorktree path _
            | EvPull path _ _ => path = destination rc dest project
            | _ => True
            end ->
            callError call = None -> accounted rc ctx1 call post).
  { intros call post Hcall Hpath Hnone _. exists (projectLog dest project).
    split; [apply Hsubject; assumption|]. intros err Herr. congruence. }
  assert (Hfail : forall call msg err,
            isGitCall call = true ->
            match call with
            | EvPlainClone path _ _ _ | EvPlainOpen path _ | EvWorktree path _
            | EvPull path _ _ => path = destination rc dest project
            | _ => True
            end ->
            callError call = Some err -> stepMessage call = msg ->
            accounted rc ctx1 call
              (errorLine (projectLog dest project) msg (Some err))).
  { intros call msg err Hcall Hpath Herr <- _. exists (projectLog dest project).
    split; [apply Hsubject; assumption|]. intros err' Herr'.
    rewrite Herr in Herr'. injection Herr' as <-. eexists. reflexivity. }
  destruct (PlainClone svc _ false _ w) as [ce w1].
  destruct (failure ce ErrRepositoryAlreadyExists) as [e|] eqn:Hce.
  { cbn [fst snd app audited fold_left]. fold ctx1.
    cbn [advance].
    repeat split; try apply accounted_log; try assumption.
    apply (Hfail _ "clone repo error" e); [reflexivity..|exact Hce|reflexivity]. }
  destruct (PlainOpen svc _ w1) as [[repo|e] w2].
  2:{ cbn [fst snd app audited fold_left]. fold ctx1.
      cbn [advance].
      repeat split; try apply accounted_log; try assumption.
      - apply Hfine; [reflexivity..|exact Hce].
      - apply (Hfail _ "open repo error" e); reflexivity. }
  destruct (Worktree svc repo w2) as [[work|e] w3].
  2:{ cbn [fst snd app audited fold_left]. fold ctx1.
      cbn [advance].
      repeat split; try apply accounted_log; try assumption.
      - apply Hfine; [reflexivity..|exact Hce].
      - apply Hfine; reflexivity.
      - apply (Hfail _ "worktree repo error" e); reflexivity. }
  destruct (Pull svc work _ w3) as [pe w4].
  cbn [fst snd app audited fold_left]. fold ctx1.
  cbn [advance].
  destruct (failure pe NoErrAlreadyUpToDate) as [e|] eqn:Hpe.
  - cbn [errorLine audited fold_left].
    repeat split; try apply accounted_log; try assumption.
    + apply Hfine; [reflexivity..|exact Hce].
    + apply Hfine; reflexivity.
    + apply Hfine; reflexivity.
    + apply (Hfail _ "pull repo error" e); [reflexivity..|exact Hpe|reflexivity].
  - cbn [errorLine audited fold_left].
    repeat split; try assumption.
    + apply accounted_log.
    + apply Hfine; [reflexivity..|exact Hce].
    + apply Hfine; reflexivity.
    + apply Hfine; reflexivity.
    + apply Hfine; [reflexivity..|exact Hpe].
Qed.

(** The loop over a listing syncs the projects in the order in which
    they are queued. *)
Lemma forEach_gitClone_audited dest projects :
  forall ctx rest w,
    queue ctx = map (pair dest) projects ++ rest ->
    audited rc ctx
      (snd (fst (forEach (fun project => gitClone svc rc project dest) projects w))) /\
    queue (fold_left advance
             (snd (fst (forEach (fun project => gitClone svc rc project dest)
                          projects w))) ctx) = rest /\
    lastGroup (fold_left advance
                 (snd (fst (forEach (fun project => gitClone svc rc project dest)
                              projects w))) ctx) = lastGroup ctx.
Proof.
  induction projects as [|p l IH]; intros ctx rest w Hq; [cbn; auto|].
  rewrite forEach_cons.
  destruct (gitClone_audited ctx p dest (map (pair dest) l ++ rest) w Hq)
    as (Ha & Hq1 & Hg1).
  destruct (gitClone svc rc p dest w) as [[[] t1] w1]. cbn [fst snd] in *.
  destruct (IH _ rest w1 Hq1) as (Hb & Hq2 & Hg2).
  destruct (forEach _ l w1) as [[[] t2] w2]. cbn [fst snd] in *.
  rewrite fold_left_app. split; [apply audited_app; assumption|].
  split; [exact Hq2 | congruence].
Qed.

Lemma forEachD_audited {A : Type} (body : A -> Div W unit) l :
  (forall ctx x w tr w', body x w = Some (tt, tr, w') -> audited rc ctx tr) ->
  forall ctx w tr w', forEachD body l w = Some (tt, tr, w') -> audited rc ctx tr.
Proof.
  intros Hbody. induction l as [|x l IH]; intros ctx w tr w'.
  - intros [= <- <-]. exact I.
  - rewrite forEachD_cons.
    destruct (body x w) as [[[[] t1] w1]|] eqn:Hx; [|discriminate].
    destruct (forEachD body l w1) as [[[[] t2] w2]|] eqn:Hl; [|discriminate].
    intros [= <- <-]. apply audited_app; [eapply Hbody, Hx | eapply IH, Hl].
Qed.

Lemma forEach_audited {A : Type} (body : A -> Eff W unit) l :
  (forall ctx x w, audited rc ctx (snd (fst (body x w)))) ->
  forall ctx w, audited rc ctx (snd (fst (forEach body l w))).
Proof.
  intros Hbody. induction l as [|x l IH]; intros ctx w; [exact I|].
  rewrite forEach_cons. assert (Hx := Hbody ctx x w).
  destruct (body x w) as [[[] t1] w1]. cbn [fst snd] in Hx.
  assert (Hl := IH (fold_left advance t1 ctx) w1).
  destruct (forEach body l w1) as [[[] t2] w2]. cbn [fst snd] in *.
  apply audited_app; assumption.
Qed.

Lemma Project_audited ctx projectID w :
  audited rc ctx (snd (fst (Project svc rc projectID w))).
Proof.
  rewrite Project_eq.
  destruct (slices_Contains (ignoreProjectIDs rc) projectID).
  { cbn. split; [apply accounted_log | exact I]. }
  destruct (GetProject svc projectID w) as [[project|e] w1].
  - set (ctx1 := advance ctx (EvGetProject projectID (Ok project))).
    destruct (gitClone_audited ctx1 project "" [] w1 eq_refl) as (Ha & _).
    destruct (gitClone svc rc project "" w1) as [[[] t] w2]. cbn [fst snd] in *.
    split; [|exact Ha].
    intros _. eexists. split; [reflexivity|]. intros err Herr. discriminate Herr.
  - cbn [fst snd errorLine audited]. split; [|split; [apply accounted_log | exact I]].
    intros _. eexists. split; [reflexivity|].
    intros err [= <-]. eexists. reflexivity.
Qed.

Lemma Group_audited fuel :
  forall ctx groupID w tr w',
    Group svc rc fuel groupID w = Some (tt, tr, w') -> audited rc ctx tr.
Proof.
  induction fuel as [|fuel IH]; intros ctx groupID w tr w'; [discriminate|].
  rewrite Group_eq. cbn zeta.
  destruct (slices_Contains (ignoreGroupIDs rc) groupID).
  { intros H. injection H as <- <-. split; [apply accounted_log | exact I]. }
  destruct (GetGroup svc groupID listOptions w) as [[group|e] w1].
  2:{ intros H. injection H as <- <-.
      split; [|split; [apply accounted_log | exact I]].
      intros _. exists (groupLog groupID). split; [reflexivity|].
      intros err [= <-]. eexists. reflexivity. }
  set (log := groupLog groupID ++ [("group", StringValue (Group_FullPath group))]).
  set (ctx1 := advance ctx (EvGetGroup groupID listOptions (Ok group))).
  assert (Hlisting : forall id, id = Group_ID group ->
            match lastGroup ctx1 with
            | Some (gid, g) =>
                if Z.eqb id (Group_ID g)
                then Some (groupLog gid ++ [("group", StringValue (Group_FullPath g))])
                else None
            | None => None
            end = Some log).
  { intros id ->. cbn. rewrite Z.eqb_refl. reflexivity. }
  destruct (ListGroupProjects svc (Group_ID group) listOptions w1)
    as [[projects|e] w2].
  2:{ intros H. injection H as <- <-.
      split; [intros _; exists (groupLog groupID); split; [reflexivity|];
              intros err Herr; discriminate Herr|].
      split; [apply accounted_log|].
      split; [|split; [apply accounted_log | exact I]].
      intros _. exists log. split; [exact (Hlisting _ eq_refl)|].
      intros err [= <-]. eexists. reflexivity. }
  set (ctx2 := advance ctx1 (EvListGroupProjects (Group_ID group) listOptions
                               (Ok projects))).
  assert (Hq : queue ctx2 = map (pair (Group_FullPath group)) projects ++ [])
    by (rewrite app_nil_r; reflexivity).
  destruct (forEach_gitClone_audited (Group_FullPath group) projects ctx2 [] w2 Hq)
    as (Hp & _ & Hg).
  destruct (forEach _ projects w2) as [[[] tp] w3]. cbn [fst snd] in Hp, Hg.
  assert (Hsub : forall rs,
            accounted rc (fold_left advance tp ctx2)
              (EvListSubGroups (Group_ID group) listOptions rs)
              (errorLine log "list subgroups error" (errOf rs))).
  { intros rs _. exists log. split.
    - cbn [subjectOf]. rewrite Hg. exact (Hlisting _ eq_refl).
    - intros err Herr. cbn [callError] in Herr. rewrite Herr. eexists. reflexivity. }
  assert (Hhead : forall rest,
            audited rc ctx2 rest ->
            audited rc ctx
              ([EvGetGroup groupID listOptions (Ok group);
                EvLog Info log "get group repos";
                EvListGroupProjects (Group_ID group) listOptions (Ok projects)]
                 ++ rest)).
  { intros rest Hrest. cbn [app audited]. split; [|split; [apply accounted_log|split]].
    - intros _. exists (groupLog groupID). split; [reflexivity|].
      intros err Herr. discriminate Herr.
    - intros _. exists log. split; [exact (Hlisting _ eq_refl)|].
      intros err Herr. discriminate Herr.
    - exact Hrest. }
  destruct (ListSubGroups svc (Group_ID group) listOptions w3)
    as [[groups|e] w4].
  - destruct (forEachD _ groups w4) as [[[[] ts] w5]|] eqn:Hrec; [|discriminate].
    intros H. injection H as <- <-. apply Hhead.
    apply audited_app; [exact Hp|]. split.
    + intros _. destruct (Hsub (Ok groups) eq_refl) as (l & Hl & _).
      exists l. split; [exact Hl|]. intros err Herr. discriminate Herr.
    + eapply forEachD_audited; [|exact Hrec].
      intros ctx0 g w0 tr0 w0' Hg0. exact (IH _ _ _ _ _ Hg0).
  - intros H. injection H as <- <-. apply Hhead.
    apply audited_app; [exact Hp|]. split; [exact (Hsub (Err e))|].
    apply (audited_errorLine rc _ log "list subgroups error" (Some e)).
Qed.

Lemma traverse_audited fuel groupIDs projectIDs w tr w' :
  traverse svc rc fuel groupIDs projectIDs w = Some (tt, tr, w') ->
  audited rc noContext tr.
Proof.
  unfold traverse. intros Hrun.
  apply bindD_Some in Hrun as ([] & t1 & w1 & t2 & Hg & Hp & ->).
  apply audited_app.
  - eapply forEachD_audited; [|exact Hg].
    intros ctx gid w0 tr0 w0' H. exact (Group_audited _ _ _ _ _ _ H).
  - unfold lift in Hp. injection Hp as Hp.
    assert (H := forEach_audited (Project svc rc) projectIDs
                   (fun ctx p w0 => Project_audited ctx p w0)
                   (fold_left advance t1 noContext) w1).
    rewrite Hp in H. exact H.
Qed.

(** X4: every call of a run is about the group or the project at hand,
    and the error line of a failed call says so.  A listing asks for the
    group that the last successful fetch answered; a backend call is on
    the destination of the project of the last [get repo] line, which is
    the next project, in order, of the last listing, or the root project
    just fetched.  When a call failed, the next event is the error line
    of its step, and its attributes are those of that subject (the group
    identifier asked for; that identifier and the full path the fetch
    answered; the project identifier asked for; the identifier of the
    project being synced and its path below the destination root),
    followed by the error of the call. *)
Theorem every_error_line_has_its_context
  (fuel : nat) (groupIDs projectIDs : list Z) (w w' : W) (tr : Trace)
  (Hrun : traverse svc rc fuel groupIDs projectIDs w = Some (tt, tr, w')) :
  forall pre call post,
    tr = pre ++ call :: post ->
    (isDirectoryCall call || isGitCall call)%bool = true ->
    exists log,
      subjectOf rc (contextAfter pre) call = Some log /\
      forall err, callError call = Some err ->
        exists post',
          post = EvLog Error_ (log ++ errorAttr err) (stepMessage call) :: post'.
Proof.
  intros pre call post -> Hcall.
  exact (audited_at rc pre noContext call post (traverse_audited _ _ _ _ _ _ Hrun) Hcall).
Qed.

End Audit.

(** ** The excluded projects and the group roots *)

Lemma forEach_ext_in {W A : Type} (f g : A -> Eff W unit) l :
  (forall x, In x l -> forall w, f x w = g x w) ->
  forall w, forEach f l w = forEach g l w.
Proof.
  induction l as [|x l IH]; intros Hfg w; [reflexivity|].
  rewrite !forEach_cons, (Hfg x (or_introl eq_refl)).
  destruct (g x w) as [[[] t1] w1].
  rewrite (IH (fun y Hy => Hfg y (or_intror Hy))). reflexivity.
Qed.

Section ExcludedProjects.
Context {W R T : Type}.
Variable svc : Services W R T.
Variable rc : RepoCloner.

(** X7: the list of excluded projects is read for the root projects only:
    two runs whose lists agree on the root projects do the same, call
    for call, whatever else the lists hold.  So a project that a group
    lists is synced whether it is excluded or not. *)
Theorem excluded_projects_matter_for_root_projects_only
  (ids : list Z) (fuel : nat) (groupIDs projectIDs : list Z) (w : W)
  (Hroots : forall pid, In pid projectIDs ->
              slices_Contains ids pid = slices_Contains (ignoreProjectIDs rc) pid) :
  traverse svc (withIgnoredProjects ids rc) fuel groupIDs projectIDs w
  = traverse svc rc fuel groupIDs projectIDs w.
Proof.
  unfold traverse, bindD.
  rewrite (forEachD_ext_eq (Group svc (withIgnoredProjects ids rc) fuel)
             (Group svc rc fuel) groupIDs
             (fun g w0 => Group_ignores_excluded_projects svc rc ids fuel g w0)).
  destruct (forEachD (Group svc rc fuel) groupIDs w) as [[[[] t1] w1]|]; [|reflexivity].
  unfold lift.
  rewrite (forEach_ext_in (Project svc (withIgnoredProjects ids rc)) (Project svc rc)
             projectIDs); [reflexivity|].
  intros pid Hpid w0. rewrite !Project_eq.
  cbn [withIgnoredProjects ignoreProjectIDs]. rewrite (Hroots pid Hpid).
  reflexivity.
Qed.

End ExcludedProjects.

(** ** Counting what a run did *)





Section Counting.
Context {W R T : Type}.
Variable svc : Services W R T.
Variable rc : RepoCloner.











End Counting.

(** ** No way out of a cycle *)

Lemma forEachD_None {W A : Type} (body : A -> Div W unit) l x :
  In x l -> (forall w, body x w = None) -> forall w, forEachD body l w = None.
Proof.
  intros Hin Hx. induction l as [|y l IH]; [destruct Hin|].
  intros w. rewrite forEachD_cons. destruct Hin as [->|Hin].
  - rewrite Hx. reflexivity.
  - destruct (body y w) as [[[[] t1] w1]|]; [|reflexivity].
    rewrite (IH Hin w1). reflexivity.
Qed.

Section Trapped.
Context {W R T : Type}.
Variable svc : Services W R T.
Variable rc : RepoCloner.

(** X8: nothing detects a cycle or bounds the depth: when the directory
    service keeps answering, below a group that is not excluded, with a
    subgroup that leads back into the same set of groups, the visit of
    that group does not return, whatever the depth allowed; neither does
    a run that has it among its roots. *)
Theorem Group_never_returns_from_a_trap
  (inside : Z -> Prop) (Htrap : trap svc rc inside) :
  (forall fuel gid w, inside gid -> Group svc rc fuel gid w = None) /\
  (forall fuel groupIDs projectIDs gid w,
      inside gid -> In gid groupIDs ->
      traverse svc rc fuel groupIDs projectIDs w = None).
Proof.
  assert (Hgroup : forall fuel gid w, inside gid -> Group svc rc fuel gid w = None).
  { induction fuel as [|fuel IH]; intros gid w Hin; [reflexivity|].
    rewrite Group_eq. cbn zeta.
    destruct (Htrap gid Hin) as (-> & Hfetch).
    destruct (Hfetch w) as (g & Hg & Hlist).
    destruct (GetGroup svc gid listOptions w) as [rg w1]. cbn [fst] in Hg. subst rg.
    destruct (Hlist w1) as (projects & Hp & Hsub).
    destruct (ListGroupProjects svc (Group_ID g) listOptions w1) as [rp w2].
    cbn [fst] in Hp. subst rp.
    destruct (forEach _ projects w2) as [[[] tp] w3].
    destruct (Hsub w3) as (groups & g' & Hs & Hg' & Hinside).
    destruct (ListSubGroups svc (Group_ID g) listOptions w3) as [rs w4].
    cbn [fst] in Hs. subst rs.
    rewrite (forEachD_None (fun g0 => Group svc rc fuel (Group_ID g0)) groups g' Hg'
               (fun w0 => IH _ w0 Hinside)).
    reflexivity. }
  split; [exact Hgroup|].
  intros fuel groupIDs projectIDs gid w Hin Hroot. unfold traverse, bindD.
  rewrite (forEachD_None (Group svc rc fuel) groupIDs gid Hroot
             (fun w0 => Hgroup fuel gid w0 Hin)).
  reflexivity.
Qed.

End Trapped.

(** ** Where [path.Join] puts a repository *)

Lemma components_nonempty s : components s <> [].
Proof.
  destruct s as [|c s]; cbn; [discriminate|].
  destruct (Ascii.eqb c slash); [discriminate|].
  destruct (components s); discriminate.
Qed.

Lemma components_noSlash s : Forall (fun c => noSlash c = true) (components s).
Proof.
  induction s as [|c s IH]; cbn [components]; [repeat constructor|].
  destruct (Ascii.eqb c slash) eqn:Hc; [constructor; [reflexivity|exact IH]|].
  destruct (components s) as [|x xs]; [repeat constructor; cbn; now rewrite Hc|].
  inversion IH as [|? ? Hx Hxs]; subst. constructor; [|exact Hxs].
  cbn. rewrite Hc, Hx. reflexivity.
Qed.

Lemma components_single x : noSlash x = true -> components x = [x].
Proof.
  induction x as [|c x IH]; [reflexivity|]. cbn [noSlash components].
  intros H. apply andb_true_iff in H as [Hc Hx]. apply negb_true_iff in Hc.
  rewrite Hc, (IH Hx). reflexivity.
Qed.

Lemma components_app_slash a b :
  components (a +:+ String slash b) = components a ++ components b.
Proof.
  induction a as [|c a IH]; [reflexivity|].
  change (String c a +:+ String slash b) with (String c (a +:+ String slash b)).
  cbn [components]. rewrite IH.
  destruct (Ascii.eqb c slash); [reflexivity|].
  destruct (components a) as [|x xs] eqn:Ha; [|reflexivity].
  now destruct (components_nonempty a).
Qed.

Lemma concat_cons2 x y l :
  String.concat "/" (x :: y :: l) = x +:+ String slash (String.concat "/" (y :: l)).
Proof. reflexivity. Qed.


Lemma components_concat l :
  Forall (fun c => noSlash c = true) l -> l <> [] ->
  components (String.concat "/" l) = l.
Proof.
  induction l as [|x l IH]; [easy|]. intros Hall _.
  inversion Hall as [|? ? Hx Hl]; subst.
  destruct l as [|y l]; [exact (components_single x Hx)|].
  rewrite concat_cons2, components_app_slash, (components_single x Hx), IH;
    [reflexivity | exact Hl | discriminate].
Qed.

Lemma plain_noSlash c : plain c = true -> noSlash c = true.
Proof.
  unfold plain. intros H.
  apply andb_true_iff in H as [H _]. apply andb_true_iff in H as [H _].
  apply andb_true_iff in H as [H _]. exact H.
Qed.


Lemma Forall_plain_noSlash l :
  Forall (fun c => plain c = true) l -> Forall (fun c => noSlash c = true) l.
Proof. apply List.Forall_impl, plain_noSlash. Qed.

Lemma filter_plain_all l :
  Forall (fun c => plain c = true) l -> List.filter plain l = l.
Proof.
  induction 1 as [|c l Hc _ IH]; [reflexivity|]. cbn. now rewrite Hc, IH.
Qed.

Lemma filter_plain_plain l : Forall (fun c => plain c = true) (List.filter plain l).
Proof.
  apply List.Forall_forall. intros c Hc. apply List.filter_In in Hc. apply Hc.
Qed.

(** Without [..] among them, cleaning keeps the names and only them. *)
Lemma cleanComponents_names rooted cs :
  Forall (fun c => noSlash c = true) cs ->
  forallb (fun c => negb (String.eqb c "..")) cs = true ->
  forall out, cleanComponents rooted cs out = rev out ++ List.filter plain cs.
Proof.
  induction cs as [|c cs IH]; intros Hall Hno out.
  - cbn. now rewrite app_nil_r.
  - inversion Hall as [|? ? Hc Hcs]; subst.
    cbn [forallb] in Hno. apply andb_true_iff in Hno as [Hne Hno].
    apply negb_true_iff in Hne.
    cbn [cleanComponents List.filter]. unfold plain at 1. rewrite Hc, Hne.
    destruct (String.eqb c "") eqn:E1; [cbn; exact (IH Hcs Hno out)|].
    destruct (String.eqb c ".") eqn:E2; [cbn; exact (IH Hcs Hno out)|].
    cbn. rewrite (IH Hcs Hno (c :: out)). cbn [rev]. now rewrite <- app_assoc.
Qed.

Lemma concat_plain_nonempty x l :
  plain x = true -> String.concat "/" (x :: l) <> "".
Proof.
  intros Hx. destruct x as [|c x]; [discriminate Hx|].
  destruct l; cbn; discriminate.
Qed.

Lemma isRooted_concat_plain x l :
  plain x = true -> isRooted (String.concat "/" (x :: l)) = false.
Proof.
  intros Hx. apply plain_noSlash in Hx as Hs.
  destruct x as [|c x]; [discriminate Hx|].
  cbn [noSlash] in Hs. apply andb_true_iff in Hs as [Hc _]. apply negb_true_iff in Hc.
  destruct l; cbn; exact Hc.
Qed.

(** [Clean] of a path without [..]: its names, joined by single slashes,
    rooted as the path is. *)
Lemma Clean_layout p :
  noParent p = true -> Clean p = layout (isRooted p) (names p).
Proof.
  intros Hno. unfold Clean.
  destruct (String.eqb p "") eqn:Hp.
  { apply String.eqb_eq in Hp. subst p. reflexivity. }
  rewrite (cleanComponents_names (isRooted p) (components p)
             (components_noSlash p) Hno []).
  cbn [rev app]. fold (names p). unfold layout.
  destruct (isRooted p); [reflexivity|].
  assert (Hall := filter_plain_plain (components p)). fold (names p) in Hall.
  destruct (names p) as [|x l]; [reflexivity|].
  inversion Hall as [|? ? Hx _]; subst.
  destruct (String.eqb (String.concat "/" (x :: l)) "") eqn:E; [|reflexivity].
  apply String.eqb_eq in E. now destruct (concat_plain_nonempty x l Hx).
Qed.

Lemma layout_names rooted ns :
  Forall (fun c => plain c = true) ns ->
  names (layout rooted ns) = ns /\ noParent (layout rooted ns) = true /\
  isRooted (layout rooted ns) = rooted.
Proof.
  intros Hall. unfold names, noParent.
  assert (Hnp : forall l, Forall (fun c => plain c = true) l ->
                  forallb (fun c => negb (String.eqb c "..")) l = true).
  { induction 1 as [|c l Hc _ IH]; [reflexivity|]. cbn. rewrite IH.
    unfold plain in Hc. apply andb_true_iff in Hc as [_ Hc]. now rewrite Hc. }
  destruct rooted; cbn [layout].
  - cbn [components isRooted]. rewrite Ascii.eqb_refl.
    destruct ns as [|x l]; [cbn; auto|].
    rewrite (components_concat (x :: l) (Forall_plain_noSlash _ Hall)) by discriminate.
    change (List.filter plain ("" :: x :: l)) with (List.filter plain (x :: l)).
    change (forallb (fun c => negb (String.eqb c "..")) ("" :: x :: l))
      with (forallb (fun c => negb (String.eqb c "..")) (x :: l)).
    rewrite (filter_plain_all _ Hall), (Hnp _ Hall). auto.
  - destruct ns as [|x l]; [cbn; auto|].
    rewrite (components_concat (x :: l) (Forall_plain_noSlash _ Hall)) by discriminate.
    rewrite (filter_plain_all _ Hall), (Hnp _ Hall).
    inversion Hall as [|? ? Hx _]; subst.
    rewrite (isRooted_concat_plain x l Hx). auto.
Qed.

Lemma names_app_slash a b : names (a +:+ String slash b) = names a ++ names b.
Proof. unfold names. rewrite components_app_slash. apply List.filter_app. Qed.

Lemma noParent_app_slash a b :
  noParent (a +:+ String slash b) = (noParent a && noParent b)%bool.
Proof. unfold noParent. rewrite components_app_slash. apply forallb_app. Qed.

Lemma isRooted_app a b : a <> "" -> isRooted (a +:+ b) = isRooted a.
Proof. destruct a; [easy|reflexivity]. Qed.

(** [Join] of two elements without [..]. *)
Lemma Join_two a b :
  noParent a = true -> noParent b = true ->
  names (Join [a; b]) = names a ++ names b /\
  noParent (Join [a; b]) = true /\
  (a <> "" ->
   Join [a; b] = layout (isRooted a) (names a ++ names b)).
Proof.
  intros Ha Hb. unfold Join. cbn [dropEmpty].
  destruct (String.eqb a "") eqn:Ea.
  - apply String.eqb_eq in Ea. subst a.
    destruct (String.eqb b "") eqn:Eb.
    + apply String.eqb_eq in Eb. subst b.
      split; [reflexivity|]. split; [reflexivity|]. intros H. now destruct H.
    + change (String.concat "/" [b]) with b. rewrite (Clean_layout b Hb).
      destruct (layout_names (isRooted b) (names b) (filter_plain_plain _))
        as (Hn & Hp & _).
      fold (names b) in Hn, Hp. rewrite Hn, Hp.
      split; [reflexivity|]. split; [reflexivity|]. intros H. now destruct H.
  - change (String.concat "/" [a; b]) with (a +:+ String slash b).
    assert (Hne : a <> "") by (intros ->; discriminate Ea).
    assert (Hno : noParent (a +:+ String slash b) = true)
      by (rewrite noParent_app_slash, Ha, Hb; reflexivity).
    rewrite (Clean_layout _ Hno), names_app_slash, (isRooted_app a _ Hne).
    assert (Hall : Forall (fun c => plain c = true) (names a ++ names b))
      by (apply Forall_app; split; apply filter_plain_plain).
    destruct (layout_names (isRooted a) _ Hall) as (Hn & Hp & _).
    rewrite Hn, Hp. auto.
Qed.

Lemma destination_layout rc dest project :
  destDir rc <> "" ->
  noParent (destDir rc) = true -> noParent dest = true ->
  noParent (Project_Path project) = true ->
  destination rc dest project
  = layout (isRooted (destDir rc))
      (names (destDir rc) ++ names dest ++ names (Project_Path project)).
Proof.
  intros Hne Hd Hg Hp. unfold destination.
  destruct (Join_two dest (Project_Path project) Hg Hp) as (Hn & Hno & _).
  destruct (Join_two (destDir rc) _ Hd Hno) as (_ & _ & Hjoin).
  rewrite (Hjoin Hne), Hn. reflexivity.
Qed.



Lemma names_empty : names "" = [].
Proof. reflexivity. Qed.

Lemma layout_inj rooted l1 l2 :
  Forall (fun c => plain c = true) l1 -> Forall (fun c => plain c = true) l2 ->
  layout rooted l1 = layout rooted l2 -> l1 = l2.
Proof.
  intros H1 H2 Heq.
  destruct (layout_names rooted l1 H1) as (<- & _).
  destruct (layout_names rooted l2 H2) as (<- & _).
  now rewrite Heq.
Qed.

(** X11: where a repository goes, as a path: when no component of the
    destination root, of the prefix or of the project's path segment is
    [..], the destination is the names of the three, in this order,
    joined by single slashes, below the root exactly when the
    destination root is absolute; empty components and [.] leave no
    trace.  The destination root is not empty (the flag defaults to
    [./repos]). *)
Theorem destination_is_root_then_group_then_project
  (rc : RepoCloner) (dest : string) (project : gitlab_Project)
  (Hroot : destDir rc <> "")
  (HnoParentRoot : noParent (destDir rc) = true)
  (HnoParentPrefix : noParent dest = true)
  (HnoParentProject : noParent (Project_Path project) = true) :
  destination rc dest project
  = layout (isRooted (destDir rc))
      (names (destDir rc) ++ names dest ++ names (Project_Path project)) /\
  names (destination rc dest project)
  = names (destDir rc) ++ names dest ++ names (Project_Path project) /\
  Clean (destination rc dest project) = destination rc dest project.
Proof.
  pose proof (destination_layout rc dest project Hroot HnoParentRoot HnoParentPrefix
                HnoParentProject) as Heq.
  assert (Hall : Forall (fun c => plain c = true)
                   (names (destDir rc) ++ names dest ++ names (Project_Path project))).
  { repeat (apply Forall_app; split); apply filter_plain_plain. }
  destruct (layout_names (isRooted (destDir rc)) _ Hall) as (Hn & Hp & Hr).
  split; [exact Heq|]. split; [rewrite Heq; exact Hn|].
  rewrite Heq, (Clean_layout _ Hp), Hn, Hr. reflexivity.
Qed.








(** ** [main], from startup to the two loops *)

Section Startup.
Context {W R T : Type}.
Variable svc : Services W R T.

(** [mainWith] written out: the three startup steps, each ending the
    process when it fails, then the traversal with the cloner built from
    the flags. *)
Lemma mainWith_eq fuel flags w :
  mainWith svc fuel flags w =
  let token := flag_gitlab_token flags in
  let url := flag_gitlab_host flags +:+ "/api/v4" in
  let '(e1, w1) := NewClient svc token url w in
  match e1 with
  | Some e =>
      Some (tt, [EvNewClient token url (Some e);
                 EvLog Error_ (errorAttr e) "client error"; EvExit 1], w1)
  | None =>
      let '(e2, w2) := CurrentUser svc w1 in
      match e2 with
      | Some e =>
          Some (tt, [EvNewClient token url None; EvCurrentUser (Some e);
                     EvLog Error_ (errorAttr e) "current user error"; EvExit 1], w2)
      | None =>
          let '(ra, w3) := NewSSHAgentAuth svc "git" w2 in
          match ra with
          | Err e =>
              Some (tt, [EvNewClient token url None; EvCurrentUser None;
                         EvNewSSHAgentAuth "git" (Some e);
                         EvLog Error_ (errorAttr e) "auth error"; EvExit 1], w3)
          | Ok a =>
              match traverse svc (clonerOf flags a) fuel (flag_group_ids flags)
                      (flag_project_ids flags) w3 with
              | Some (_, t, w4) =>
                  Some (tt, [EvNewClient token url None; EvCurrentUser None;
                             EvNewSSHAgentAuth "git" None] ++ t, w4)
              | None => None
              end
          end
      end
  end.
Proof.
  unfold mainWith, bindD, lift, bind, gitlab_NewClient, client_Users_CurrentUser,
    ssh_NewSSHAgentAuth, slog, os_Exit, clonerOf. cbn zeta.
  destruct (NewClient svc _ _ w) as [[e|] w1]; [reflexivity|].
  destruct (CurrentUser svc w1) as [[e|] w2]; [reflexivity|].
  destruct (NewSSHAgentAuth svc "git" w2) as [[a|e] w3]; [|reflexivity].
  destruct (traverse svc _ fuel _ _ w3) as [[[[] t] w4]|]; reflexivity.
Qed.

(** The roots of a run are all visited. *)
Lemma traverse_visits_roots rc fuel groupIDs projectIDs w tr w' :
  traverse svc rc fuel groupIDs projectIDs w = Some (tt, tr, w') ->
  (forall gid, In gid groupIDs -> visited gid tr) /\
  (forall pid, In pid projectIDs -> visitedProject pid tr).
Proof.
  unfold traverse. intros Hrun.
  apply bindD_Some in Hrun as ([] & t1 & w1 & t2 & Hg & Hp & ->).
  unfold lift in Hp. injection Hp as Hp. split.
  - intros gid Hgid. eapply visited_mono; [apply incl_appl, incl_refl|].
    eapply (forEachD_reaches (Group svc rc fuel) (fun gid t => visited gid t));
      [| |exact Hg|exact Hgid].
    + intros x t t'. apply visited_mono.
    + intros x w0 tr0 w0' _. apply Group_visited.
  - intros pid Hpid. eapply visitedProject_mono; [apply incl_appr, incl_refl|].
    assert (H := forEach_reaches (Project svc rc) (fun pid t => visitedProject pid t)
                   projectIDs (fun x t t' => visitedProject_mono x t t')
                   (fun p w0 _ => Project_visited svc rc p w0) w1 pid Hpid).
    rewrite Hp in H. exact H.
Qed.

(** [main] written out: the directory of the program and the parsing of
    the flags, each ending the process when it fails, then the rest. *)
Lemma main_eq fuel w :
  main svc fuel w =
  let '(rd, w1) := Abs svc w in
  match rd with
  | Err e => Some (tt, EvAbs (Err e) :: leave (EvAbs (Err e)) e, w1)
  | Ok dir =>
      let '(rf, w2) := FlagParse svc defaultFlags w1 in
      match rf with
      | Err e =>
          Some (tt, [EvAbs (Ok dir); EvFlagParse (Err e)]
                      ++ leave (EvFlagParse (Err e)) e, w2)
      | Ok flags =>
          match mainWith svc fuel flags w2 with
          | Some (_, t, w3) =>
              Some (tt, [EvAbs (Ok dir); EvFlagParse (Ok flags)] ++ t, w3)
          | None => None
          end
      end
  end.
Proof.
  unfold main, bindD, lift, bind, filepath_Abs, flag_Parse, slog, os_Exit, leave,
    helpAsked, ret.
  cbn zeta.
  destruct (Abs svc w) as [[dir|e] w1]; [|reflexivity].
  destruct (FlagParse svc defaultFlags w1) as [[flags|e] w2].
  - destruct (mainWith svc fuel flags w2) as [[[[] t] w3]|]; reflexivity.
  - destruct (errors_Is ErrHelp e); reflexivity.
Qed.

Lemma sourceOf_mono t t' dest project :
  incl t t' -> sourceOf t dest project -> sourceOf t' dest project.
Proof.
  intros Hincl [[-> (pid & Hin)]|(id & group & projects & H1 & H2 & H3 & H4)].
  - left. split; [reflexivity|]. exists pid. auto.
  - right. exists id, group, projects. auto.
Qed.

Lemma placed_monotone rc : monotone (placed rc).
Proof.
  intros e t t' Hincl. destruct e; cbn; auto.
  intros (dest & project & Hsrc & Hrest). exists dest, project.
  split; [exact (sourceOf_mono _ _ _ _ Hincl Hsrc) | exact Hrest].
Qed.

Lemma Project_placed rc projectID w :
  closed (placed rc) (snd (fst (Project svc rc projectID w))).
Proof.
  rewrite Project_eq.
  destruct (slices_Contains (ignoreProjectIDs rc) projectID).
  { intros e [<-|[]]. exact I. }
  destruct (GetProject svc projectID w) as [[project|e0] w1].
  2:{ intros e [<-|[<-|[]]]; exact I. }
  assert (Hc := fun path b o err =>
                  gitClone_clones svc rc project "" w1 path b o err).
  destruct (gitClone svc rc project "" w1) as [[[] t] w2]. cbn [fst snd] in *.
  intros e [<-|Hin]; [exact I|].
  destruct e; try exact I.
  destruct (Hc _ _ _ _ Hin) as [-> ->].
  exists "", project. split; [|auto].
  left. split; [reflexivity|]. exists projectID. left. reflexivity.
Qed.

(** Every clone of a run is the clone of a project with a source in the
    trace. *)
Lemma traverse_placed rc fuel groupIDs projectIDs w tr w' :
  traverse svc rc fuel groupIDs projectIDs w = Some (tt, tr, w') ->
  closed (placed rc) tr.
Proof.
  unfold traverse. intros Hrun.
  apply bindD_Some in Hrun as ([] & t1 & w1 & t2 & Hg & Hp & ->).
  unfold lift in Hp. injection Hp as Hp.
  apply closed_app; [apply placed_monotone| |].
  - eapply (forEachD_closed (placed rc)); [apply placed_monotone| |exact Hg].
    intros gid w0 tr0 w0' _ H e Hin.
    pose proof (Group_placedUnderGroup svc rc _ _ _ _ _ H e Hin) as Hplaced.
    destruct e; try exact I.
    destruct Hplaced as (id & group & projects & project & H1 & H2 & H3 & -> & ->).
    exists (Group_FullPath group), project. split; [|split; reflexivity].
    right. exists id, group, projects. auto.
  - assert (H := forEach_closed (placed rc) (Project svc rc) projectIDs
                   (placed_monotone rc)
                   (fun p w0 _ => Project_placed rc p w0) w1).
    rewrite Hp in H. exact H.
Qed.

(** The two ways [main] goes: it leaves at the first startup call that
    fails, or all five succeed and the traversal runs. *)
Lemma main_cases fuel w tr w' :
  main svc fuel w = Some (tt, tr, w') ->
  (exists calls failing e,
      tr = calls ++ failing :: leave failing e /\
      startupError failing = Some (Some e) /\
      Forall (fun c => startupError c = Some None) calls /\
      map startupStep (calls ++ [failing]) = seq 1 (S (length calls))) \/
  (exists dir flags a run w1 w2 w3,
      fst (FlagParse svc defaultFlags w1) = Ok flags /\
      fst (NewSSHAgentAuth svc "git" w2) = Ok a /\
      tr = [EvAbs (Ok dir); EvFlagParse (Ok flags);
            EvNewClient (flag_gitlab_token flags) (flag_gitlab_host flags +:+ "/api/v4")
              None;
            EvCurrentUser None; EvNewSSHAgentAuth "git" None] ++ run /\
      traverse svc (clonerOf flags a) fuel (flag_group_ids flags)
        (flag_project_ids flags) w3 = Some (tt, run, w')).
Proof.
  rewrite main_eq. cbn zeta.
  destruct (Abs svc w) as [[dir|e] w1].
  2:{ intros [= <- <-]. left. exists [], (EvAbs (Err e)), e.
      repeat split. constructor. }
  destruct (FlagParse svc defaultFlags w1) as [[flags|e] w2] eqn:Hparse.
  2:{ intros [= <- <-]. left. exists [EvAbs (Ok dir)], (EvFlagParse (Err e)), e.
      repeat split. repeat constructor. }
  rewrite mainWith_eq. cbn zeta.
  destruct (NewClient svc _ _ w2) as [[e|] w3].
  { intros [= <- <-]. left.
    exists [EvAbs (Ok dir); EvFlagParse (Ok flags)],
      (EvNewClient (flag_gitlab_token flags) (flag_gitlab_host flags +:+ "/api/v4")
         (Some e)), e.
    repeat split. repeat constructor. }
  destruct (CurrentUser svc w3) as [[e|] w4].
  { intros [= <- <-]. left.
    exists [EvAbs (Ok dir); EvFlagParse (Ok flags);
            EvNewClient (flag_gitlab_token flags) (flag_gitlab_host flags +:+ "/api/v4")
              None],
      (EvCurrentUser (Some e)), e.
    repeat split. repeat constructor. }
  destruct (NewSSHAgentAuth svc "git" w4) as [[a|e] w5] eqn:Hauth.
  2:{ intros [= <- <-]. left.
      exists [EvAbs (Ok dir); EvFlagParse (Ok flags);
              EvNewClient (flag_gitlab_token flags)
                (flag_gitlab_host flags +:+ "/api/v4") None;
              EvCurrentUser None],
        (EvNewSSHAgentAuth "git" (Some e)), e.
      repeat split. repeat constructor. }
  destruct (traverse svc _ fuel _ _ w5) as [[[[] t] w6]|] eqn:Htr; [|discriminate].
  intros [= <- <-]. right.
  exists dir, flags, a, t, w1, w4, w5. rewrite Hparse, Hauth. auto.
Qed.

(** X9: [main] ends the process exactly when one of its five startup steps
    fails: the directory of the program, the parsing of the flags, the
    client, the identity check, the agent authentication, in this order.
    The trace then is the startup calls that succeeded, the one that
    failed, one error line with only that call's error under the
    message of the step (no line when the flags were not parsed because
    help was asked for), and the exit with status 1, and nothing else:
    no group or project was asked for and nothing was cloned.  A failed
    startup call is always followed by the exit. *)
Theorem startup_failure_ends_the_run
  (fuel : nat) (w w' : W) (tr : Trace)
  (Hrun : main svc fuel w = Some (tt, tr, w')) :
  (forall code, In (EvExit code) tr ->
     code = 1%Z /\
     exists calls failing e,
       tr = calls ++ failing :: leave failing e /\
       startupError failing = Some (Some e) /\
       Forall (fun c => startupError c = Some None) calls /\
       map startupStep (calls ++ [failing]) = seq 1 (S (length calls))) /\
  (forall call e, In call tr -> startupError call = Some (Some e) ->
     In (EvExit 1) tr).
Proof.
  destruct (main_cases _ _ _ _ Hrun)
    as [(calls & failing & e & -> & Hfail & Hcalls & Horder)
       |(dir & flags & a & run & w1 & w2 & w3 & _ & _ & -> & Htr)].
  - assert (Hexit : In (EvExit 1) (calls ++ failing :: leave failing e)).
    { apply in_or_app. right. right. unfold leave. apply in_or_app. right.
      left. reflexivity. }
    split; [|intros _ _ _ _; exact Hexit].
    intros code Hin. split; [|exists calls, failing, e; auto].
    apply in_app_or in Hin as [Hin|[Hin|Hin]].
    + rewrite List.Forall_forall in Hcalls. specialize (Hcalls _ Hin). discriminate.
    + subst failing. discriminate Hfail.
    + unfold leave in Hin. apply in_app_or in Hin as [Hin|[Hin|[]]].
      * destruct (helpAsked failing e); [destruct Hin|].
        destruct Hin as [Hin|[]]. discriminate Hin.
      * now injection Hin as <-.
  - apply traverse_traversalEvent in Htr. rewrite List.Forall_forall in Htr.
    split.
    + intros code Hin. exfalso. cbn in Hin.
      destruct Hin as [H|[H|[H|[H|[H|Hin]]]]]; try discriminate H.
      exact (Htr _ Hin).
    + intros call e Hin Hfail. exfalso. cbn in Hin.
      destruct Hin as [<-|[<-|[<-|[<-|[<-|Hin]]]]]; try discriminate Hfail.
      specialize (Htr _ Hin). destruct call; try discriminate Hfail; exact Htr.
Qed.

(** X10: when [main] gets past startup, its trace is the five startup calls
    (the directory of the program, the parsing of the flags, the client
    for the given token at the host's [/api/v4], the identity check, the
    agent authentication for user [git]) followed by the traversal, and
    the parsed flags reach every call.  Each clone is not bare, is
    authenticated by the agent's answer and reports progress to standard
    output exactly when [--progress] is set; it is the clone of a
    project with a source in the trace (a fetched root project, with the
    empty prefix, or a project listed for a fetched group, with the
    group's full path), from that project's URL, into [--dest-dir]
    joined with the prefix joined with the project's path segment.
    When [--dest-dir] is not empty and no component of the three is
    [..], that path is the names of [--dest-dir] followed by those of
    the prefix and of the segment, so it lies below [--dest-dir];
    nothing checks for [..].  Each pull is forced, from [origin], with
    the same progress; no identifier of the two ignore lists is fetched;
    and every root group and root project is visited. *)
Theorem main_passes_the_flags_on
  (fuel : nat) (w w' : W) (tr : Trace)
  (Hrun : main svc fuel w = Some (tt, tr, w'))
  (Hstarted : forall code, ~ In (EvExit code) tr) :
  exists dir flags a run w1 w2 w3,
    fst (FlagParse svc defaultFlags w1) = Ok flags /\
    fst (NewSSHAgentAuth svc "git" w2) = Ok a /\
    tr = [EvAbs (Ok dir); EvFlagParse (Ok flags);
          EvNewClient (flag_gitlab_token flags) (flag_gitlab_host flags +:+ "/api/v4")
            None;
          EvCurrentUser None; EvNewSSHAgentAuth "git" None] ++ run /\
    traverse svc (clonerOf flags a) fuel (flag_group_ids flags) (flag_project_ids flags)
      w3 = Some (tt, run, w') /\
    (forall path isBare o err,
       In (EvPlainClone path isBare o err) tr ->
       isBare = false /\ Auth o = a /\
       Progress o = (if flag_progress flags then Stdout else Discard) /\
       exists dest project,
         sourceOf tr dest project /\
         URL o = Project_SSHURLToRepo project /\
         path = Join [flag_dest_dir flags; Join [dest; Project_Path project]] /\
         (flag_dest_dir flags <> "" ->
          noParent (flag_dest_dir flags) = true ->
          noParent dest = true ->
          noParent (Project_Path project) = true ->
          path = layout (isRooted (flag_dest_dir flags))
                   (names (flag_dest_dir flags) ++ names dest
                      ++ names (Project_Path project)))) /\
    (forall path o err,
       In (EvPull path o err) tr ->
       o = {| RemoteName := "origin"; Force := true;
              PullProgress := if flag_progress flags then Stdout else Discard |}) /\
    (forall gid opt r,
       In (EvGetGroup gid opt r) tr ->
       slices_Contains (flag_ignore_group_ids flags) gid = false) /\
    (forall pid r,
       In (EvGetProject pid r) tr ->
       slices_Contains (flag_ignore_project_ids flags) pid = false) /\
    (forall gid, In gid (flag_group_ids flags) -> visited gid tr) /\
    (forall pid, In pid (flag_project_ids flags) -> visitedProject pid tr).
Proof.
  destruct (main_cases _ _ _ _ Hrun)
    as [(calls & failing & e & -> & _)
       |(dir & flags & a & run & w1 & w2 & w3 & Hparse & Hauth & -> & Htr)].
  { exfalso. apply (Hstarted 1%Z). apply in_or_app. right. right. unfold leave.
    apply in_or_app. right. left. reflexivity. }
  exists dir, flags, a, run, w1, w2, w3.
  split; [exact Hparse|]. split; [exact Hauth|]. split; [reflexivity|].
  split; [exact Htr|].
  assert (Hev := traverse_traversalEvent _ _ _ _ _ _ _ _ Htr).
  rewrite List.Forall_forall in Hev.
  assert (Hplaced := traverse_placed _ _ _ _ _ _ _ Htr).
  destruct (traverse_visits_roots _ _ _ _ _ _ _ Htr) as [Hgroups Hprojects].
  set (start := [EvAbs (Ok dir); EvFlagParse (Ok flags);
                 EvNewClient (flag_gitlab_token flags)
                   (flag_gitlab_host flags +:+ "/api/v4") None;
                 EvCurrentUser None; EvNewSSHAgentAuth "git" None]).
  assert (Hin : forall e, In e (start ++ run) -> startupError e <> None \/ In e run).
  { intros e0 H. apply in_app_or in H as [H|H]; [left|right; exact H].
    destruct H as [<-|[<-|[<-|[<-|[<-|[]]]]]]; discriminate. }
  assert (Hincl : incl run (start ++ run)) by (apply incl_appr, incl_refl).
  split; [|split; [|split; [|split; [|split]]]].
  - intros path isBare o err H.
    destruct (Hin _ H) as [Hs|Ht]; [now destruct Hs|].
    destruct (Hev _ Ht) as (Hbare & _).
    destruct (Hplaced _ Ht) as (dest & project & Hsrc & -> & ->).
    split; [exact Hbare|]. split; [reflexivity|]. split; [reflexivity|].
    exists dest, project.
    split; [exact (sourceOf_mono _ _ _ _ Hincl Hsrc)|].
    split; [reflexivity|]. split; [reflexivity|].
    intros Hroot Hd Hg Hp.
    exact (destination_layout (clonerOf flags a) dest project Hroot Hd Hg Hp).
  - intros path o err H. destruct (Hin _ H) as [Hs|Ht]; [now destruct Hs|].
    exact (Hev _ Ht).
  - intros gid opt r H. destruct (Hin _ H) as [Hs|Ht]; [now destruct Hs|].
    exact (proj2 (Hev _ Ht)).
  - intros pid r H. destruct (Hin _ H) as [Hs|Ht]; [now destruct Hs|].
    exact (Hev _ Ht).
  - intros gid Hg. eapply visited_mono; [exact Hincl | exact (Hgroups gid Hg)].
  - intros pid Hp. eapply visitedProject_mono; [exact Hincl | exact (Hprojects pid Hp)].
Qed.

End Startup.

(** ** The whole program returns *)

Section Returns.
Context {W R T : Type}.
Variable svc : Services W R T.

Lemma traverse_fuel_le rc fuel fuel' groupIDs projectIDs w r :
  fuel <= fuel' ->
  traverse svc rc fuel groupIDs projectIDs w = Some r ->
  traverse svc rc fuel' groupIDs projectIDs w = Some r.
Proof.
  intros Hle. unfold traverse, bindD.
  destruct (forEachD (Group svc rc fuel) groupIDs w) as [[[[] t1] w1]|] eqn:Hg;
    [|discriminate].
  rewrite (forEachD_ext (Group svc rc fuel) (Group svc rc fuel') groupIDs
             (fun gid w0 r0 _ => Group_fuel_le svc rc fuel fuel' gid w0 r0 Hle)
             w _ Hg).
  auto.
Qed.

(** The loop over the root groups returns when every visit does. *)
Lemma roots_return rc groupIDs :
  acyclic svc ->
  forall w, exists fuel tr w',
    forEachD (Group svc rc fuel) groupIDs w = Some (tt, tr, w').
Proof.
  intros Hwf. induction groupIDs as [|gid l IH]; intros w.
  - exists 0, [], w. reflexivity.
  - destruct (Group_returns svc rc Hwf gid w) as (n1 & t1 & w1 & H1).
    destruct (IH w1) as (n2 & t2 & w2 & H2).
    exists (Nat.max n1 n2), (t1 ++ t2), w2.
    rewrite forEachD_cons.
    rewrite (Group_fuel_le svc rc n1 (Nat.max n1 n2) _ _ _ (Nat.le_max_l _ _) H1).
    rewrite (forEachD_ext (Group svc rc n2) (Group svc rc (Nat.max n1 n2)) l
               (fun x w0 r0 _ =>
                  Group_fuel_le svc rc n2 (Nat.max n1 n2) x w0 r0 (Nat.le_max_r _ _))
               w1 _ H2).
    reflexivity.
Qed.

Lemma mainWith_returns (Hacyclic : acyclic svc) (flags : Flags) (w : W) :
  exists fuel tr w',
    forall fuel', fuel <= fuel' -> mainWith svc fuel' flags w = Some (tt, tr, w').
Proof.
  destruct (NewClient svc (flag_gitlab_token flags)
              (flag_gitlab_host flags +:+ "/api/v4") w) as [[e|] w1] eqn:H1.
  { eexists 0, _, _. intros fuel' _. rewrite mainWith_eq. cbn zeta. rewrite H1.
    reflexivity. }
  destruct (CurrentUser svc w1) as [[e|] w2] eqn:H2.
  { eexists 0, _, _. intros fuel' _. rewrite mainWith_eq. cbn zeta. rewrite H1, H2.
    reflexivity. }
  destruct (NewSSHAgentAuth svc "git" w2) as [[a|e] w3] eqn:H3.
  2:{ eexists 0, _, _. intros fuel' _. rewrite mainWith_eq. cbn zeta.
      rewrite H1, H2, H3. reflexivity. }
  destruct (roots_return (clonerOf flags a) (flag_group_ids flags) Hacyclic w3)
    as (fuel & t1 & w4 & Hroots).
  destruct (forEach (Project svc (clonerOf flags a)) (flag_project_ids flags) w4)
    as [[[] t2] w5] eqn:Hprojects.
  assert (Hrun : traverse svc (clonerOf flags a) fuel (flag_group_ids flags)
                   (flag_project_ids flags) w3 = Some (tt, t1 ++ t2, w5)).
  { unfold traverse, bindD, lift. rewrite Hroots, Hprojects. reflexivity. }
  eexists fuel, _, _. intros fuel' Hle. rewrite mainWith_eq. cbn zeta.
  rewrite H1, H2, H3, (traverse_fuel_le _ _ _ _ _ _ _ Hle Hrun). reflexivity.
Qed.

(** X13: on a hierarchy without an endless chain of subgroups the whole
    program returns, from every state of the world and for every command
    line: either it leaves at startup or both loops run to their end.
    The depth allowed to the recursion is only a bound: from some depth
    on, the trace and the world the program leaves are the same.  This
    holds of [main] from the parsed flags on, whatever the flags, and of
    the whole of [main]. *)
Theorem main_returns_on_acyclic_hierarchy
  (Hacyclic : acyclic svc) (flags : Flags) (w : W) :
  (exists fuel tr w',
     forall fuel', fuel <= fuel' -> mainWith svc fuel' flags w = Some (tt, tr, w')) /\
  (exists fuel tr w',
     forall fuel', fuel <= fuel' -> main svc fuel' w = Some (tt, tr, w')).
Proof.
  split; [exact (mainWith_returns Hacyclic flags w)|].
  destruct (Abs svc w) as [[dir|e] w1] eqn:H1.
  2:{ eexists 0, _, _. intros fuel' _. rewrite main_eq. cbn zeta. rewrite H1.
      reflexivity. }
  destruct (FlagParse svc defaultFlags w1) as [[parsed|e] w2] eqn:H2.
  2:{ eexists 0, _, _. intros fuel' _. rewrite main_eq. cbn zeta. rewrite H1, H2.
      reflexivity. }
  destruct (mainWith_returns Hacyclic parsed w2) as (fuel & t & w3 & Hrest).
  eexists fuel, _, _. intros fuel' Hle. rewrite main_eq. cbn zeta.
  rewrite H1, H2, (Hrest fuel' Hle). reflexivity.
Qed.

End Returns.

(** ** Failures and the rest of the run *)

Section Survival.
Context {W R T : Type}.
Variable svc : Services W R T.
Variable rc : RepoCloner.

(** The two loops return on a hierarchy without an endless chain of
    subgroups, whatever the services answer. *)
Lemma traverse_returns :
  acyclic svc ->
  forall groupIDs projectIDs w,
    exists fuel tr w',
      forall fuel', fuel <= fuel' ->
        traverse svc rc fuel' groupIDs projectIDs w = Some (tt, tr, w').
Proof.
  intros Hacyclic groupIDs projectIDs w.
  destruct (roots_return svc rc groupIDs Hacyclic w) as (fuel & t1 & w1 & Hroots).
  destruct (forEach (Project svc rc) projectIDs w1) as [[[] t2] w2] eqn:Hprojects.
  assert (Hrun : traverse svc rc fuel groupIDs projectIDs w = Some (tt, t1 ++ t2, w2)).
  { unfold traverse, bindD, lift. rewrite Hroots, Hprojects. reflexivity. }
  exists fuel, (t1 ++ t2), w2. intros fuel' Hle.
  exact (traverse_fuel_le svc rc _ _ _ _ _ _ Hle Hrun).
Qed.

(** A visit whose fetch fails is two events long, and the loop goes on
    with the next group from the world the fetch left. *)
Lemma failed_visit_then_the_rest {A : Type} (idOf : A -> Z) fuel x rest w e w1 :
  slices_Contains (ignoreGroupIDs rc) (idOf x) = false ->
  GetGroup svc (idOf x) listOptions w = (Err e, w1) ->
  forEachD (fun g => Group svc rc (S fuel) (idOf g)) (x :: rest) w
  = match forEachD (fun g => Group svc rc (S fuel) (idOf g)) rest w1 with
    | Some (_, t, w2) =>
        Some (tt, [EvGetGroup (idOf x) listOptions (Err e);
                   EvLog Error_ (groupLog (idOf x) ++ errorAttr e) "get group error"]
                    ++ t, w2)
    | None => None
    end.
Proof.
  intros Hign Hget. rewrite forEachD_cons, Group_eq. cbn zeta.
  rewrite Hign, Hget. cbn [errorLine].
  destruct (forEachD _ rest w1) as [[[[] t] w2]|]; reflexivity.
Qed.

(** C7: no failure ends the run.  On a hierarchy without an endless chain
    of subgroups the two loops of [main] return, from every state of the
    world and whatever the services answer, failures included (a
    hierarchy with such a chain is the one case in which they do not
    return, and a failure plays no part in it).  In every run that
    returned, whatever failed on the way, the process never exits;
    [Group] is called for every root group and [Project] for every root
    project; every project that some listing answered is synced; and
    [Group] is called for every subgroup that some listing answered.
    The failure itself is local: when the fetch of a subgroup fails, its
    visit is the fetch and the error line, and the siblings that follow
    are visited from the world the fetch left, exactly as if they were
    alone; the same holds of a root group, with the remaining roots;
    and whatever the sync of a listed project did, the loop goes on
    with the projects that follow. *)
Theorem failures_do_not_stop_the_run :
  (acyclic svc ->
   forall groupIDs projectIDs w,
     exists fuel tr w',
       forall fuel', fuel <= fuel' ->
         traverse svc rc fuel' groupIDs projectIDs w = Some (tt, tr, w')) /\
  (forall fuel groupIDs projectIDs w tr w',
     traverse svc rc fuel groupIDs projectIDs w = Some (tt, tr, w') ->
     (forall code, ~ In (EvExit code) tr) /\
     (forall gid, In gid groupIDs -> visited gid tr) /\
     (forall pid, In pid projectIDs -> visitedProject pid tr) /\
     (forall id opt projects,
        In (EvListGroupProjects id opt (Ok projects)) tr ->
        forall p, In p projects -> synced rc p tr) /\
     (forall id opt groups,
        In (EvListSubGroups id opt (Ok groups)) tr ->
        forall g, In g groups -> visited (Group_ID g) tr)) /\
  (forall fuel (x : gitlab_Group) siblings w e w1,
     slices_Contains (ignoreGroupIDs rc) (Group_ID x) = false ->
     GetGroup svc (Group_ID x) listOptions w = (Err e, w1) ->
     forEachD (fun g => Group svc rc (S fuel) (Group_ID g)) (x :: siblings) w
     = match forEachD (fun g => Group svc rc (S fuel) (Group_ID g)) siblings w1 with
       | Some (_, t, w2) =>
           Some (tt, [EvGetGroup (Group_ID x) listOptions (Err e);
                      EvLog Error_ (groupLog (Group_ID x) ++ errorAttr e)
                        "get group error"] ++ t, w2)
       | None => None
       end) /\
  (forall fuel gid roots projectIDs w e w1,
     slices_Contains (ignoreGroupIDs rc) gid = false ->
     GetGroup svc gid listOptions w = (Err e, w1) ->
     traverse svc rc (S fuel) (gid :: roots) projectIDs w
     = match traverse svc rc (S fuel) roots projectIDs w1 with
       | Some (_, t, w2) =>
           Some (tt, [EvGetGroup gid listOptions (Err e);
                      EvLog Error_ (groupLog gid ++ errorAttr e) "get group error"]
                       ++ t, w2)
       | None => None
       end) /\
  (forall dest project projects w,
     forEach (fun p => gitClone svc rc p dest) (project :: projects) w
     = let '(_, t1, w1) := gitClone svc rc project dest w in
       let '(_, t2, w2) := forEach (fun p => gitClone svc rc p dest) projects w1 in
       (tt, t1 ++ t2, w2)).
Proof.
  split; [exact traverse_returns|].
  split; [intros fuel groupIDs projectIDs w tr w';
          exact (returned_run_went_on svc rc fuel groupIDs projectIDs w tr w')|].
  split; [intros fuel x siblings w e w1;
          exact (failed_visit_then_the_rest Group_ID fuel x siblings w e w1)|].
  split; [|intros dest project projects w;
           exact (forEach_cons (fun p => gitClone svc rc p dest) project projects w)].
  intros fuel gid roots projectIDs w e w1 Hign Hget. unfold traverse, bindD.
  rewrite forEachD_cons, Group_eq. cbn zeta. rewrite Hign, Hget. cbn [errorLine].
  destruct (forEachD (Group svc rc (S fuel)) roots w1) as [[[[] t1] w2]|];
    [|reflexivity].
  unfold lift. destruct (forEach (Project svc rc) projectIDs w2) as [[[] t2] w3].
  rewrite <- app_assoc. reflexivity.
Qed.

End Survival.

Lemma noExit_In tr : Setup.noExit tr = true -> forall code, ~ In (EvExit code) tr.
Proof.
  unfold Setup.noExit. rewrite forallb_forall. intros H code Hin.
  specialize (H _ Hin). discriminate H.
Qed.


(** ** The scenarios, run *)

Module Runs.
Import Mirror Scenario.

Lemma gitClone_idempotent_witness :
  abandoned (snd (fst (gitClone (services nested) (cloner [] []) alpha "grp" emptyDisk)))
    = false /\
  gitClone (services nested) (cloner [] []) alpha "grp"
    (snd (gitClone (services nested) (cloner [] []) alpha "grp" emptyDisk))
  = (tt, upToDateTrace (cloner [] []) alpha "grp",
     snd (gitClone (services nested) (cloner [] []) alpha "grp" emptyDisk)).
Proof.
  assert (H1 : gitClone (services nested) (cloner [] []) alpha "grp" emptyDisk
               = (tt,
                  snd (fst (gitClone (services nested) (cloner [] []) alpha "grp"
                              emptyDisk)),
                  snd (gitClone (services nested) (cloner [] []) alpha "grp"
                         emptyDisk)))
    by (vm_compute; reflexivity).
  assert (H2 : abandoned
                 (snd (fst (gitClone (services nested) (cloner [] []) alpha "grp"
                              emptyDisk))) = false)
    by (vm_compute; reflexivity).
  split; [exact H2|].
  exact (proj1 (gitClone_idempotent nested (cloner [] []) alpha "grp" emptyDisk _ _
                  H1 H2)).
Defined.

(** A repository whose remote does not exist: the first sync is
    abandoned at the clone, and so is the second, which never reaches a
    pull and so never takes the [NoErrAlreadyUpToDate] branch. *)
Lemma second_sync_of_a_missing_remote_is_abandoned :
  let rc := cloner [] [] in
  let first := gitClone (services nested) rc gone "grp" emptyDisk in
  let second := gitClone (services nested) rc gone "grp" (snd first) in
  snd (fst second)
  = [EvLog Info (projectLog "grp" gone) "get repo";
     EvPlainClone "repos/grp/gone" false (cloneOptions rc gone)
       (Some (ErrOther "repository not found"));
     EvLog Error_ (projectLog "grp" gone ++ errorAttr (ErrOther "repository not found"))
       "clone repo error"] /\
  abandoned (snd (fst second)) = true /\
  snd (fst second) <> upToDateTrace rc gone "grp" /\
  (forall path o err, ~ In (EvPull path o err) (snd (fst second))) /\
  treeAt (snd second) (destination rc "grp" gone) = None.
Proof.
  cbv zeta.
  assert (H : snd (fst (gitClone (services nested) (cloner [] []) gone "grp"
                          (snd (gitClone (services nested) (cloner [] []) gone "grp"
                                  emptyDisk))))
              = [EvLog Info (projectLog "grp" gone) "get repo";
                 EvPlainClone "repos/grp/gone" false (cloneOptions (cloner [] []) gone)
                   (Some (ErrOther "repository not found"));
                 EvLog Error_
                   (projectLog "grp" gone ++ errorAttr (ErrOther "repository not found"))
                   "clone repo error"])
    by (vm_compute; reflexivity).
  split; [exact H|]. rewrite H.
  split; [reflexivity|]. split; [discriminate|].
  split; [|vm_compute; reflexivity].
  intros path o err [Hin|[Hin|[Hin|[]]]]; discriminate Hin.
Qed.

Lemma clone_AlreadyExists_witness :
  PlainClone (services nested) (destination (cloner [] []) "grp" alpha) false
    (cloneOptions (cloner [] []) alpha) diverged
  = (Some ErrRepositoryAlreadyExists, diverged) /\
  (exists rest w',
     gitClone (services nested) (cloner [] []) alpha "grp" diverged
     = (tt,
        [EvLog Info (projectLog "grp" alpha) "get repo";
         EvPlainClone "repos/grp/alpha" false (cloneOptions (cloner [] []) alpha)
           (Some ErrRepositoryAlreadyExists);
         EvPlainOpen "repos/grp/alpha" None] ++ rest,
        w')) /\
  PlainClone (services nested) (destination (cloner [] []) "grp" gone) false
    (cloneOptions (cloner [] []) gone) emptyDisk
  = (Some (ErrOther "repository not found"), emptyDisk) /\
  gitClone (services nested) (cloner [] []) gone "grp" emptyDisk
  = (tt,
     [EvLog Info (projectLog "grp" gone) "get repo";
      EvPlainClone "repos/grp/gone" false (cloneOptions (cloner [] []) gone)
        (Some (ErrOther "repository not found"));
      EvLog Error_
        (projectLog "grp" gone ++ errorAttr (ErrOther "repository not found"))
        "clone repo error"],
     emptyDisk).
Proof.
  assert (H1 : PlainClone (services nested) (destination (cloner [] []) "grp" alpha)
                 false (cloneOptions (cloner [] []) alpha) diverged
               = (Some ErrRepositoryAlreadyExists, diverged))
    by (vm_compute; reflexivity).
  assert (H2 : PlainClone (services nested) (destination (cloner [] []) "grp" gone)
                 false (cloneOptions (cloner [] []) gone) emptyDisk
               = (Some (ErrOther "repository not found"), emptyDisk))
    by (vm_compute; reflexivity).
  split; [exact H1|]. split; [|split; [exact H2|]].
  - destruct (proj1 (clone_AlreadyExists_is_not_an_error (services nested)
                       (cloner [] []) alpha "grp" diverged _ _ H1) eq_refl)
      as (ro & w2 & rest & w' & Hopen & Hrun & _).
    exists rest, w'. rewrite Hrun.
    assert (Hro : ro = Ok "repos/grp/alpha").
    { assert (Ho : PlainOpen (services nested)
                     (destination (cloner [] []) "grp" alpha) diverged
                   = (Ok "repos/grp/alpha", diverged))
        by (vm_compute; reflexivity).
      rewrite Ho in Hopen. injection Hopen as <- _. reflexivity. }
    rewrite Hro. reflexivity.
  - exact (proj2 (clone_AlreadyExists_is_not_an_error (services nested)
                    (cloner [] []) gone "grp" emptyDisk _ _ H2) eq_refl).
Defined.

Lemma pull_AlreadyUpToDate_witness :
  Pull (services nested) "repos/grp/alpha" (pullOptions (cloner [] [])) upToDate
  = (Some NoErrAlreadyUpToDate, upToDate) /\
  gitClone (services nested) (cloner [] []) alpha "grp" upToDate
  = (tt, upToDateTrace (cloner [] []) alpha "grp", upToDate) /\
  abandoned (upToDateTrace (cloner [] []) alpha "grp") = false.
Proof.
  assert (H1 : PlainClone (services nested) (destination (cloner [] []) "grp" alpha)
                 false (cloneOptions (cloner [] []) alpha) upToDate
               = (Some ErrRepositoryAlreadyExists, upToDate))
    by (vm_compute; reflexivity).
  assert (H2 : PlainOpen (services nested) (destination (cloner [] []) "grp" alpha)
                 upToDate = (Ok "repos/grp/alpha", upToDate))
    by (vm_compute; reflexivity).
  assert (H3 : Worktree (services nested) "repos/grp/alpha" upToDate
               = (Ok "repos/grp/alpha", upToDate))
    by reflexivity.
  assert (H4 : Pull (services nested) "repos/grp/alpha" (pullOptions (cloner [] []))
                 upToDate = (Some NoErrAlreadyUpToDate, upToDate))
    by (vm_compute; reflexivity).
  split; [exact H4|].
  exact (proj1 (pull_AlreadyUpToDate_is_not_an_error (services nested) (cloner [] [])
                  alpha "grp" upToDate _ _ _ _ _ _ _ _ H1 eq_refl H2 H3 H4) eq_refl).
Defined.

Lemma list_projects_failure_witness :
  ListSubGroups (services brokenListing) 10 listOptions emptyDisk
  = (Ok [sub], emptyDisk) /\
  exists tr,
    Group (services brokenListing) (cloner [] []) 3 10 emptyDisk
    = Some (tt, tr, emptyDisk) /\
    (forall id opt r, ~ In (EvListSubGroups id opt r) tr) /\
    (forall id opt r, In (EvGetGroup id opt r) tr -> id = 10%Z).
Proof.
  split; [vm_compute; reflexivity|].
  destruct (list_projects_failure_skips_subgroups (services brokenListing)
              (cloner [] []) 2 10 emptyDisk grp emptyDisk
              (ErrOther "404 Group Not Found") emptyDisk)
    as (tr & Hrun & _ & Hno & Honly);
    [reflexivity | vm_compute; reflexivity | vm_compute; reflexivity |].
  exists tr. auto.
Defined.

Lemma destination_paths_witness :
  clonedPaths
    (snd (fst (forEach (fun project =>
                          gitClone (services nested) (cloner [] []) project
                            (Group_FullPath sub))
                 [beta] emptyDisk)))
  = ["repos/grp/sub/beta"] /\
  clonedPaths (snd (fst (Project (services nested) (cloner [] []) 2 emptyDisk)))
  = ["repos/beta"].
Proof.
  split.
  - rewrite (proj1 (proj2 (destination_paths (services nested) (cloner [] [])))).
    vm_compute. reflexivity.
  - vm_compute. reflexivity.
Defined.

Lemma brokenSibling_noCycle : noCycle brokenSibling.
Proof. apply (ranked_noCycle brokenSibling depth). vm_compute. reflexivity. Qed.

Lemma failures_do_not_stop_the_run_witness :
  acyclic (services brokenSibling) /\
  (exists fuel tr w',
     forall fuel', fuel <= fuel' ->
       traverse (services brokenSibling) (cloner [] []) fuel' [10%Z; 99%Z] [4%Z; 1%Z]
         emptyDisk = Some (tt, tr, w')) /\
  exists tr w',
    traverse (services brokenSibling) (cloner [] []) 3 [10%Z; 99%Z] [4%Z; 1%Z] emptyDisk
    = Some (tt, tr, w') /\
    In (EvGetGroup 11 listOptions (notFound "Group")) tr /\
    In (EvGetGroup 99 listOptions (notFound "Group")) tr /\
    abandoned tr = true /\
    visited 12 tr /\
    synced (cloner [] []) alpha tr /\
    synced (cloner [] []) gamma tr /\
    visitedProject 1 tr.
Proof.
  destruct (failures_do_not_stop_the_run (services brokenSibling) (cloner [] []))
    as (Hreturns & Hwent & _).
  assert (Hacyclic := noCycle_acyclic brokenSibling brokenSibling_noCycle).
  split; [exact Hacyclic|].
  split; [exact (Hreturns Hacyclic [10%Z; 99%Z] [4%Z; 1%Z] emptyDisk)|].
  eexists _, _. split; [vm_compute; reflexivity|].
  split; [in_trace|]. split; [in_trace|]. split; [vm_compute; reflexivity|].
  match goal with
  | |- visited _ ?tr /\ _ =>
      destruct (Hwent 3 [10%Z; 99%Z] [4%Z; 1%Z] emptyDisk tr _
                  ltac:(vm_compute; reflexivity))
        as (_ & _ & Hprojects & Hlisted & Hsubgroups)
  end.
  split; [|split; [|split]].
  - apply (Hsubgroups 10%Z listOptions [sub; other] ltac:(in_trace) other). in_trace.
  - apply (Hlisted 10%Z listOptions [gone; alpha]); in_trace.
  - apply (Hlisted 12%Z listOptions [gamma]); in_trace.
  - apply Hprojects. in_trace.
Defined.

Lemma nested_noCycle : noCycle nested.
Proof. apply (ranked_noCycle nested depth). vm_compute. reflexivity. Qed.

Lemma Group_terminates_witness :
  noCycle nested /\
  acyclic (services nested) /\
  exists fuel tr w',
    Group (services nested) (cloner [] []) fuel 10 emptyDisk = Some (tt, tr, w').
Proof.
  split; [exact nested_noCycle|].
  split; [exact (noCycle_acyclic nested nested_noCycle)|].
  exact (proj1 (Group_terminates_on_acyclic_hierarchy (services nested) (cloner [] [])
                  (noCycle_acyclic nested nested_noCycle)) 10%Z emptyDisk).
Defined.


(** Without the force flag the reference backend refuses to update a
    diverged working copy, and keeps it. *)
Lemma pull_without_force_keeps_divergence :
  Pull (services nested) "repos/grp/alpha"
    {| RemoteName := "origin"; Force := false; PullProgress := Discard |} diverged
  = (Some (ErrOther "non-fast-forward update"), diverged).
Proof. vm_compute. reflexivity. Qed.

Lemma only_first_page_witness :
  exists tr w',
    Group (services nested) (cloner [] []) 3 10 emptyDisk = Some (tt, tr, w') /\
    countEvents isListGroupProjects tr <= countEvents isGetGroupOk tr /\
    countEvents isListSubGroups tr <= countEvents isListGroupProjects tr.
Proof.
  eexists _, _. split; [vm_compute; reflexivity|].
  match goal with
  | |- countEvents _ ?tr <= _ /\ _ =>
      exact (proj1 (proj2 only_first_page) _ _ _ (services nested) (cloner [] [])
               3 10%Z emptyDisk tr _ ltac:(vm_compute; reflexivity))
  end.
Defined.

(** Group 20 has 1001 direct projects, all of them upstream.  Its visit
    syncs 1000 of them and logs no error; the last of the listing, which
    the first page does not hold, is not cloned and has no working copy
    afterwards, while the one before it has. *)
Lemma beyond_first_page_never_synced :
  In (numbered 1000) crowd /\
  option_map
    (fun r =>
       (length (clonedPaths (snd (fst r))),
        abandoned (snd (fst r)),
        existsb (String.eqb (destination (cloner [] []) "big" (numbered 1000)))
          (clonedPaths (snd (fst r))),
        treeAt (snd r) (destination (cloner [] []) "big" (numbered 1000)),
        treeAt (snd r) (destination (cloner [] []) "big" (numbered 999))))
    (Group (services crowded) (cloner [] []) 2 20 crowdUpstream)
  = Some (1000, false, false, None, Some "v1").
Proof.
  split.
  - unfold crowd. apply in_map, in_seq. lia.
  - vm_compute. reflexivity.
Qed.

Import Setup.

Lemma backend_calls_follow_the_sync_order_witness :
  exists tr w',
    traverse (services brokenSibling) (cloner [] []) 3 [10%Z; 99%Z] [4%Z; 1%Z] emptyDisk
    = Some (tt, tr, w') /\
    runFrom (cloner [] []) Idle tr = Some Idle /\
    forall pre post path o err,
      tr = pre ++ EvPull path o err :: post ->
      exists pre', pre = pre' ++ [EvWorktree path None].
Proof.
  eexists _, _. split; [vm_compute; reflexivity|].
  match goal with
  | |- runFrom _ _ ?tr = _ /\ _ =>
      pose proof (backend_calls_follow_the_sync_order (services brokenSibling)
                    (cloner [] []) 3 [10%Z; 99%Z] [4%Z; 1%Z] emptyDisk _ tr
                    ltac:(vm_compute; reflexivity)) as H
  end.
  split; [exact (proj1 H) | exact (proj2 (proj2 (proj2 (proj2 H))))].
Defined.

Lemma sync_goes_on_until_a_call_fails_witness :
  exists tr w',
    traverse (services brokenSibling) (cloner [] []) 3 [10%Z; 99%Z] [4%Z; 1%Z] emptyDisk
    = Some (tt, tr, w') /\
    forall pre post path,
      tr = pre ++ EvWorktree path None :: post ->
      exists o err post',
        post = EvPull path o err :: post' /\ Force o = true /\ RemoteName o = "origin".
Proof.
  eexists _, _. split; [vm_compute; reflexivity|].
  match goal with
  | |- forall pre post path, ?tr = _ -> _ =>
      exact (proj2 (proj2 (proj2
               (sync_goes_on_until_a_call_fails (services brokenSibling)
                  (cloner [] []) 3 [10%Z; 99%Z] [4%Z; 1%Z] emptyDisk _ tr
                  ltac:(vm_compute; reflexivity)))))
  end.
Defined.

Lemma one_error_line_per_failed_call_witness :
  exists tr w',
    traverse (services brokenSibling) (cloner [] []) 3 [10%Z; 99%Z] [4%Z; 1%Z] emptyDisk
    = Some (tt, tr, w') /\
    countEvents failedCall tr = 4 /\
    countEvents isErrorLog tr = countEvents failedCall tr.
Proof.
  eexists _, _. split; [vm_compute; reflexivity|].
  split; [vm_compute; reflexivity|].
  match goal with
  | |- countEvents _ ?tr = _ =>
      exact (proj1 (one_error_line_per_failed_call (services brokenSibling)
                      (cloner [] []) 3 [10%Z; 99%Z] [4%Z; 1%Z] emptyDisk _ tr
                      ltac:(vm_compute; reflexivity)))
  end.
Defined.

Lemma every_error_line_has_its_context_witness :
  exists tr w',
    traverse (services brokenSibling) (cloner [] []) 3 [10%Z; 99%Z] [4%Z; 1%Z] emptyDisk
    = Some (tt, tr, w') /\
    exists pre post',
      tr = pre
           ++ EvPlainClone "repos/grp/gone" false (cloneOptions (cloner [] []) gone)
                (Some (ErrOther "repository not found"))
           :: EvLog Error_
                (projectLog "grp" gone ++ errorAttr (ErrOther "repository not found"))
                "clone repo error"
           :: post'.
Proof.
  eexists _, _. split; [vm_compute; reflexivity|].
  match goal with
  | |- exists pre post', ?tr = _ =>
      destruct (every_error_line_has_its_context (services brokenSibling)
                  (cloner [] []) 3 [10%Z; 99%Z] [4%Z; 1%Z] emptyDisk _ tr
                  ltac:(vm_compute; reflexivity)
                  (firstn 4 tr)
                  (EvPlainClone "repos/grp/gone" false (cloneOptions (cloner [] []) gone)
                     (Some (ErrOther "repository not found")))
                  (skipn 5 tr) ltac:(vm_compute; reflexivity) ltac:(reflexivity))
        as (log & Hlog & Hline);
      exists (firstn 4 tr)
  end.
  vm_compute in Hlog. injection Hlog as <-.
  destruct (Hline (ErrOther "repository not found") ltac:(reflexivity))
    as (post' & Hpost).
  exists post'. vm_compute in Hpost. injection Hpost as <-. vm_compute. reflexivity.
Defined.



Lemma excluded_projects_matter_for_root_projects_only_witness :
  traverse (services withSecret) (withIgnoredProjects [5%Z] (cloner [] [])) 3
    [10%Z] [1%Z] emptyDisk
  = traverse (services withSecret) (cloner [] []) 3 [10%Z] [1%Z] emptyDisk.
Proof.
  apply (excluded_projects_matter_for_root_projects_only (services withSecret)
           (cloner [] []) [5%Z] 3 [10%Z] [1%Z] emptyDisk).
  intros pid [<-|[]]. reflexivity.
Defined.

Lemma Group_never_returns_from_a_trap_witness :
  trap (services cyclic) (cloner [] []) (fun gid => gid = 10%Z) /\
  forall fuel w, Group (services cyclic) (cloner [] []) fuel 10 w = None.
Proof.
  assert (Htrap : trap (services cyclic) (cloner [] []) (fun gid => gid = 10%Z)).
  { intros gid ->. split; [reflexivity|].
    intros w. exists grp. split; [vm_compute; reflexivity|].
    intros w1. exists []. split; [vm_compute; reflexivity|].
    intros w3. exists [grp], grp. split; [vm_compute; reflexivity|].
    split; [left; reflexivity | reflexivity]. }
  split; [exact Htrap|].
  intros fuel w.
  exact (proj1 (Group_never_returns_from_a_trap (services cyclic) (cloner [] [])
                  (fun gid => gid = 10%Z) Htrap) fuel 10%Z w eq_refl).
Defined.

Lemma startup_failure_ends_the_run_witness :
  main (withCommandLine (Err ErrHelp) (services nested)) 3 emptyDisk
  = Some (tt, [EvAbs (Ok "/usr/local/bin"); EvFlagParse (Err ErrHelp); EvExit 1],
          emptyDisk) /\
  exists tr w',
    main (noAgent (withCommandLine (Ok flags) (services nested))) 3 emptyDisk
    = Some (tt, tr, w') /\
    In (EvNewSSHAgentAuth "git" (Some (ErrOther "SSH agent not found"))) tr /\
    exists calls failing e,
      tr = calls ++ failing :: leave failing e /\
      startupError failing = Some (Some e) /\
      Forall (fun c => startupError c = Some None) calls /\
      map startupStep (calls ++ [failing]) = seq 1 (S (length calls)).
Proof.
  split; [vm_compute; reflexivity|].
  eexists _, _. split; [vm_compute; reflexivity|]. split; [in_trace|].
  match goal with
  | |- exists calls failing e, ?tr = _ /\ _ =>
      exact (proj2 (proj1 (startup_failure_ends_the_run
                             (noAgent (withCommandLine (Ok flags) (services nested))) 3
                             emptyDisk _ tr ltac:(vm_compute; reflexivity))
                      1%Z ltac:(in_trace)))
  end.
Defined.

Lemma main_passes_the_flags_on_witness :
  destination (cloner [] []) "" stray = "elsewhere/x" /\
  exists tr w',
    main (withCommandLine (Ok flags) (services withSecret)) 3 emptyDisk
    = Some (tt, tr, w') /\
    noExit tr = true /\
    In (EvPlainClone "repos/grp/secret" false
          {| URL := Project_SSHURLToRepo secret; Auth := SSHAgentAuth "git";
             Progress := Stdout |} None) tr /\
    (forall pid r, In (EvGetProject pid r) tr -> slices_Contains [5%Z] pid = false) /\
    visited 10 tr.
Proof.
  split; [vm_compute; reflexivity|].
  eexists _, _. split; [vm_compute; reflexivity|].
  split; [vm_compute; reflexivity|]. split; [in_trace|].
  match goal with
  | |- (forall pid r, In _ ?tr -> _) /\ _ =>
      destruct (main_passes_the_flags_on
                  (withCommandLine (Ok flags) (services withSecret)) 3 emptyDisk _ tr
                  ltac:(vm_compute; reflexivity)
                  (noExit_In tr ltac:(vm_compute; reflexivity)))
        as (dir & parsed & a & run & w1 & w2 & w3 & Hparse & _ & _ & _ & _ & _ & _
            & Hprojects & Hgroups & _)
  end.
  vm_compute in Hparse. injection Hparse as <-.
  split; [exact Hprojects | apply Hgroups; left; reflexivity].
Defined.

Lemma destination_is_root_then_group_then_project_witness :
  destination (cloner [] []) "grp/sub" beta = "repos/grp/sub/beta" /\
  destination (cloner [] []) "grp/sub" beta
  = layout false (["repos"] ++ ["grp"; "sub"] ++ ["beta"]).
Proof.
  split; [vm_compute; reflexivity|].
  exact (proj1 (destination_is_root_then_group_then_project (cloner [] []) "grp/sub" beta
                  ltac:(discriminate) ltac:(vm_compute; reflexivity)
                  ltac:(vm_compute; reflexivity) ltac:(vm_compute; reflexivity))).
Defined.


Lemma main_returns_on_acyclic_hierarchy_witness :
  noCycle nested /\
  (exists fuel tr w',
     forall fuel', fuel <= fuel' ->
       mainWith (services nested) fuel' flags emptyDisk = Some (tt, tr, w')) /\
  (exists fuel tr w',
     forall fuel', fuel <= fuel' ->
       main (services nested) fuel' emptyDisk = Some (tt, tr, w')).
Proof.
  split; [exact nested_noCycle|].
  exact (main_returns_on_acyclic_hierarchy (services nested)
           (noCycle_acyclic nested nested_noCycle) flags emptyDisk).
Defined.

End Runs.
